(** * Shallow embedding of the gns-crypto-core crate and of the Tauri
    message store / message handler of gns-browser-tauri.

    Rust data is modelled as the code has it:
    - a Rust [char] is its Unicode scalar value (a [Z]), a Rust [String] /
      [&str] is the list of its chars ([rstring]); [as_bytes] / [into_bytes]
      is the UTF-8 encoding of that list;
    - a byte ([u8]) is a [Z] in [0, 256); a [Vec<u8>] / [&[u8]] is [bytes];
    - [Result<T, CryptoError>] is [result T CryptoError];
    - the cryptographic primitives (Ed25519, X25519, HKDF-SHA256,
      ChaCha20-Poly1305, SHA-512, BLAKE3) are the fields of the class
      [Primitives]; the properties of them a proof relies on are
      hypotheses of its statement (the record [crypto_ok], or stated in
      the theorem itself);
    - randomness (OsRng, Uuid::new_v4) and the clock (chrono::Utc::now)
      are explicit arguments. *)

From Stdlib Require Import String Ascii ZArith List Bool Lia.
From Stdlib Require Import Permutation Sorted.
From Stdlib Require Import DecimalZ.
Import ListNotations.
Set Warnings "-register-all".
Open Scope Z_scope.

(* ------------------------------------------------------------------ *)
(** ** Rust base types *)

Definition u8 := Z.
Definition bytes := list Z.
Definition rchar := Z.
Definition rstring := list rchar.

(** Rust [char] values are Unicode scalar values. *)
Definition valid_char (c : rchar) : Prop :=
  0 <= c < 1114112 /\ ~ (55296 <= c <= 57343).

Definition is_byte (b : Z) : Prop := 0 <= b < 256.

(** String literals of the source (all ASCII). *)
Definition lit (s : string) : rstring :=
  map (fun a => Z.of_nat (nat_of_ascii a)) (list_ascii_of_string s).

(** The double-quote char. *)
Definition dq : rchar := 34.

Inductive result (A E : Type) : Type :=
| Ok : A -> result A E
| Err : E -> result A E.
Arguments Ok {A E} _.
Arguments Err {A E} _.

Definition bind {A B E} (r : result A E) (k : A -> result B E) : result B E :=
  match r with Ok a => k a | Err e => Err e end.

Definition map_err {A E F} (f : E -> F) (r : result A E) : result A F :=
  match r with Ok a => Ok a | Err e => Err (f e) end.

(** The [?] operator. *)
Notation "x <- r ;; k" := (bind r (fun x => k))
  (at level 61, r at next level, right associativity).

(** Sequencing of steps that may panic. *)
Notation "x <- r ;o; k" := (match r with Some x => k | None => None end)
  (at level 61, r at next level, right associativity).

(* ------------------------------------------------------------------ *)
(** ** UTF-8 ([str::as_bytes], [String::into_bytes]) *)

Module Utf8.

Definition encode_char (c : rchar) : bytes :=
  if c <? 128 then [c]
  else if c <? 2048 then [192 + c / 64; 128 + c mod 64]
  else if c <? 65536 then
    [224 + c / 4096; 128 + (c / 64) mod 64; 128 + c mod 64]
  else
    [240 + c / 262144; 128 + (c / 4096) mod 64; 128 + (c / 64) mod 64;
     128 + c mod 64].

Definition encode (s : rstring) : bytes := flat_map encode_char s.

(** Decoding one char from the front of a byte string. *)
Definition decode_char (b : bytes) : option (rchar * bytes) :=
  match b with
  | [] => None
  | b0 :: r =>
    if b0 <? 128 then Some (b0, r)
    else if b0 <? 224 then
      match r with
      | b1 :: r => Some ((b0 - 192) * 64 + (b1 - 128), r)
      | _ => None
      end
    else if b0 <? 240 then
      match r with
      | b1 :: b2 :: r =>
        Some ((b0 - 224) * 4096 + (b1 - 128) * 64 + (b2 - 128), r)
      | _ => None
      end
    else
      match r with
      | b1 :: b2 :: b3 :: r =>
        Some ((b0 - 240) * 262144 + (b1 - 128) * 4096 + (b2 - 128) * 64
              + (b3 - 128), r)
      | _ => None
      end
  end.

Fixpoint decode_fuel (n : nat) (b : bytes) : option rstring :=
  match n with
  | O => match b with [] => Some [] | _ => None end
  | S n =>
    match b with
    | [] => Some []
    | _ => match decode_char b with
           | Some (c, r) => option_map (cons c) (decode_fuel n r)
           | None => None
           end
    end
  end.

Definition decode (b : bytes) : option rstring := decode_fuel (length b) b.

End Utf8.

(* ------------------------------------------------------------------ *)
(** ** The [hex] crate *)

Module Hex.

Definition digit (d : Z) : rchar := if d <? 10 then 48 + d else 87 + d.

(** [hex::encode]: lowercase, two chars per byte. *)
Definition encode (b : bytes) : rstring :=
  flat_map (fun x => [digit (x / 16); digit (x mod 16)]) b.

Inductive FromHexError : Type :=
| InvalidHexCharacter (c : rchar) (index : nat)
| OddLength
| InvalidStringLength.

(** [val] of the hex crate, on one byte of the input. *)
Definition val (c : u8) : option Z :=
  if (48 <=? c) && (c <=? 57) then Some (c - 48)
  else if (97 <=? c) && (c <=? 102) then Some (c - 87)
  else if (65 <=? c) && (c <=? 70) then Some (c - 55)
  else None.

Fixpoint decode_pairs (i : nat) (b : bytes) : result bytes FromHexError :=
  match b with
  | hi :: lo :: r =>
    match val hi with
    | None => Err (InvalidHexCharacter hi i)
    | Some h =>
      match val lo with
      | None => Err (InvalidHexCharacter lo (S i))
      | Some l => bind (decode_pairs (S (S i)) r) (fun t => Ok (h * 16 + l :: t))
      end
    end
  | [] => Ok []
  | [_] => Err OddLength
  end.

(** [hex::decode] of a [&str]: works on [as_bytes()]. *)
Definition decode (s : rstring) : result bytes FromHexError :=
  let data := Utf8.encode s in
  if Nat.odd (length data) then Err OddLength else decode_pairs 0 data.

End Hex.

(* ------------------------------------------------------------------ *)
(** ** Errors ([gns_crypto_core::errors]) *)

(** Modelled from the spec: [errors.rs] (the [CryptoError] enum and its
    [From] conversions) is not part of the sources at hand.  The variants
    are the error kinds of the spec's section 7; a [hex::FromHexError]
    converts to [InvalidHex] ("bad hex"), an [ed25519] signature error to
    the structural [SignatureVerificationFailed]. *)
Inductive CryptoError : Type :=
| InvalidKeyLength (expected got : nat)
| InvalidHex
| InvalidNonceLength
| SignatureVerificationFailed
| DecryptionFailed (msg : rstring)
| EncryptionFailed (msg : rstring)
| KeyDerivationFailed (msg : rstring)
| SerializationError (msg : rstring)
| InvalidEnvelope (msg : rstring).

(** Modelled from the spec: [impl From<hex::FromHexError> for CryptoError]. *)
Definition from_hex_error (_ : Hex.FromHexError) : CryptoError := InvalidHex.

(** [hex::decode(..)?] inside the crate. *)
Definition hex_decode (s : rstring) : result bytes CryptoError :=
  map_err from_hex_error (Hex.decode s).

(* ------------------------------------------------------------------ *)
(** ** Cryptographic primitives used by the crate *)

(** The audited primitive crates the code calls ([ed25519_dalek],
    [x25519_dalek], [hkdf], [chacha20poly1305], [sha2], [blake3],
    [serde_json] for a JSON string).  Symmetric keys are an opaque type. *)
Class Primitives : Type := {
  sha512 : bytes -> bytes;
  (** [SigningKey::from_bytes(s).verifying_key().to_bytes()] *)
  ed25519_public : bytes -> bytes;
  (** [SigningKey::from_bytes(s).sign(m).to_bytes()] *)
  ed25519_sign : bytes -> bytes -> bytes;
  (** [VerifyingKey::from_bytes(pk)] succeeds (valid point encoding) *)
  ed25519_point_ok : bytes -> bool;
  (** [vk.verify(m, &Signature::from_bytes(sig)).is_ok()] *)
  ed25519_verify : bytes -> bytes -> bytes -> bool;
  (** X25519 scalar multiplication (scalar, u-coordinate), clamping included *)
  x25519 : bytes -> bytes -> bytes;
  x25519_basepoint : bytes;
  SymKey : Type;
  (** [Hkdf::<Sha256>::new(None, ikm).expand(info, &mut [0u8; 32])];
      expanding to 32 bytes never fails (32 <= 255 * 32) *)
  hkdf_sha256_32 : bytes -> bytes -> SymKey;
  (** [ChaCha20Poly1305::encrypt] / [decrypt] (key, nonce, data) *)
  aead_seal : SymKey -> bytes -> bytes -> bytes;
  aead_open : SymKey -> bytes -> bytes -> option bytes;
  (** [blake3::hash(data).to_hex().to_string()] *)
  blake3_hex : bytes -> rstring;
  (** [serde_json::to_vec] of a JSON string value *)
  serde_json_str : rstring -> bytes
}.

(* ------------------------------------------------------------------ *)
(** ** Small list helpers *)

(** [v[i] = x] on a fixed-size array (index in range). *)
Fixpoint upd (i : nat) (x : Z) (l : list Z) : list Z :=
  match l, i with
  | [], _ => []
  | _ :: r, O => x :: r
  | y :: r, S i => y :: upd i x r
  end.

Definition rstring_eqb (a b : rstring) : bool :=
  if list_eq_dec Z.eq_dec a b then true else false.

(* ------------------------------------------------------------------ *)
(** ** [identity.rs] *)

Module Identity.
Section Identity.
Context {P : Primitives}.

Record GnsIdentity : Type := mkIdentity {
  signing_key : bytes;
  x25519_secret : bytes;
  x25519_public : bytes
}.

(** [ed25519_to_x25519_secret] *)
Definition ed25519_to_x25519_secret (ed25519_secret : bytes) : bytes :=
  let hash := sha512 ed25519_secret in
  let x := firstn 32 hash in
  let x := upd 0 (Z.land (nth 0 x 0) 248) x in
  let x := upd 31 (Z.land (nth 31 x 0) 127) x in
  let x := upd 31 (Z.lor (nth 31 x 0) 64) x in
  x.

(** [GnsIdentity::from_signing_key] *)
Definition from_signing_key (sk : bytes) : GnsIdentity :=
  let xs := ed25519_to_x25519_secret sk in
  {| signing_key := sk;
     x25519_secret := xs;
     x25519_public := x25519 xs x25519_basepoint |}.

(** [GnsIdentity::from_bytes] *)
Definition from_bytes (private_key : bytes) : result GnsIdentity CryptoError :=
  Ok (from_signing_key private_key).

(** [GnsIdentity::from_hex] *)
Definition from_hex (private_key_hex : rstring) : result GnsIdentity CryptoError :=
  b <- hex_decode private_key_hex ;;
  if negb (Nat.eqb (length b) 32) then
    Err (InvalidKeyLength 32 (length b))
  else from_bytes b.

Definition public_key_bytes (id : GnsIdentity) : bytes :=
  ed25519_public (signing_key id).
Definition public_key_hex (id : GnsIdentity) : rstring :=
  Hex.encode (public_key_bytes id).
Definition encryption_public_key_bytes (id : GnsIdentity) : bytes :=
  x25519_public id.
Definition encryption_key_hex (id : GnsIdentity) : rstring :=
  Hex.encode (encryption_public_key_bytes id).
Definition sign_bytes (id : GnsIdentity) (message : bytes) : bytes :=
  ed25519_sign (signing_key id) message.

End Identity.
End Identity.

(* ------------------------------------------------------------------ *)
(** ** [encryption.rs] *)

Module Encryption.
Section Encryption.
Context {P : Primitives}.

Record EncryptedPayload : Type := mkPayload {
  ephemeral_public_key : bytes;
  nonce : bytes;
  ciphertext : bytes
}.

(** [#[serde(untagged)] enum PayloadWrapper] *)
Inductive PayloadWrapper : Type :=
| Object (p : EncryptedPayload)
| String (s : rstring).

(** [derive_symmetric_key] *)
Definition derive_symmetric_key (shared_secret ephemeral_public recipient_public : bytes)
  : result SymKey CryptoError :=
  let info := lit "gns-envelope-v1:" ++ ephemeral_public ++ recipient_public in
  Ok (hkdf_sha256_32 shared_secret info).

(** [encrypt_for_recipient]; [ephemeral_secret] and [nonce_bytes] are the
    values drawn from [OsRng]. *)
Definition encrypt_for_recipient (ephemeral_secret nonce_bytes : bytes)
    (plaintext recipient_x25519_public : bytes) : result EncryptedPayload CryptoError :=
  let ephemeral_public := x25519 ephemeral_secret x25519_basepoint in
  let shared_secret := x25519 ephemeral_secret recipient_x25519_public in
  symmetric_key <- derive_symmetric_key shared_secret ephemeral_public
                     recipient_x25519_public ;;
  let ct := aead_seal symmetric_key nonce_bytes plaintext in
  Ok {| ephemeral_public_key := ephemeral_public;
        nonce := nonce_bytes;
        ciphertext := ct |}.

Definition auth_failed : CryptoError := DecryptionFailed (lit "Authentication failed").

(** [decrypt_from_sender] *)
Definition decrypt_from_sender (our_x25519_secret : bytes) (encrypted : EncryptedPayload)
  : result bytes CryptoError :=
  if negb (Nat.eqb (length (ephemeral_public_key encrypted)) 32) then
    Err (InvalidKeyLength 32 (length (ephemeral_public_key encrypted)))
  else if negb (Nat.eqb (length (nonce encrypted)) 12) then
    Err InvalidNonceLength
  else
    let ephemeral_public_bytes := ephemeral_public_key encrypted in
    let our_public := x25519 our_x25519_secret x25519_basepoint in
    let shared_secret := x25519 our_x25519_secret ephemeral_public_bytes in
    symmetric_key <- derive_symmetric_key shared_secret ephemeral_public_bytes
                       our_public ;;
    match aead_open symmetric_key (nonce encrypted) (ciphertext encrypted) with
    | Some plaintext => Ok plaintext
    | None => Err auth_failed
    end.

(** [serde_json::to_vec(&EncryptedPayload)]: fields in declaration order,
    camelCase, bytes as hex strings ([hex_bytes]). *)
Definition payload_json (p : EncryptedPayload) : bytes :=
  Utf8.encode
    (lit "{" ++ [dq] ++ lit "ephemeralPublicKey" ++ [dq] ++ lit ":" ++ [dq]
     ++ Hex.encode (ephemeral_public_key p) ++ [dq] ++ lit "," ++ [dq] ++ lit "nonce"
     ++ [dq] ++ lit ":" ++ [dq] ++ Hex.encode (nonce p) ++ [dq] ++ lit "," ++ [dq]
     ++ lit "ciphertext" ++ [dq] ++ lit ":" ++ [dq] ++ Hex.encode (ciphertext p)
     ++ [dq] ++ lit "}").

(** [serde_json::to_vec(&PayloadWrapper)]: untagged, so the inner value. *)
Definition wrapper_json (w : PayloadWrapper) : bytes :=
  match w with
  | Object p => payload_json p
  | String s => serde_json_str s
  end.

End Encryption.
End Encryption.

(* ------------------------------------------------------------------ *)
(** ** [signing.rs] *)

Module Signing.
Section Signing.
Context {P : Primitives}.

(** [serde_json::Value] *)
Inductive Value : Type :=
| Null
| Bool (b : bool)
| Number (n : Z)
| VString (s : rstring)
| Array (a : list Value)
| VObject (m : list (rstring * Value)).

(** [char::is_control]: general category Cc. *)
Definition is_control (c : rchar) : bool :=
  (c <? 32) || ((127 <=? c) && (c <=? 159)).

(** [format!("{:04x}", c)] for [c < 0x10000]. *)
Definition hex4 (c : rchar) : rstring :=
  [Hex.digit ((c / 4096) mod 16); Hex.digit ((c / 256) mod 16);
   Hex.digit ((c / 16) mod 16); Hex.digit (c mod 16)].

Definition escape_char (c : rchar) : rstring :=
  if c =? 34 then [92; 34]
  else if c =? 92 then [92; 92]
  else if c =? 10 then [92; 110]
  else if c =? 13 then [92; 114]
  else if c =? 9 then [92; 116]
  else if is_control c then 92 :: 117 :: hex4 c
  else [c].

(** [escape_json_string] *)
Definition escape_json_string (s : rstring) : rstring := flat_map escape_char s.

Fixpoint uint_chars (d : Decimal.uint) : rstring :=
  match d with
  | Decimal.Nil => []
  | Decimal.D0 d => 48 :: uint_chars d
  | Decimal.D1 d => 49 :: uint_chars d
  | Decimal.D2 d => 50 :: uint_chars d
  | Decimal.D3 d => 51 :: uint_chars d
  | Decimal.D4 d => 52 :: uint_chars d
  | Decimal.D5 d => 53 :: uint_chars d
  | Decimal.D6 d => 54 :: uint_chars d
  | Decimal.D7 d => 55 :: uint_chars d
  | Decimal.D8 d => 56 :: uint_chars d
  | Decimal.D9 d => 57 :: uint_chars d
  end.

(** [i64::to_string] (decimal, leading [-] when negative). *)
Definition number_to_string (n : Z) : rstring :=
  match Z.to_int n with
  | Decimal.Pos d => uint_chars d
  | Decimal.Neg d => 45 :: uint_chars d
  end.

Fixpoint join (sep : rstring) (l : list rstring) : rstring :=
  match l with
  | [] => []
  | [x] => x
  | x :: r => x ++ sep ++ join sep r
  end.

(** [String::cmp]: lexicographic (byte order of UTF-8 = scalar order). *)
Fixpoint str_cmp (a b : rstring) : comparison :=
  match a, b with
  | [], [] => Eq
  | [], _ => Lt
  | _, [] => Gt
  | x :: a, y :: b => match Z.compare x y with Eq => str_cmp a b | c => c end
  end.

(** [pairs.sort_by(|a, b| a.0.cmp(b.0))]: a stable sort on the keys. *)
Fixpoint insert_pair {A} (p : rstring * A) (l : list (rstring * A)) :=
  match l with
  | [] => [p]
  | q :: r => match str_cmp (fst p) (fst q) with
              | Lt => p :: q :: r
              | _ => q :: insert_pair p r
              end
  end.

Definition sort_pairs {A} (l : list (rstring * A)) : list (rstring * A) :=
  fold_left (fun acc p => insert_pair p acc) l [].

(** [canonical_json].  The values of an object are rendered before the
    pairs are sorted (the sort only looks at the keys, so the order of the
    two steps does not matter); keys are written unescaped, as in the
    source's [format!("\"{}\":{}", k, ..)]. *)
Fixpoint canonical_json (v : Value) : rstring :=
  match v with
  | VObject m =>
    let rendered := map (fun kv => (fst kv, canonical_json (snd kv))) m in
    let pairs := sort_pairs rendered in
    let inner := map (fun kv => [dq] ++ fst kv ++ [dq] ++ lit ":" ++ snd kv) pairs in
    lit "{" ++ join (lit ",") inner ++ lit "}"
  | Array arr => lit "[" ++ join (lit ",") (map canonical_json arr) ++ lit "]"
  | VString s => [dq] ++ escape_json_string s ++ [dq]
  | Number n => number_to_string n
  | Bool b => if b then lit "true" else lit "false"
  | Null => lit "null"
  end.

(** [canonicalize_for_signing]: [canonical_json(data).into_bytes()]. *)
Definition canonicalize_for_signing (data : Value) : bytes :=
  Utf8.encode (canonical_json data).

(** [verify_signature] *)
Definition verify_signature (public_key message signature : bytes)
  : result bool CryptoError :=
  if ed25519_point_ok public_key then Ok (ed25519_verify public_key message signature)
  else Err SignatureVerificationFailed.

(** [verify_signature_hex] *)
Definition verify_signature_hex (public_key_hex : rstring) (message : bytes)
    (signature_hex : rstring) : result bool CryptoError :=
  public_key_bytes <- hex_decode public_key_hex ;;
  signature_bytes <- hex_decode signature_hex ;;
  if negb (Nat.eqb (length public_key_bytes) 32) then
    Err (InvalidKeyLength 32 (length public_key_bytes))
  else if negb (Nat.eqb (length signature_bytes) 64) then
    Err (InvalidKeyLength 64 (length signature_bytes))
  else verify_signature public_key_bytes message signature_bytes.

End Signing.
End Signing.

(* ------------------------------------------------------------------ *)
(** ** [envelope.rs] *)

Module Envelope.
Import Encryption Signing Identity.
Section Envelope.
Context {P : Primitives}.

Record GnsEnvelope : Type := mkEnvelope {
  id : rstring;
  from_public_key : rstring;
  from_handle : option rstring;
  to_public_keys : list rstring;
  payload_type : rstring;
  timestamp : Z;
  thread_id : option rstring;
  reply_to_id : option rstring;
  encrypted_payload : PayloadWrapper;
  env_ephemeral_public_key : option rstring;
  env_nonce : option rstring;
  signature : rstring
}.

Record OpenedEnvelope : Type := mkOpened {
  o_from_public_key : rstring;
  o_from_handle : option rstring;
  o_payload_type : rstring;
  o_payload : bytes;
  o_signature_valid : bool;
  o_envelope_id : rstring;
  o_timestamp : Z;
  o_thread_id : option rstring;
  o_reply_to_id : option rstring
}.

(** [struct EnvelopeHeader] *)
Record EnvelopeHeader : Type := mkHeader {
  h_id : rstring;
  h_from_public_key : rstring;
  h_to_public_keys : list rstring;
  h_payload_type : rstring;
  h_timestamp : Z;
  h_encrypted_payload_hash : rstring
}.

(** [serde_json::to_value(&header)] with [rename_all = "camelCase"]. *)
Definition header_to_value (h : EnvelopeHeader) : Value :=
  VObject [(lit "id", VString (h_id h));
           (lit "fromPublicKey", VString (h_from_public_key h));
           (lit "toPublicKeys", Array (map VString (h_to_public_keys h)));
           (lit "payloadType", VString (h_payload_type h));
           (lit "timestamp", Number (h_timestamp h));
           (lit "encryptedPayloadHash", VString (h_encrypted_payload_hash h))].

(** [create_envelope]; [envelope_id] is [Uuid::new_v4().to_string()],
    [now_ms] is [chrono::Utc::now().timestamp_millis()], [ephemeral_secret]
    and [nonce_bytes] the randomness of [encrypt_for_recipient]. *)
Definition create_envelope (envelope_id : rstring) (now_ms : Z)
    (ephemeral_secret nonce_bytes : bytes)
    (sender : GnsIdentity) (recipient_public_key_hex recipient_encryption_key_hex
     payload_type : rstring) (payload : bytes) : result GnsEnvelope CryptoError :=
  recipient_enc_key_bytes <- hex_decode recipient_encryption_key_hex ;;
  if negb (Nat.eqb (length recipient_enc_key_bytes) 32) then
    Err (InvalidKeyLength 32 (length recipient_enc_key_bytes))
  else
  encrypted_payload <- encrypt_for_recipient ephemeral_secret nonce_bytes payload
                         recipient_enc_key_bytes ;;
  let header := {| h_id := envelope_id;
                   h_from_public_key := public_key_hex sender;
                   h_to_public_keys := [recipient_public_key_hex];
                   h_payload_type := payload_type;
                   h_timestamp := now_ms;
                   h_encrypted_payload_hash := blake3_hex (payload_json encrypted_payload) |} in
  let header_bytes := canonicalize_for_signing (header_to_value header) in
  let sig := sign_bytes sender header_bytes in
  Ok {| id := envelope_id;
        from_public_key := public_key_hex sender;
        from_handle := None;
        to_public_keys := [recipient_public_key_hex];
        payload_type := payload_type;
        timestamp := now_ms;
        thread_id := None;
        reply_to_id := None;
        encrypted_payload := Object encrypted_payload;
        env_ephemeral_public_key := None;
        env_nonce := None;
        signature := Hex.encode sig |}.

(** [impl Display for hex::FromHexError] *)
Definition hex_error_to_string (e : Hex.FromHexError) : rstring :=
  match e with
  | Hex.InvalidHexCharacter c index =>
    lit "Invalid character '" ++ [c] ++ lit "' at position "
        ++ number_to_string (Z.of_nat index)
  | Hex.OddLength => lit "Odd number of digits"
  | Hex.InvalidStringLength => lit "Invalid string length"
  end.

(** [.map_err(|e| CryptoError::DecryptionFailed(e.to_string()))] *)
Definition hex_failure (e : Hex.FromHexError) : CryptoError :=
  DecryptionFailed (hex_error_to_string e).

(** [open_envelope] *)
Definition open_envelope (recipient : GnsIdentity) (envelope : GnsEnvelope)
  : result OpenedEnvelope CryptoError :=
  let header := {| h_id := id envelope;
                   h_from_public_key := from_public_key envelope;
                   h_to_public_keys := to_public_keys envelope;
                   h_payload_type := payload_type envelope;
                   h_timestamp := timestamp envelope;
                   h_encrypted_payload_hash :=
                     blake3_hex (wrapper_json (encrypted_payload envelope)) |} in
  let header_bytes := canonicalize_for_signing (header_to_value header) in
  signature_valid <- verify_signature_hex (from_public_key envelope) header_bytes
                       (signature envelope) ;;
  encrypted_payload <-
    match encrypted_payload envelope with
    | Object obj => Ok obj
    | String ciphertext_hex =>
      match env_ephemeral_public_key envelope with
      | None => Err (DecryptionFailed
                       (lit "Missing ephemeral_public_key for string payload"))
      | Some ephemeral_key_hex =>
        match env_nonce envelope with
        | None => Err (DecryptionFailed (lit "Missing nonce for string payload"))
        | Some nonce_hex =>
          ct <- map_err hex_failure (Hex.decode ciphertext_hex) ;;
          ek <- map_err hex_failure (Hex.decode ephemeral_key_hex) ;;
          nc <- map_err hex_failure (Hex.decode nonce_hex) ;;
          Ok {| ephemeral_public_key := ek; nonce := nc; ciphertext := ct |}
        end
      end
    end ;;
  payload <- decrypt_from_sender (x25519_secret recipient) encrypted_payload ;;
  Ok {| o_from_public_key := from_public_key envelope;
        o_from_handle := from_handle envelope;
        o_payload_type := payload_type envelope;
        o_payload := payload;
        o_signature_valid := signature_valid;
        o_envelope_id := id envelope;
        o_timestamp := timestamp envelope;
        o_thread_id := thread_id envelope;
        o_reply_to_id := reply_to_id envelope |}.

(** [GnsEnvelope::is_for]: [k.eq_ignore_ascii_case(public_key_hex)], which
    compares the UTF-8 bytes after [u8::to_ascii_lowercase]. *)
Definition ascii_lower_byte (b : u8) : u8 :=
  if (65 <=? b) && (b <=? 90) then b + 32 else b.

Definition eq_ignore_ascii_case (a b : rstring) : bool :=
  let x := Utf8.encode a in
  let y := Utf8.encode b in
  Nat.eqb (length x) (length y) &&
  forallb (fun p => Z.eqb (ascii_lower_byte (fst p)) (ascii_lower_byte (snd p)))
          (combine x y).

Definition is_for (envelope : GnsEnvelope) (public_key_hex : rstring) : bool :=
  existsb (fun k => eq_ignore_ascii_case k public_key_hex) (to_public_keys envelope).

End Envelope.
End Envelope.

(* ------------------------------------------------------------------ *)
(** ** [breadcrumb.rs] *)

Module Breadcrumbs.
Import Signing.
Section Breadcrumbs.
Context {P : Primitives}.

Record Breadcrumb : Type := mkBreadcrumb {
  h3_index : rstring;
  timestamp : Z;
  public_key : rstring;
  signature : rstring;
  resolution : Z
}.

(** [format!("gns-breadcrumb-v1:{}:{}:{}", h3_index, timestamp, public_key)] *)
Definition signing_data (b : Breadcrumb) : rstring :=
  lit "gns-breadcrumb-v1:" ++ h3_index b ++ lit ":" ++ number_to_string (timestamp b)
      ++ lit ":" ++ public_key b.

(** [verify_breadcrumb] *)
Definition verify_breadcrumb (breadcrumb : Breadcrumb) : result bool CryptoError :=
  verify_signature_hex (public_key breadcrumb) (Utf8.encode (signing_data breadcrumb))
                       (signature breadcrumb).

Record Trajectory : Type := mkTrajectory {
  t_public_key : rstring;
  breadcrumbs : list Breadcrumb
}.

(** [Trajectory::new] *)
Definition new (pk : rstring) : Trajectory :=
  {| t_public_key := pk; breadcrumbs := [] |}.

(** [sort_by_key(|b| b.timestamp)]: a stable sort; the result of a stable
    sort is unique, so insertion sort gives the same list as the
    standard library's merge sort. *)
Fixpoint insert_by_ts (b : Breadcrumb) (l : list Breadcrumb) : list Breadcrumb :=
  match l with
  | [] => [b]
  | c :: r => if timestamp b <? timestamp c then b :: c :: r else c :: insert_by_ts b r
  end.

Definition sort_by_timestamp (l : list Breadcrumb) : list Breadcrumb :=
  fold_left (fun acc b => insert_by_ts b acc) l [].

(** [Trajectory::add] *)
Definition add (t : Trajectory) (breadcrumb : Breadcrumb)
  : result Trajectory CryptoError :=
  if negb (rstring_eqb (public_key breadcrumb) (t_public_key t)) then
    Err (InvalidEnvelope (lit "Breadcrumb public key doesn't match trajectory"))
  else
    ok <- verify_breadcrumb breadcrumb ;;
    if negb ok then Err SignatureVerificationFailed
    else Ok {| t_public_key := t_public_key t;
               breadcrumbs := sort_by_timestamp (breadcrumbs t ++ [breadcrumb]) |}.

(** A sequence of [add] calls, stopping at the first error. *)
Fixpoint add_all (t : Trajectory) (l : list Breadcrumb) : result Trajectory CryptoError :=
  match l with
  | [] => Ok t
  | b :: r => t' <- add t b ;; add_all t' r
  end.

(** [Trajectory::unique_locations]: size of the [HashSet] of cell ids. *)
Definition unique_locations (t : Trajectory) : nat :=
  length (nodup (list_eq_dec Z.eq_dec) (map h3_index (breadcrumbs t))).

(** [i64] subtraction; release builds wrap around on overflow. *)
Definition wrap_i64 (z : Z) : Z := (z + 2 ^ 63) mod 2 ^ 64 - 2 ^ 63.

(** [Trajectory::time_span_seconds] *)
Definition time_span_seconds (t : Trajectory) : option Z :=
  let bs := breadcrumbs t in
  if Nat.ltb (length bs) 2 then None
  else
    match bs with
    | [] => None
    | first :: _ => Some (wrap_i64 (timestamp (last bs first) - timestamp first))
    end.

(** [Trajectory::meets_claim_requirements] *)
Definition meets_claim_requirements (t : Trajectory) : bool :=
  if Nat.ltb (length (breadcrumbs t)) 100 then false
  else if Nat.ltb (unique_locations t) 10 then false
  else match time_span_seconds t with
       | Some span => span >=? 7 * 24 * 60 * 60
       | None => false
       end.

End Breadcrumbs.
End Breadcrumbs.

(* ------------------------------------------------------------------ *)
(** ** [src-tauri/src/storage/mod.rs]: threads and messages *)

Module Storage.
Import Signing.
Section Storage.

(** [serde_json::from_slice] on the payload bytes and
    [String::from_utf8_lossy]; their results only feed the stored JSON. *)
Variable from_slice : bytes -> option Value.
Variable from_utf8_lossy : bytes -> rstring.

Record ThreadRow : Type := mkThread {
  tr_id : rstring;
  participant_public_key : rstring;
  participant_handle : option rstring;
  last_message_at : Z;
  unread_count : Z;
  is_pinned : bool;
  is_muted : bool;
  is_archived : bool;
  subject : option rstring
}.

Record MessageRow : Type := mkMessage {
  m_id : rstring;
  m_thread_id : rstring;
  m_from_public_key : rstring;
  m_from_handle : option rstring;
  m_payload_type : rstring;
  m_payload_json : Value;
  m_timestamp : Z;
  m_is_outgoing : bool;
  m_status : rstring;
  m_signature_valid : bool;
  m_reply_to_id : option rstring
}.

(** The [threads] and [messages] tables.  SQLite failures are not
    modelled; [None] below stands for a Rust panic. *)
Record Database : Type := mkDb {
  threads : list ThreadRow;
  messages : list MessageRow
}.

(** SQL [COALESCE(a, b)] *)
Definition coalesce {A} (a b : option A) : option A :=
  match a with Some x => Some x | None => b end.

Definition find_thread (db : Database) (id : rstring) : option ThreadRow :=
  find (fun r => rstring_eqb (tr_id r) id) (threads db).

Definition map_thread (db : Database) (id : rstring) (f : ThreadRow -> ThreadRow)
  : Database :=
  {| threads := map (fun r => if rstring_eqb (tr_id r) id then f r else r) (threads db);
     messages := messages db |}.

(** [get_or_create_thread]: [INSERT .. ON CONFLICT(id) DO UPDATE SET
    participant_handle = COALESCE(excluded.participant_handle, threads.participant_handle),
    subject = COALESCE(threads.subject, excluded.subject)]; [now_ms] is
    [chrono::Utc::now().timestamp_millis()]. *)
Definition get_or_create_thread (now_ms : Z) (db : Database) (thread_id : rstring)
    (participant_pk : rstring) (handle subj : option rstring) : Database :=
  match find_thread db thread_id with
  | None =>
    {| threads := threads db ++
         [{| tr_id := thread_id; participant_public_key := participant_pk;
             participant_handle := handle; last_message_at := now_ms;
             unread_count := 0; is_pinned := false; is_muted := false;
             is_archived := false; subject := subj |}];
       messages := messages db |}
  | Some _ =>
    map_thread db thread_id (fun r =>
      {| tr_id := tr_id r; participant_public_key := participant_public_key r;
         participant_handle := coalesce handle (participant_handle r);
         last_message_at := last_message_at r; unread_count := unread_count r;
         is_pinned := is_pinned r; is_muted := is_muted r;
         is_archived := is_archived r; subject := coalesce (subject r) subj |})
  end.

(** [update_thread_for_message] *)
Definition update_thread_for_message (db : Database) (thread_id : rstring) (ts : Z)
    (is_incoming : bool) : Database :=
  map_thread db thread_id (fun r =>
    {| tr_id := tr_id r; participant_public_key := participant_public_key r;
       participant_handle := participant_handle r; last_message_at := ts;
       unread_count := if is_incoming then unread_count r + 1 else unread_count r;
       is_pinned := is_pinned r; is_muted := is_muted r;
       is_archived := is_archived r; subject := subject r |}).

(** [INSERT OR REPLACE INTO messages] *)
Definition insert_or_replace_message (db : Database) (m : MessageRow) : Database :=
  {| threads := threads db;
     messages := filter (fun r => negb (rstring_eqb (m_id r) (m_id m))) (messages db)
                 ++ [m] |}.

(** [payload.get("subject").and_then(|s| s.as_str())] *)
Definition json_get_str (v : Value) (key : rstring) : option rstring :=
  match v with
  | VObject m =>
    match find (fun kv => rstring_eqb (fst kv) key) m with
    | Some (_, VString s) => Some s
    | _ => None
    end
  | _ => None
  end.

(** [save_received_message] *)
Definition save_received_message (now_ms : Z) (db : Database) (message_id thread_id
    from_public_key : rstring) (from_handle : option rstring) (payload_type : rstring)
    (payload : Value) (ts : Z) (signature_valid : bool) (reply_to_id : option rstring)
  : Database :=
  let subj := json_get_str payload (lit "subject") in
  let db := get_or_create_thread now_ms db thread_id from_public_key from_handle subj in
  let db := insert_or_replace_message db
    {| m_id := message_id; m_thread_id := thread_id; m_from_public_key := from_public_key;
       m_from_handle := from_handle; m_payload_type := payload_type;
       m_payload_json := payload; m_timestamp := ts; m_is_outgoing := false;
       m_status := lit "received"; m_signature_valid := signature_valid;
       m_reply_to_id := reply_to_id |} in
  update_thread_for_message db thread_id ts true.

(** [&s[..n]] on a [&str]: [None] (a panic) when [n] is past the end or
    not on a char boundary. *)
Fixpoint str_prefix_bytes (n : Z) (s : rstring) : option rstring :=
  if n =? 0 then Some []
  else match s with
       | [] => None
       | c :: r =>
         let w := Z.of_nat (length (Utf8.encode_char c)) in
         if w <=? n then option_map (cons c) (str_prefix_bytes (n - w) r) else None
       end.

(** [let mut keys = vec![a, b]; keys.sort();] *)
Definition sort2 (a b : rstring) : list rstring :=
  match str_cmp b a with Lt => [b; a] | _ => [a; b] end.

(** [format!("direct_{}", &keys.join("_")[..32])] *)
Definition direct_thread_id (my_pk other_pk : rstring) : option rstring :=
  option_map (fun p => lit "direct_" ++ p)
             (str_prefix_bytes 32 (join (lit "_") (sort2 my_pk other_pk))).

(** [serde_json::from_slice(payload).unwrap_or_else(|_| json!({"text": ..}))] *)
Definition sent_payload_json (payload : bytes) : Value :=
  match from_slice payload with
  | Some v => v
  | None => VObject [(lit "text", VString (from_utf8_lossy payload))]
  end.

(** [envelope.thread_id.clone().unwrap_or_else(|| ..)]; indexing
    [to_public_keys[0]] of an empty list panics ([None]). *)
Definition sent_thread_id (envelope : Envelope.GnsEnvelope) : option rstring :=
  match Envelope.thread_id envelope with
  | Some t => Some t
  | None =>
    match Envelope.to_public_keys envelope with
    | other_pk :: _ => direct_thread_id (Envelope.from_public_key envelope) other_pk
    | [] => None
    end
  end.

(** [save_sent_message] *)
Definition save_sent_message (now_ms : Z) (db : Database) (envelope : Envelope.GnsEnvelope)
    (payload : bytes) (recipient_handle : option rstring) (reply_to_id : option rstring)
  : option Database :=
  let payload_json := sent_payload_json payload in
  thread_id <- sent_thread_id envelope ;o;
  let subj := json_get_str payload_json (lit "subject") in
  recipient_pk <- hd_error (Envelope.to_public_keys envelope) ;o;
  let db := get_or_create_thread now_ms db thread_id recipient_pk recipient_handle subj in
  let db := insert_or_replace_message db
    {| m_id := Envelope.id envelope; m_thread_id := thread_id;
       m_from_public_key := Envelope.from_public_key envelope;
       m_from_handle := Envelope.from_handle envelope;
       m_payload_type := Envelope.payload_type envelope;
       m_payload_json := payload_json; m_timestamp := Envelope.timestamp envelope;
       m_is_outgoing := true; m_status := lit "sent"; m_signature_valid := true;
       m_reply_to_id := reply_to_id |} in
  Some (update_thread_for_message db thread_id (Envelope.timestamp envelope) false).

End Storage.
End Storage.

(* ------------------------------------------------------------------ *)
(** ** [src-tauri/src/message_handler.rs]: subject normalization *)

Module MessageHandler.

(** The Unicode data the standard library's [str] methods consult:
    [char::is_whitespace] (White_Space), [char::to_lowercase] (one to three
    chars), and the Final_Sigma test of [str::to_lowercase] for a capital
    sigma, given the text before it (nearest char first) and after it. *)
Record UnicodeTables : Type := mkTables {
  is_whitespace : rchar -> bool;
  char_to_lowercase : rchar -> rstring;
  sigma_is_final : rstring -> rstring -> bool
}.

Definition capital_sigma : rchar := 931.
Definition small_sigma : rchar := 963.
Definition final_sigma : rchar := 962.

Section Normalize.
Variable T : UnicodeTables.

(** [str::to_lowercase] *)
Fixpoint to_lowercase_from (before : rstring) (s : rstring) : rstring :=
  match s with
  | [] => []
  | c :: r =>
    (if c =? capital_sigma then
       [if sigma_is_final T before r then final_sigma else small_sigma]
     else char_to_lowercase T c) ++ to_lowercase_from (c :: before) r
  end.

Definition to_lowercase (s : rstring) : rstring := to_lowercase_from [] s.

(** [str::trim_start], [str::trim_end], [str::trim] *)
Fixpoint trim_start (s : rstring) : rstring :=
  match s with
  | c :: r => if is_whitespace T c then trim_start r else s
  | [] => []
  end.

Definition trim_end (s : rstring) : rstring := rev (trim_start (rev s)).

Definition trim (s : rstring) : rstring := trim_end (trim_start s).

(** [str::starts_with] *)
Fixpoint starts_with (s prefix : rstring) : bool :=
  match prefix, s with
  | [], _ => true
  | p :: pr, c :: r => (p =? c) && starts_with r pr
  | _ :: _, [] => false
  end.

(** [str::len]: length in UTF-8 bytes. *)
Definition str_len (s : rstring) : nat := length (Utf8.encode s).

(** One pass of the loop body. *)
Definition strip_prefix_once (s : rstring) : rstring :=
  if starts_with s (lit "re:") then trim_start (skipn 3 s)
  else if starts_with s (lit "fwd:") then trim_start (skipn 4 s)
  else if starts_with s (lit "fw:") then trim_start (skipn 3 s)
  else s.

(** The [loop]: run the body, [break] when the length did not change.
    [fuel] bounds the number of passes; every pass that does not break
    removes at least one char, so [S (length s)] passes always reach the
    [break] (lemma [strip_loop_enough_fuel] below). *)
Fixpoint strip_loop (fuel : nat) (s : rstring) : rstring :=
  match fuel with
  | O => s
  | S fuel =>
    let original_len := str_len s in
    let s' := strip_prefix_once s in
    if Nat.eqb (str_len s') original_len then s' else strip_loop fuel s'
  end.

(** [normalize_subject] *)
Definition normalize_subject (subject : rstring) : rstring :=
  let s := to_lowercase (trim subject) in
  strip_loop (S (length s)) s.

End Normalize.

(** The ASCII part of the tables, as the standard library has it:
    [' '] and ['\t'..'\r'] are whitespace, ['A'..'Z'] lowercase to
    ['a'..'z'], every other ASCII char to itself. *)
Definition ascii_is_whitespace (c : rchar) : bool :=
  (c =? 32) || ((9 <=? c) && (c <=? 13)).

Definition ascii_lower (c : rchar) : rchar :=
  if (65 <=? c) && (c <=? 90) then c + 32 else c.

Definition agrees_on_ascii (T : UnicodeTables) : Prop :=
  forall c, 0 <= c < 128 ->
    is_whitespace T c = ascii_is_whitespace c /\ char_to_lowercase T c = [ascii_lower c].

(** Properties of the Unicode data that the proofs rely on: lowercasing a
    char (other than the capital sigma, handled apart) yields chars that
    are their own lowercase and no capital sigma; lowercasing a
    non-whitespace char yields a non-empty string of non-whitespace chars;
    the two small sigmas are lowercase and not whitespace. *)
Record wf_tables (T : UnicodeTables) : Prop := {
  lower_fixed : forall c d, c <> capital_sigma -> In d (char_to_lowercase T c) ->
    char_to_lowercase T d = [d] /\ d <> capital_sigma;
  lower_nonspace : forall c, is_whitespace T c = false ->
    char_to_lowercase T c <> [] /\
    forall d, In d (char_to_lowercase T c) -> is_whitespace T d = false;
  sigma_small_fixed : char_to_lowercase T small_sigma = [small_sigma];
  sigma_final_fixed : char_to_lowercase T final_sigma = [final_sigma];
  sigma_small_nonspace : is_whitespace T small_sigma = false;
  sigma_final_nonspace : is_whitespace T final_sigma = false;
  sigma_capital_nonspace : is_whitespace T capital_sigma = false
}.

End MessageHandler.

(* ------------------------------------------------------------------ *)
(** ** Integer parsing of the standard library *)

Module RustNum.

(** [char::to_digit(radix)] for a char [c] (radix at most 36):
    [wrapping_sub] and [saturating_add] on [u32] written out. *)
Definition to_digit (radix : Z) (c : Z) : option Z :=
  let digit := (c - 48) mod 2 ^ 32 in
  let digit :=
    if (10 <? radix) && negb (digit <? 10)
    then Z.min (((Z.lor c 32) - 97) mod 2 ^ 32 + 10) (2 ^ 32 - 1)
    else digit in
  if digit <? radix then Some digit else None.

(** The digit loop of [from_str_radix]: [checked_mul] then [checked_add]
    ([checked_sub] for a negative number); every error kind is [None]. *)
Fixpoint from_digits (radix : Z) (is_positive : bool) (min max acc : Z) (digits : bytes)
  : option Z :=
  match digits with
  | [] => Some acc
  | c :: r =>
    match to_digit radix c with
    | None => None
    | Some x =>
      let acc' := if is_positive then acc * radix + x else acc * radix - x in
      if (min <=? acc') && (acc' <=? max)
      then from_digits radix is_positive min max acc' r
      else None
    end
  end.

(** [<int>::from_str_radix(src, radix)] for an integer type with range
    [[min, max]]; a leading [-] is a sign only for a signed type. *)
Definition from_str_radix (is_signed_ty : bool) (min max radix : Z) (src : rstring)
  : option Z :=
  match Utf8.encode src with
  | [] => None
  | [c] =>
    if (c =? 43) || (c =? 45) then None else from_digits radix true min max 0 [c]
  | c :: rest =>
    if c =? 43 then from_digits radix true min max 0 rest
    else if (c =? 45) && is_signed_ty then from_digits radix false min max 0 rest
    else from_digits radix true min max 0 (c :: rest)
  end.

(** [u64::from_str_radix(s, 16)] *)
Definition u64_from_str_radix16 (s : rstring) : option Z :=
  from_str_radix false 0 (2 ^ 64 - 1) 16 s.

(** [s.parse::<i64>()] *)
Definition parse_i64 (s : rstring) : option Z :=
  from_str_radix true (- 2 ^ 63) (2 ^ 63 - 1) 10 s.

End RustNum.

(* ------------------------------------------------------------------ *)
(** ** More of [identity.rs] *)

Module IdentityOps.
Import Encryption Identity.
Section IdentityOps.
Context {P : Primitives}.

(** [GnsIdentity::generate]: [seed] is the secret key
    [SigningKey::generate(&mut OsRng)] draws. *)
Definition generate (seed : bytes) : GnsIdentity := from_signing_key seed.

(** [GnsIdentity::private_key_hex] *)
Definition private_key_hex (self : GnsIdentity) : rstring := Hex.encode (signing_key self).

(** [GnsIdentity::encrypt_for] (it does not use [self]) *)
Definition encrypt_for (self : GnsIdentity) (ephemeral_secret nonce_bytes : bytes)
    (plaintext recipient_x25519_public : bytes) : result EncryptedPayload CryptoError :=
  encrypt_for_recipient ephemeral_secret nonce_bytes plaintext recipient_x25519_public.

(** [GnsIdentity::decrypt] *)
Definition decrypt (self : GnsIdentity) (encrypted : EncryptedPayload)
  : result bytes CryptoError :=
  decrypt_from_sender (x25519_secret self) encrypted.

(** [verify_with_public_key]; [VerifyingKey::from_bytes(..)?] fails as in
    [signing::verify_signature]. *)
Definition verify_with_public_key (public_key_hex : rstring) (message signature_bytes : bytes)
  : result bool CryptoError :=
  public_key_bytes <- hex_decode public_key_hex ;;
  if negb (Nat.eqb (length public_key_bytes) 32) then
    Err (InvalidKeyLength 32 (length public_key_bytes))
  else if negb (ed25519_point_ok public_key_bytes) then Err SignatureVerificationFailed
  else if negb (Nat.eqb (length signature_bytes) 64) then
    Err (InvalidKeyLength 64 (length signature_bytes))
  else Ok (ed25519_verify public_key_bytes message signature_bytes).

End IdentityOps.
End IdentityOps.

(* ------------------------------------------------------------------ *)
(** ** More of [envelope.rs] *)

Module EnvelopeOps.
Import Encryption Signing Identity Envelope.
Section EnvelopeOps.
Context {P : Primitives}.

(** [create_envelope_with_metadata]: [create_envelope], the three hint
    fields assigned, the header rebuilt and signed again. *)
Definition create_envelope_with_metadata (envelope_id : rstring) (now_ms : Z)
    (ephemeral_secret nonce_bytes : bytes) (sender : GnsIdentity)
    (sender_handle : option rstring)
    (recipient_public_key_hex recipient_encryption_key_hex payload_type : rstring)
    (payload : bytes) (thread_id reply_to_id : option rstring)
  : result GnsEnvelope CryptoError :=
  envelope <- create_envelope envelope_id now_ms ephemeral_secret nonce_bytes sender
                recipient_public_key_hex recipient_encryption_key_hex payload_type payload ;;
  let envelope :=
    {| id := Envelope.id envelope;
       from_public_key := Envelope.from_public_key envelope;
       from_handle := sender_handle;
       to_public_keys := Envelope.to_public_keys envelope;
       Envelope.payload_type := Envelope.payload_type envelope;
       timestamp := Envelope.timestamp envelope;
       Envelope.thread_id := thread_id;
       Envelope.reply_to_id := reply_to_id;
       encrypted_payload := Envelope.encrypted_payload envelope;
       env_ephemeral_public_key := Envelope.env_ephemeral_public_key envelope;
       env_nonce := Envelope.env_nonce envelope;
       signature := Envelope.signature envelope |} in
  let header :=
    {| h_id := Envelope.id envelope;
       h_from_public_key := Envelope.from_public_key envelope;
       h_to_public_keys := Envelope.to_public_keys envelope;
       h_payload_type := Envelope.payload_type envelope;
       h_timestamp := Envelope.timestamp envelope;
       h_encrypted_payload_hash :=
         blake3_hex (wrapper_json (Envelope.encrypted_payload envelope)) |} in
  let header_bytes := canonicalize_for_signing (header_to_value header) in
  let signature := sign_bytes sender header_bytes in
  Ok {| id := Envelope.id envelope;
        from_public_key := Envelope.from_public_key envelope;
        from_handle := Envelope.from_handle envelope;
        to_public_keys := Envelope.to_public_keys envelope;
        Envelope.payload_type := Envelope.payload_type envelope;
        timestamp := Envelope.timestamp envelope;
        Envelope.thread_id := Envelope.thread_id envelope;
        Envelope.reply_to_id := Envelope.reply_to_id envelope;
        encrypted_payload := Envelope.encrypted_payload envelope;
        env_ephemeral_public_key := Envelope.env_ephemeral_public_key envelope;
        env_nonce := Envelope.env_nonce envelope;
        Envelope.signature := Hex.encode signature |}.

End EnvelopeOps.
End EnvelopeOps.

(* ------------------------------------------------------------------ *)
(** ** More of [breadcrumb.rs] *)

Module BreadcrumbOps.
Import Signing Identity Breadcrumbs.
Section BreadcrumbOps.
Context {P : Primitives}.

(** [create_breadcrumb_from_h3]; [now_s] is [chrono::Utc::now().timestamp()]. *)
Definition create_breadcrumb_from_h3 (now_s : Z) (identity : GnsIdentity)
    (h3_index : rstring) (resolution : Z) : result Breadcrumb CryptoError :=
  let timestamp := now_s in
  let signing_data :=
    lit "gns-breadcrumb-v1:" ++ h3_index ++ lit ":" ++ number_to_string timestamp
      ++ lit ":" ++ public_key_hex identity in
  let signature := sign_bytes identity (Utf8.encode signing_data) in
  Ok {| h3_index := h3_index;
        Breadcrumbs.timestamp := timestamp;
        public_key := public_key_hex identity;
        Breadcrumbs.signature := Hex.encode signature;
        resolution := resolution |}.

Definition invalid_h3_index : CryptoError := InvalidEnvelope (lit "Invalid H3 index").

(** [h3_grid_distance] *)
Definition h3_grid_distance (h3_a h3_b : rstring) : result Z CryptoError :=
  if rstring_eqb h3_a h3_b then Ok 0
  else
    a <- match RustNum.u64_from_str_radix16 h3_a with
         | Some v => Ok v | None => Err invalid_h3_index end ;;
    b <- match RustNum.u64_from_str_radix16 h3_b with
         | Some v => Ok v | None => Err invalid_h3_index end ;;
    let diff := if a >? b then a - b else b - a in
    Ok (diff mod 1000).

End BreadcrumbOps.
End BreadcrumbOps.

(* ------------------------------------------------------------------ *)
(** ** [gns-crypto-wasm/src/lib.rs] *)

Module Wasm.
Import Signing Identity IdentityOps.
Section Wasm.
Context {P : Primitives}.

(** [JsError::new(&format!("{prefix}{}", e))]: the prefix and the error
    whose [Display] text follows it. *)
Inductive JsError : Type :=
| js_error (prefix : rstring) (e : CryptoError).

Record IdentityKeys : Type := mkIdentityKeys {
  k_public_key : rstring;
  k_encryption_key : rstring;
  k_private_key : rstring
}.

Record IdentityInfo : Type := mkIdentityInfo {
  i_public_key : rstring;
  i_encryption_key : rstring
}.

(** [generate_identity]; [seed] is the key [GnsIdentity::generate] draws. *)
Definition generate_identity (seed : bytes) : IdentityKeys :=
  let identity := generate seed in
  {| k_public_key := public_key_hex identity;
     k_encryption_key := encryption_key_hex identity;
     k_private_key := private_key_hex identity |}.

(** [restore_identity] *)
Definition restore_identity (private_key_hex : rstring) : result IdentityInfo JsError :=
  identity <- map_err (js_error (lit "Invalid private key: ")) (from_hex private_key_hex) ;;
  Ok {| i_public_key := public_key_hex identity;
        i_encryption_key := encryption_key_hex identity |}.

(** [sign_message] *)
Definition sign_message (private_key_hex : rstring) (message : bytes)
  : result rstring JsError :=
  identity <- map_err (js_error (lit "Invalid private key: ")) (from_hex private_key_hex) ;;
  let signature := sign_bytes identity message in
  Ok (Hex.encode signature).

(** [verify_signature] *)
Definition verify_signature (public_key_hex : rstring) (message : bytes)
    (signature_hex : rstring) : result bool JsError :=
  result <- map_err (js_error (lit "Verification error: "))
              (verify_signature_hex public_key_hex message signature_hex) ;;
  Ok result.

End Wasm.
End Wasm.

(* ------------------------------------------------------------------ *)
(** ** More of [storage/mod.rs] *)

Module StorageOps.
Import Signing Storage.

(** [mark_thread_read] *)
Definition mark_thread_read (db : Database) (thread_id : rstring) : Database :=
  map_thread db thread_id (fun r =>
    {| tr_id := tr_id r; participant_public_key := participant_public_key r;
       participant_handle := participant_handle r; last_message_at := last_message_at r;
       unread_count := 0; is_pinned := is_pinned r; is_muted := is_muted r;
       is_archived := is_archived r; subject := subject r |}).

(** [delete_thread]: the thread's messages, then the thread row. *)
Definition delete_thread (db : Database) (thread_id : rstring) : Database :=
  let db := {| threads := threads db;
               messages := filter (fun m => negb (rstring_eqb (m_thread_id m) thread_id))
                             (messages db) |} in
  {| threads := filter (fun r => negb (rstring_eqb (tr_id r) thread_id)) (threads db);
     messages := messages db |}.

(** [delete_message] *)
Definition delete_message (db : Database) (message_id : rstring) : Database :=
  {| threads := threads db;
     messages := filter (fun m => negb (rstring_eqb (m_id m) message_id)) (messages db) |}.

(** [mark_message_read] *)
Definition mark_message_read (db : Database) (message_id : rstring) : Database :=
  {| threads := threads db;
     messages := map (fun m =>
       if rstring_eqb (m_id m) message_id then
         {| m_id := m_id m; m_thread_id := m_thread_id m;
            m_from_public_key := m_from_public_key m; m_from_handle := m_from_handle m;
            m_payload_type := m_payload_type m; m_payload_json := m_payload_json m;
            m_timestamp := m_timestamp m; m_is_outgoing := m_is_outgoing m;
            m_status := lit "read"; m_signature_valid := m_signature_valid m;
            m_reply_to_id := m_reply_to_id m |}
       else m) (messages db) |}.

(** [save_browser_sent_message]; [None] is the panic of [[..32]]. *)
Definition save_browser_sent_message (now_ms : Z) (db : Database)
    (message_id to_pk text : rstring) (timestamp : Z) (my_pk : rstring) : option Database :=
  thread_id <- direct_thread_id my_pk to_pk ;o;
  let db := get_or_create_thread now_ms db thread_id to_pk None None in
  let payload_json := VObject [(lit "text", VString text)] in
  let db := insert_or_replace_message db
    {| m_id := message_id; m_thread_id := thread_id; m_from_public_key := my_pk;
       m_from_handle := None; m_payload_type := lit "text"; m_payload_json := payload_json;
       m_timestamp := timestamp; m_is_outgoing := true; m_status := lit "sent";
       m_signature_valid := true; m_reply_to_id := None |} in
  Some (update_thread_for_message db thread_id timestamp false).

(** A row of the [breadcrumbs] table ([id] is never read back). *)
Record BreadcrumbRow : Type := mkBreadcrumbRow {
  b_h3_index : rstring;
  b_timestamp : Z;
  b_signature : rstring;
  b_prev_hash : option rstring
}.

(** The whole database: threads and messages, breadcrumbs, and the
    [sync_state] key/value table. *)
Record Store : Type := mkStore {
  st_db : Database;
  st_breadcrumbs : list BreadcrumbRow;
  st_sync_state : list (rstring * rstring)
}.


(** [count_breadcrumbs]: the row count of the table, read as [i64] and
    cast [as u32] *)
Definition count_breadcrumbs (st : Store) : Z :=
  Z.of_nat (length (st_breadcrumbs st)) mod 2 ^ 32.

(** [count_unique_locations]: [COUNT(DISTINCT h3_index)] *)
Definition count_unique_locations (st : Store) : Z :=
  Z.of_nat (length (nodup (list_eq_dec Z.eq_dec) (map b_h3_index (st_breadcrumbs st))))
  mod 2 ^ 32.

(** [get_first_breadcrumb_time] / [get_last_breadcrumb_time]: [MIN] and
    [MAX] are [NULL] on an empty table, and reading [NULL] as [i64] fails. *)
Definition get_first_breadcrumb_time (st : Store) : option Z :=
  match map b_timestamp (st_breadcrumbs st) with
  | [] => None
  | t :: r => Some (fold_left Z.min r t)
  end.

Definition get_last_breadcrumb_time (st : Store) : option Z :=
  match map b_timestamp (st_breadcrumbs st) with
  | [] => None
  | t :: r => Some (fold_left Z.max r t)
  end.

(** [SELECT value FROM sync_state WHERE key = ..] ([key] is the primary key) *)
Definition sync_get (st : Store) (key : rstring) : option rstring :=
  option_map snd (find (fun kv => rstring_eqb (fst kv) key) (st_sync_state st)).

(** [INSERT OR REPLACE INTO sync_state (key, value)] *)
Definition sync_put (st : Store) (key value : rstring) : Store :=
  {| st_db := st_db st; st_breadcrumbs := st_breadcrumbs st;
     st_sync_state := filter (fun kv => negb (rstring_eqb (fst kv) key)) (st_sync_state st)
                      ++ [(key, value)] |}.

(** [get_last_sync_time]: no row is [None]; a value that does not parse
    reads as [0]. *)
Definition get_last_sync_time (st : Store) : option Z :=
  option_map (fun s => match RustNum.parse_i64 s with Some v => v | None => 0 end)
             (sync_get st (lit "last_sync")).

(** [set_last_sync_time] *)
Definition set_last_sync_time (st : Store) (time : Z) : Store :=
  sync_put st (lit "last_sync") (number_to_string time).

(** [get_collection_enabled] *)
Definition get_collection_enabled (st : Store) : bool :=
  match sync_get st (lit "collection_enabled") with
  | Some s => rstring_eqb s (lit "true")
  | None => false
  end.

(** [set_collection_enabled] *)
Definition set_collection_enabled (st : Store) (enabled : bool) : Store :=
  sync_put st (lit "collection_enabled") (if enabled then lit "true" else lit "false").

(** [clear_all] *)
Definition clear_all (st : Store) : Store :=
  {| st_db := {| threads := []; messages := [] |}; st_breadcrumbs := [];
     st_sync_state := st_sync_state st |}.

End StorageOps.

(* ------------------------------------------------------------------ *)
(** ** [src-tauri/src/crypto/mod.rs]: the identity manager *)

Module Manager.
Import Identity IdentityOps.
Section Manager.
Context {P : Primitives}.

(** The two keychain entries of the service: [identity_private_key] and
    [cached_handle] ([None]: no entry).  Keychain failures are not
    modelled. *)
Record Keychain : Type := mkKeychain {
  kc_identity : option rstring;
  kc_handle : option rstring
}.

Record IdentityManager : Type := mkManager {
  identity : option GnsIdentity;
  cached_handle : option rstring
}.


(** [IdentityManager::new] *)
Definition new (kc : Keychain) : IdentityManager :=
  let identity :=
    match kc_identity kc with
    | Some private_key =>
      match from_hex private_key with Ok identity => Some identity | Err _ => None end
    | None => None
    end in
  {| identity := identity; cached_handle := kc_handle kc |}.

(** [get_identity] *)
Definition get_identity (m : IdentityManager) : option GnsIdentity := identity m.

(** [generate_new]; [seed] is the key [GnsIdentity::generate] draws. *)
Definition generate_new (seed : bytes) (m : IdentityManager) (kc : Keychain)
  : IdentityManager * Keychain :=
  let identity := generate seed in
  let private_key_hex := private_key_hex identity in
  let kc := {| kc_identity := Some private_key_hex; kc_handle := kc_handle kc |} in
  ({| identity := Some identity; cached_handle := None |}, kc).


(** [set_cached_handle] *)
Definition set_cached_handle (m : IdentityManager) (kc : Keychain) (handle : option rstring)
  : IdentityManager * Keychain :=
  ({| identity := identity m; cached_handle := handle |},
   {| kc_identity := kc_identity kc; kc_handle := handle |}).

End Manager.
End Manager.

(* ------------------------------------------------------------------ *)
(** ** [handle_envelope] ([message_handler.rs]) and the email command
    ([commands/messaging.rs]) *)

Module Handler.
Import Signing Identity Envelope Storage MessageHandler EnvelopeOps.
Section Handler.
Context {P : Primitives}.
Variable T : UnicodeTables.
(** [serde_json::from_slice] and [String::from_utf8_lossy] *)
Variable from_slice : bytes -> option Value.
Variable from_utf8_lossy : bytes -> rstring.
(** [hex::encode(Sha256::digest(data))] *)
Variable sha256_hex : bytes -> rstring.
(** Whether [tracing::info!] events are enabled: their arguments are
    only evaluated then. *)
Variable info_enabled : bool.

Definition is_email (payload_type : rstring) : bool :=
  rstring_eqb payload_type (lit "email") || rstring_eqb payload_type (lit "gns/email").

(** The thread id of [handle_envelope]; [uuid] is
    [Uuid::new_v4().to_string()], [None] the panic of [[..32]]. *)
Definition received_thread_id (uuid : rstring) (gns_identity : GnsIdentity)
    (opened : OpenedEnvelope) (payload : Value) : option rstring :=
  if is_email (o_payload_type opened) then
    let subject := match json_get_str payload (lit "subject") with
                   | Some s => s | None => [] end in
    let s := normalize_subject T subject in
    match s with
    | [] => Some (match o_thread_id opened with Some t => t | None => uuid end)
    | _ => Some (sha256_hex (Utf8.encode s))
    end
  else
    match o_thread_id opened with
    | Some tid => Some tid
    | None => direct_thread_id (public_key_hex gns_identity) (o_from_public_key opened)
    end.

(** [handle_envelope]: [identity] is [get_identity()]; the new database,
    or [None] for a panic.  The UI event is not modelled. *)
Definition handle_envelope (uuid : rstring) (now_ms : Z) (identity : option GnsIdentity)
    (db : Database) (envelope : GnsEnvelope) : option Database :=
  _ <- (if info_enabled then str_prefix_bytes 16 (from_public_key envelope) else Some []) ;o;
  match identity with
  | None => Some db
  | Some gns_identity =>
    match open_envelope gns_identity envelope with
    | Err _ => Some db
    | Ok opened =>
      (* the same expression as in [save_sent_message] *)
      let payload := sent_payload_json from_slice from_utf8_lossy (o_payload opened) in
      _ <- (if info_enabled then str_prefix_bytes 16 (o_from_public_key opened)
            else Some []) ;o;
      thread_id <- received_thread_id uuid gns_identity opened payload ;o;
      Some (save_received_message now_ms db (id envelope) thread_id (o_from_public_key opened)
              (o_from_handle opened) (o_payload_type opened) payload (o_timestamp opened)
              (o_signature_valid opened) None)
    end
  end.

(** [serde_json::to_vec] of a JSON value *)
Variable to_vec : Value -> bytes.

Record SendResult : Type := mkSendResult {
  message_id : rstring;
  sr_thread_id : option rstring
}.

Inductive CommandError : Type :=
| no_identity_configured
| create_failed (e : CryptoError).

(** The payload of [save_sent_email_message]: [json!] builds a map
    ordered by key. *)
Definition email_payload (recipient_email subject snippet body : rstring) : Value :=
  VObject [(lit "body", VString body); (lit "is_email", Bool true);
           (lit "snippet", VString snippet); (lit "subject", VString subject);
           (lit "to", Array [VString recipient_email])].

(** [save_sent_email_message]; [uuid] and [envelope_id] are the two
    [Uuid::new_v4()] strings, [now_ms], [ephemeral_secret] and
    [nonce_bytes] the clock and randomness of [create_envelope].  The sync
    event sent to the relay is not modelled; [None] is a panic. *)
Definition save_sent_email_message (uuid envelope_id : rstring) (now_ms : Z)
    (ephemeral_secret nonce_bytes : bytes) (identity : option GnsIdentity)
    (my_handle : option rstring) (db : Database)
    (recipient_email subject snippet body gateway_public_key : rstring)
    (thread_id message_id : option rstring)
  : option (result (Database * SendResult) CommandError) :=
  match identity with
  | None => Some (Err no_identity_configured)
  | Some identity =>
    let payload := email_payload recipient_email subject snippet body in
    let payload_bytes := to_vec payload in
    let final_thread_id :=
      match thread_id with
      | Some tid => tid
      | None =>
        let s := normalize_subject T subject in
        match s with
        | [] => uuid
        | _ => sha256_hex (Utf8.encode s)
        end
      end in
    match create_envelope_with_metadata envelope_id now_ms ephemeral_secret nonce_bytes
            identity my_handle gateway_public_key (repeat 48 64) (lit "email")
            payload_bytes (Some final_thread_id) None with
    | Err e => Some (Err (create_failed e))
    | Ok envelope =>
      db <- save_sent_message from_slice from_utf8_lossy now_ms db envelope payload_bytes
              (Some recipient_email) None ;o;
      Some (Ok (db, {| message_id := id envelope; sr_thread_id := Some final_thread_id |}))
    end
  end.

End Handler.
End Handler.

(* ------------------------------------------------------------------ *)
(** ** Notions the statements below are phrased in *)

(** Bit [i] of the 256-bit little-endian integer a 32-byte scalar
    denotes: bit [i mod 8] of byte [i / 8]. *)
Definition bit_le (x : bytes) (i : nat) : bool :=
  Z.testbit (nth (i / 8) x 0) (Z.of_nat (i mod 8)).

(** Breadcrumbs ordered by timestamp. *)
Definition ts_le (a b : Breadcrumbs.Breadcrumb) : Prop :=
  Breadcrumbs.timestamp a <= Breadcrumbs.timestamp b.

(** The trajectory invariant: sorted by timestamp, every signer the
    trajectory's key. *)
Definition traj_inv (t : Breadcrumbs.Trajectory) : Prop :=
  Sorted ts_le (Breadcrumbs.breadcrumbs t)
  /\ Forall (fun b => Breadcrumbs.public_key b = Breadcrumbs.t_public_key t)
            (Breadcrumbs.breadcrumbs t).

(** [Vec::remove(i)]: the list without its [i]-th element. *)
Definition remove_at {A} (i : nat) (l : list A) : list A := firstn i l ++ skipn (S i) l.

(** The trajectory with its [i]-th breadcrumb removed. *)
Definition remove_breadcrumb (i : nat) (t : Breadcrumbs.Trajectory) : Breadcrumbs.Trajectory :=
  Breadcrumbs.mkTrajectory (Breadcrumbs.t_public_key t) (remove_at i (Breadcrumbs.breadcrumbs t)).

(** Subjects: a char that lowercases to itself and is no capital sigma;
    no whitespace at either end. *)
Definition lower_ok (T : MessageHandler.UnicodeTables) (d : rchar) : Prop :=
  MessageHandler.char_to_lowercase T d = [d] /\ d <> MessageHandler.capital_sigma.

Definition no_lead_ws (T : MessageHandler.UnicodeTables) (s : rstring) : Prop :=
  match s with c :: _ => MessageHandler.is_whitespace T c = false | [] => True end.

Definition no_trail_ws (T : MessageHandler.UnicodeTables) (s : rstring) : Prop :=
  no_lead_ws T (rev s).

Definition subject_inv (T : MessageHandler.UnicodeTables) (s : rstring) : Prop :=
  Forall (lower_ok T) s /\ no_lead_ws T s /\ no_trail_ws T s.

(** What the statements about envelopes assume of the primitives: X25519
    agreement, AEAD decryption inverting encryption under the same key and
    nonce, Ed25519 signatures verifying under the signer's key, the sizes
    of keys and signatures, byte ranges, and BLAKE3 digests as strings. *)
Record crypto_ok (P : Primitives) : Prop := {
  co_x25519_comm : forall a b,
    x25519 a (x25519 b x25519_basepoint) = x25519 b (x25519 a x25519_basepoint);
  co_x25519_len : forall a u, length (x25519 a u) = 32%nat;
  co_x25519_bytes : forall a u, Forall is_byte (x25519 a u);
  co_aead : forall k n m, aead_open k n (aead_seal k n m) = Some m;
  co_public_len : forall sk, length (ed25519_public sk) = 32%nat;
  co_public_bytes : forall sk, Forall is_byte (ed25519_public sk);
  co_point_ok : forall sk, ed25519_point_ok (ed25519_public sk) = true;
  co_sign_len : forall sk m, length (ed25519_sign sk m) = 64%nat;
  co_sign_bytes : forall sk m, Forall is_byte (ed25519_sign sk m);
  co_verify : forall sk m, ed25519_verify (ed25519_public sk) m (ed25519_sign sk m) = true;
  co_blake3_hex : forall b, Forall valid_char (blake3_hex b)
}.

(** The header [open_envelope] rebuilds from an envelope, and the bytes
    whose signature it checks. *)
Definition envelope_header {P : Primitives} (e : Envelope.GnsEnvelope) : Envelope.EnvelopeHeader :=
  {| Envelope.h_id := Envelope.id e;
     Envelope.h_from_public_key := Envelope.from_public_key e;
     Envelope.h_to_public_keys := Envelope.to_public_keys e;
     Envelope.h_payload_type := Envelope.payload_type e;
     Envelope.h_timestamp := Envelope.timestamp e;
     Envelope.h_encrypted_payload_hash :=
       blake3_hex (Encryption.wrapper_json (Envelope.encrypted_payload e)) |}.

Definition signed_bytes {P : Primitives} (e : Envelope.GnsEnvelope) : bytes :=
  Signing.canonicalize_for_signing (Envelope.header_to_value (envelope_header e)).

(** Assignments to the public fields of an envelope. *)
Definition set_id (e : Envelope.GnsEnvelope) (v : rstring) : Envelope.GnsEnvelope :=
  let 'Envelope.mkEnvelope _ fpk fh tos pt ts tid rid ep eph nc sg := e in
  Envelope.mkEnvelope v fpk fh tos pt ts tid rid ep eph nc sg.

Definition set_timestamp (e : Envelope.GnsEnvelope) (v : Z) : Envelope.GnsEnvelope :=
  let 'Envelope.mkEnvelope i fpk fh tos pt _ tid rid ep eph nc sg := e in
  Envelope.mkEnvelope i fpk fh tos pt v tid rid ep eph nc sg.

Definition set_payload_type (e : Envelope.GnsEnvelope) (v : rstring) : Envelope.GnsEnvelope :=
  let 'Envelope.mkEnvelope i fpk fh tos _ ts tid rid ep eph nc sg := e in
  Envelope.mkEnvelope i fpk fh tos v ts tid rid ep eph nc sg.

Definition set_to_public_keys (e : Envelope.GnsEnvelope) (v : list rstring)
  : Envelope.GnsEnvelope :=
  let 'Envelope.mkEnvelope i fpk fh _ pt ts tid rid ep eph nc sg := e in
  Envelope.mkEnvelope i fpk fh v pt ts tid rid ep eph nc sg.

(** Assigning the display hints [from_handle], [thread_id], [reply_to_id]. *)
Definition set_hints (e : Envelope.GnsEnvelope) (fh tid rid : option rstring)
  : Envelope.GnsEnvelope :=
  let 'Envelope.mkEnvelope i fpk _ tos pt ts _ _ ep eph nc sg := e in
  Envelope.mkEnvelope i fpk fh tos pt ts tid rid ep eph nc sg.

(** Changing one signed header field to a different (valid) value. *)
Inductive header_mutation (e : Envelope.GnsEnvelope) : Envelope.GnsEnvelope -> Prop :=
| mut_id (v : rstring) :
    Forall valid_char v -> v <> Envelope.id e -> header_mutation e (set_id e v)
| mut_timestamp (v : Z) :
    v <> Envelope.timestamp e -> header_mutation e (set_timestamp e v)
| mut_payload_type (v : rstring) :
    Forall valid_char v -> v <> Envelope.payload_type e ->
    header_mutation e (set_payload_type e v)
| mut_to_public_keys (v : list rstring) :
    Forall (Forall valid_char) v -> v <> Envelope.to_public_keys e ->
    header_mutation e (set_to_public_keys e v).

(** ASCII text. *)
Definition ascii_str (s : rstring) : Prop := Forall (fun c => 0 <= c < 128) s.

(** A JSON string literal: the escaped text between double quotes. *)
Definition quoted (s : rstring) : rstring := [dq] ++ Signing.escape_json_string s ++ [dq].

(** Reading back one JSON string body, up to its closing quote. *)
Definition opt_cons (c : rchar) (o : option (rstring * rstring)) : option (rstring * rstring) :=
  match o with Some (s, r) => Some (c :: s, r) | None => None end.

Fixpoint unescape (l : rstring) : option (rstring * rstring) :=
  match l with
  | [] => None
  | c :: r =>
    if c =? 34 then Some ([], r)
    else if c =? 92 then
      match r with
      | [] => None
      | e :: r' =>
        if e =? 117 then
          match r' with
          | a :: b :: c' :: d :: r'' =>
            match Hex.val a, Hex.val b, Hex.val c', Hex.val d with
            | Some x1, Some x2, Some x3, Some x4 =>
              opt_cons (x1 * 4096 + x2 * 256 + x3 * 16 + x4) (unescape r'')
            | _, _, _, _ => None
            end
          | _ => None
          end
        else
          opt_cons (if e =? 110 then 10 else if e =? 114 then 13
                    else if e =? 116 then 9 else e) (unescape r')
      end
    else opt_cons c (unescape r)
  end.

(** The header fields are Rust strings: valid chars. *)
Definition header_valid (h : Envelope.EnvelopeHeader) : Prop :=
  Forall valid_char (Envelope.h_id h) /\ Forall valid_char (Envelope.h_from_public_key h)
  /\ Forall (Forall valid_char) (Envelope.h_to_public_keys h)
  /\ Forall valid_char (Envelope.h_payload_type h)
  /\ Forall valid_char (Envelope.h_encrypted_payload_hash h).

(* ------------------------------------------------------------------ *)
(** ** Concrete inputs used by the examples below *)

Module Examples.

(** An envelope addressed to one key written in uppercase hex. *)
Definition env_upper : Envelope.GnsEnvelope :=
  Envelope.mkEnvelope (lit "e1") (lit "aa") None [lit "00FF"] (lit "text") 0
    None None (Encryption.String []) None None [].

(** A database with thread ["t"] whose participant handle is ["alice"] and
    whose subject is unset. *)
Definition db_alice : Storage.Database :=
  Storage.mkDb
    [Storage.mkThread (lit "t") (lit "pk") (Some (lit "alice")) 0 0 false false false None]
    [].

(** Simple stand-ins for the primitives, for evaluating examples: the
    first 32 bytes of the secret as public key, the public key twice as
    signature, a constant Diffie-Hellman value, the [info] input as key,
    and an AEAD that prefixes the key to the plaintext. *)
Definition toy_public (sk : bytes) : bytes :=
  map (fun b => b mod 256) (firstn 32 (sk ++ repeat 0 32)).

Definition toy_seal (k : bytes) (n : bytes) (p : bytes) : bytes :=
  Z.of_nat (length k) :: k ++ p.

Definition toy_open (k : bytes) (n : bytes) (c : bytes) : option bytes :=
  if rstring_eqb (firstn (S (length k)) c) (Z.of_nat (length k) :: k)
  then Some (skipn (S (length k)) c) else None.

Definition toy_primitives : Primitives := {|
  sha512 := fun _ => repeat 7 64;
  ed25519_public := toy_public;
  ed25519_sign := fun sk _ => toy_public sk ++ toy_public sk;
  ed25519_point_ok := fun pk => Nat.eqb (length pk) 32;
  ed25519_verify := fun pk _ sig => rstring_eqb sig (pk ++ pk);
  x25519 := fun _ _ => repeat 9 32;
  x25519_basepoint := repeat 9 32;
  SymKey := bytes;
  hkdf_sha256_32 := fun ikm info => info;
  aead_seal := toy_seal;
  aead_open := toy_open;
  blake3_hex := fun _ => lit "00";
  serde_json_str := fun s => Utf8.encode s
|}.

(** Secret keys of two parties. *)
Definition sk_alice : bytes := repeat 1 32.
Definition sk_bob : bytes := repeat 2 32.

(** The header bytes Alice signs in [sent_envelope] below. *)
Definition signed_message : bytes :=
  Signing.canonicalize_for_signing
    (Envelope.header_to_value
       (Envelope.mkHeader (lit "m1") (Hex.encode (toy_public sk_alice))
          [Hex.encode (toy_public sk_bob)] (lit "text") 1000 (lit "00"))).

(** Stand-in signatures that depend on the message: the signer's public
    key followed by one of two tags, the first one reserved for
    [signed_message]. *)
Definition toy_tag (m : bytes) : bytes :=
  if rstring_eqb m signed_message then repeat 1 32 else repeat 2 32.

Definition toy_signing_primitives : Primitives := {|
  sha512 := fun _ => repeat 7 64;
  ed25519_public := toy_public;
  ed25519_sign := fun sk m => toy_public sk ++ toy_tag m;
  ed25519_point_ok := fun pk => Nat.eqb (length pk) 32;
  ed25519_verify := fun pk m sig => rstring_eqb sig (pk ++ toy_tag m);
  x25519 := fun _ _ => repeat 9 32;
  x25519_basepoint := repeat 9 32;
  SymKey := bytes;
  hkdf_sha256_32 := fun ikm info => info;
  aead_seal := toy_seal;
  aead_open := toy_open;
  blake3_hex := fun _ => lit "00";
  serde_json_str := fun s => Utf8.encode s
|}.

Definition alice := @Identity.from_signing_key toy_signing_primitives sk_alice.
Definition bob := @Identity.from_signing_key toy_signing_primitives sk_bob.

(** Alice's envelope to Bob, message ["hi"]. *)
Definition sent_envelope : Envelope.GnsEnvelope :=
  match @Envelope.create_envelope toy_signing_primitives (lit "m1") 1000
          (repeat 5 32) (repeat 6 12) alice (@Identity.public_key_hex toy_signing_primitives bob)
          (Identity.encryption_key_hex bob) (lit "text") (lit "hi") with
  | Ok e => e
  | Err _ => env_upper
  end.

(** A trajectory of 101 breadcrumbs over ten cells, not sorted by
    timestamp: the first and the last breadcrumb are at time 0, the 99 in
    between a week later. *)
Definition cell_breadcrumb (ts : Z) (n : nat) : Breadcrumbs.Breadcrumb :=
  Breadcrumbs.mkBreadcrumb [48 + Z.of_nat (n mod 10)] ts (lit "aa") [] 7.

Definition unsorted_trajectory : Breadcrumbs.Trajectory :=
  Breadcrumbs.mkTrajectory (lit "aa")
    ([cell_breadcrumb 0 0] ++ map (cell_breadcrumb 604800) (seq 1 99) ++ [cell_breadcrumb 0 0]).

(** The ASCII part of the Unicode tables, extended to all chars by
    leaving non-ASCII chars unchanged and never whitespace. *)
Definition ascii_tables : MessageHandler.UnicodeTables :=
  MessageHandler.mkTables MessageHandler.ascii_is_whitespace
    (fun c => [MessageHandler.ascii_lower c]) (fun _ _ => false).

End Examples.

(* ------------------------------------------------------------------ *)
(** ** The message store, the breadcrumb table, more examples *)

(** The thread a message id is stored under ([SELECT thread_id FROM messages
    WHERE id = ..]). *)
Definition message_thread (db : Storage.Database) (id : rstring) : option rstring :=
  option_map Storage.m_thread_id
    (find (fun m => rstring_eqb (Storage.m_id m) id) (Storage.messages db)).

(** The keys the schema declares, and the [REFERENCES threads(id)] of
    [messages.thread_id] (which SQLite does not enforce by default). *)
Definition db_wf (db : Storage.Database) : Prop :=
  NoDup (map Storage.tr_id (Storage.threads db))
  /\ NoDup (map Storage.m_id (Storage.messages db))
  /\ Forall (fun m => In (Storage.m_thread_id m) (map Storage.tr_id (Storage.threads db)))
            (Storage.messages db).


(** More instances for evaluating the statements below. *)
Module MoreExamples.

(** Like [Examples.toy_signing_primitives], with the first tag reserved
    for a message [m0] given as parameter. *)
Definition toy_tag_for (m0 m : bytes) : bytes :=
  if rstring_eqb m m0 then repeat 1 32 else repeat 2 32.

Definition toy_signing_for (m0 : bytes) : Primitives := {|
  sha512 := fun _ => repeat 7 64;
  ed25519_public := Examples.toy_public;
  ed25519_sign := fun sk m => Examples.toy_public sk ++ toy_tag_for m0 m;
  ed25519_point_ok := fun pk => Nat.eqb (length pk) 32;
  ed25519_verify := fun pk m sig => rstring_eqb sig (pk ++ toy_tag_for m0 m);
  x25519 := fun _ _ => repeat 9 32;
  x25519_basepoint := repeat 9 32;
  SymKey := bytes;
  hkdf_sha256_32 := fun ikm info => info;
  aead_seal := Examples.toy_seal;
  aead_open := Examples.toy_open;
  blake3_hex := fun _ => lit "00";
  serde_json_str := fun s => Utf8.encode s
|}.

(** A breadcrumb Alice signs at time [1000] in cell ["8a2a1072b59ffff"]. *)
Definition alice_breadcrumb_data : bytes :=
  Utf8.encode (lit "gns-breadcrumb-v1:8a2a1072b59ffff:1000:"
               ++ @Identity.public_key_hex Examples.toy_primitives
                    (@Identity.from_signing_key Examples.toy_primitives Examples.sk_alice)).

(** That breadcrumb, signed with [toy_signing_for alice_breadcrumb_data]. *)
Definition alice_breadcrumb : Breadcrumbs.Breadcrumb :=
  match @BreadcrumbOps.create_breadcrumb_from_h3 (toy_signing_for alice_breadcrumb_data) 1000
          (@Identity.from_signing_key (toy_signing_for alice_breadcrumb_data) Examples.sk_alice)
          (lit "8a2a1072b59ffff") 7 with
  | Ok b => b
  | Err _ => Examples.cell_breadcrumb 0 0
  end.

(** A reply from Bob to Alice with payload type ["email"]. *)
Definition email_reply : Envelope.GnsEnvelope :=
  match @EnvelopeOps.create_envelope_with_metadata Examples.toy_primitives (lit "r1") 5000
          (repeat 5 32) (repeat 6 12)
          (@Identity.from_signing_key Examples.toy_primitives Examples.sk_bob) None
          (@Identity.public_key_hex Examples.toy_primitives
             (@Identity.from_signing_key Examples.toy_primitives Examples.sk_alice))
          (Identity.encryption_key_hex
             (@Identity.from_signing_key Examples.toy_primitives Examples.sk_alice))
          (lit "email") (lit "reply") None None with
  | Ok e => e
  | Err _ => Examples.env_upper
  end.

(** That reply opened by Alice. *)
Definition email_reply_opened : Envelope.OpenedEnvelope :=
  match @Envelope.open_envelope Examples.toy_primitives
          (@Identity.from_signing_key Examples.toy_primitives Examples.sk_alice) email_reply with
  | Ok o => o
  | Err _ => Envelope.mkOpened [] None [] [] false [] 0 None None
  end.

(** A JSON parser stand-in that reads every payload as a reply subject. *)
Definition reply_slice (_ : bytes) : option Signing.Value :=
  Some (Signing.VObject [(lit "subject", Signing.VString (lit "Re: hello"))]).

(** Alice's email to a gateway with subject ["Hello"]: the saved database
    and the command's result. *)
Definition sent_email : Storage.Database * Handler.SendResult :=
  match @Handler.save_sent_email_message Examples.toy_primitives Examples.ascii_tables
          reply_slice (fun _ => []) (fun b => b) (fun _ => lit "{}") (lit "u1") (lit "m1") 4000
          (repeat 5 32) (repeat 6 12)
          (Some (@Identity.from_signing_key Examples.toy_primitives Examples.sk_alice)) None
          Examples.db_alice (lit "bob@example.com") (lit "Hello") (lit "hi") (lit "hi there")
          (lit "gw") None None with
  | Some (Ok out) => out
  | _ => (Examples.db_alice, Handler.mkSendResult [] None)
  end.

End MoreExamples.

(* ================================================================== *)
(** * Proofs *)

(* ------------------------------------------------------------------ *)
(** ** UTF-8 is a prefix code *)

Ltac zcase := Z.div_mod_to_equations; lia.

Lemma utf8_decode_encode_char (c : rchar) (r : bytes) :
  valid_char c -> Utf8.decode_char (Utf8.encode_char c ++ r) = Some (c, r).
Proof.
  intros [Hc _]. unfold Utf8.encode_char, Utf8.decode_char.
  destruct (Z.ltb_spec c 128).
  - cbn [app]. destruct (Z.ltb_spec c 128); [reflexivity | lia].
  - destruct (Z.ltb_spec c 2048).
    + cbn [app].
      destruct (Z.ltb_spec (192 + c / 64) 128); [exfalso; zcase |].
      destruct (Z.ltb_spec (192 + c / 64) 224); [| exfalso; zcase].
      do 2 f_equal. zcase.
    + destruct (Z.ltb_spec c 65536).
      * cbn [app].
        destruct (Z.ltb_spec (224 + c / 4096) 128); [exfalso; zcase |].
        destruct (Z.ltb_spec (224 + c / 4096) 224); [exfalso; zcase |].
        destruct (Z.ltb_spec (224 + c / 4096) 240); [| exfalso; zcase].
        do 2 f_equal. zcase.
      * cbn [app].
        destruct (Z.ltb_spec (240 + c / 262144) 128); [exfalso; zcase |].
        destruct (Z.ltb_spec (240 + c / 262144) 224); [exfalso; zcase |].
        destruct (Z.ltb_spec (240 + c / 262144) 240); [exfalso; zcase |].
        do 2 f_equal. zcase.
Qed.

Lemma utf8_encode_char_nonempty (c : rchar) : Utf8.encode_char c <> [].
Proof.
  unfold Utf8.encode_char.
  destruct (c <? 128), (c <? 2048), (c <? 65536); discriminate.
Qed.

Lemma utf8_encode_inj (a b : rstring) :
  Forall valid_char a -> Forall valid_char b -> Utf8.encode a = Utf8.encode b -> a = b.
Proof.
  revert b. induction a as [| c a IH]; intros b Ha Hb E.
  - destruct b as [| d b]; [reflexivity |].
    exfalso. simpl in E. unfold Utf8.encode in E.
    pose proof (utf8_encode_char_nonempty d).
    destruct (Utf8.encode_char d); [contradiction | discriminate].
  - inversion Ha; subst.
    destruct b as [| d b].
    + exfalso. simpl in E.
      pose proof (utf8_encode_char_nonempty c).
      destruct (Utf8.encode_char c); [contradiction | discriminate].
    + inversion Hb; subst. simpl in E.
      pose proof (utf8_decode_encode_char c (Utf8.encode a) H1) as D1.
      pose proof (utf8_decode_encode_char d (Utf8.encode b) H3) as D2.
      unfold Utf8.encode in E, D1, D2. rewrite E in D1. rewrite D1 in D2.
      injection D2 as -> E'. f_equal. apply IH; auto.
Qed.

Lemma utf8_encode_app (a b : rstring) :
  Utf8.encode (a ++ b) = Utf8.encode a ++ Utf8.encode b.
Proof. unfold Utf8.encode. apply flat_map_app. Qed.

Lemma utf8_encode_ascii (s : rstring) :
  Forall (fun c => 0 <= c < 128) s -> Utf8.encode s = s.
Proof.
  induction 1 as [| c s Hc _ IH]; [reflexivity |].
  simpl. unfold Utf8.encode_char. destruct (Z.ltb_spec c 128); [| lia].
  simpl. f_equal. exact IH.
Qed.

Lemma utf8_encode_char_high (c : rchar) :
  128 <= c < 1114112 -> Forall (fun b => 128 <= b) (Utf8.encode_char c).
Proof.
  intros Hc. unfold Utf8.encode_char.
  destruct (Z.ltb_spec c 128); [lia |].
  destruct (Z.ltb_spec c 2048); [repeat constructor; zcase |].
  destruct (Z.ltb_spec c 65536); repeat constructor; zcase.
Qed.

(* ------------------------------------------------------------------ *)
(** ** ASCII case folding on UTF-8 bytes *)

Lemma forallb_combine_map (f : Z -> Z) (x y : list Z) :
  length x = length y ->
  (forallb (fun p => Z.eqb (f (fst p)) (f (snd p))) (combine x y) = true
   <-> map f x = map f y).
Proof.
  revert y. induction x as [| a x IH]; intros [| b y] L; simpl in *;
    try discriminate; [tauto |].
  injection L as L. rewrite andb_true_iff, Z.eqb_eq, IH by exact L.
  split; [intros [-> ->]; reflexivity | intros E; injection E; auto].
Qed.

Lemma ascii_lower_valid (c : rchar) :
  valid_char c -> valid_char (MessageHandler.ascii_lower c).
Proof.
  unfold MessageHandler.ascii_lower, valid_char.
  destruct ((65 <=? c) && (c <=? 90)) eqn:E; [| tauto].
  apply andb_true_iff in E as [E1 E2].
  apply Z.leb_le in E1. apply Z.leb_le in E2. lia.
Qed.

Lemma ascii_lower_idem (c : rchar) :
  MessageHandler.ascii_lower (MessageHandler.ascii_lower c) = MessageHandler.ascii_lower c.
Proof.
  unfold MessageHandler.ascii_lower.
  destruct (Z.leb_spec 65 c), (Z.leb_spec c 90); simpl.
  - destruct (Z.leb_spec 65 (c + 32)), (Z.leb_spec (c + 32) 90); simpl; lia.
  - destruct (Z.leb_spec 65 c), (Z.leb_spec c 90); simpl; lia.
  - destruct (Z.leb_spec 65 c), (Z.leb_spec c 90); simpl; lia.
  - destruct (Z.leb_spec 65 c), (Z.leb_spec c 90); simpl; lia.
Qed.

Lemma map_lower_byte_encode (s : rstring) :
  Forall valid_char s ->
  map Envelope.ascii_lower_byte (Utf8.encode s)
  = Utf8.encode (map MessageHandler.ascii_lower s).
Proof.
  induction 1 as [| c s Hc _ IH]; [reflexivity |].
  unfold Utf8.encode in *. cbn [flat_map map]. rewrite map_app.
  f_equal; [| exact IH].
  destruct (Z.ltb_spec c 128).
  - unfold Utf8.encode_char. destruct (Z.ltb_spec c 128); [| lia].
    cbn [map]. unfold MessageHandler.ascii_lower, Envelope.ascii_lower_byte.
    destruct ((65 <=? c) && (c <=? 90)) eqn:E.
    + apply andb_true_iff in E as [E1 E2].
      apply Z.leb_le in E1. apply Z.leb_le in E2.
      destruct (Z.ltb_spec (c + 32) 128); [reflexivity | lia].
    + destruct (Z.ltb_spec c 128); [reflexivity | lia].
  - assert (L : MessageHandler.ascii_lower c = c).
    { unfold MessageHandler.ascii_lower.
      destruct (Z.leb_spec 65 c), (Z.leb_spec c 90); simpl; auto; lia. }
    rewrite L. destruct Hc as [Hc _].
    pose proof (utf8_encode_char_high c ltac:(lia)) as Hh.
    induction Hh as [| b l Hb _ IHh]; [reflexivity |].
    simpl. rewrite IHh. f_equal.
    unfold Envelope.ascii_lower_byte.
    destruct (Z.leb_spec 65 b), (Z.leb_spec b 90); simpl; auto; lia.
Qed.

Lemma eq_ignore_ascii_case_spec (a b : rstring) :
  Forall valid_char a -> Forall valid_char b ->
  (Envelope.eq_ignore_ascii_case a b = true
   <-> map MessageHandler.ascii_lower a = map MessageHandler.ascii_lower b).
Proof.
  intros Ha Hb. unfold Envelope.eq_ignore_ascii_case.
  rewrite andb_true_iff, Nat.eqb_eq.
  assert (Va : Forall valid_char (map MessageHandler.ascii_lower a))
    by (apply Forall_map; eapply Forall_impl; [exact ascii_lower_valid | exact Ha]).
  assert (Vb : Forall valid_char (map MessageHandler.ascii_lower b))
    by (apply Forall_map; eapply Forall_impl; [exact ascii_lower_valid | exact Hb]).
  split.
  - intros [L F]. apply forallb_combine_map in F; [| exact L].
    rewrite !map_lower_byte_encode in F by assumption.
    apply utf8_encode_inj; assumption.
  - intros E.
    assert (M : map Envelope.ascii_lower_byte (Utf8.encode a)
                = map Envelope.ascii_lower_byte (Utf8.encode b))
      by (rewrite !map_lower_byte_encode by assumption; rewrite E; reflexivity).
    assert (L : length (Utf8.encode a) = length (Utf8.encode b)).
    { apply (f_equal (@length Z)) in M. rewrite !length_map in M. exact M. }
    split; [exact L |]. apply forallb_combine_map; assumption.
Qed.

(** C10. [GnsEnvelope::is_for(pk)] holds exactly when some listed
    recipient key equals [pk] up to ASCII case; in particular a key listed
    in uppercase hex matches its lowercase form. *)
Theorem is_for_ascii_case_insensitive (e : Envelope.GnsEnvelope) (pk : rstring) :
  Forall valid_char pk -> Forall (Forall valid_char) (Envelope.to_public_keys e) ->
  (Envelope.is_for e pk = true
   <-> Exists (fun k => map MessageHandler.ascii_lower k = map MessageHandler.ascii_lower pk)
              (Envelope.to_public_keys e))
  /\ (forall k, In k (Envelope.to_public_keys e) ->
        Envelope.is_for e (map MessageHandler.ascii_lower k) = true).
Proof.
  intros Hpk Hks. unfold Envelope.is_for. split.
  - rewrite existsb_exists, Exists_exists. split.
    + intros (k & Hin & Hk). exists k. split; [exact Hin |].
      apply eq_ignore_ascii_case_spec; auto.
      rewrite Forall_forall in Hks. auto.
    + intros (k & Hin & Hk). exists k. split; [exact Hin |].
      apply eq_ignore_ascii_case_spec; auto.
      rewrite Forall_forall in Hks. auto.
  - intros k Hin. apply existsb_exists. exists k. split; [exact Hin |].
    rewrite Forall_forall in Hks. pose proof (Hks k Hin) as Hk.
    apply eq_ignore_ascii_case_spec; auto.
    + apply Forall_map. eapply Forall_impl; [exact ascii_lower_valid | exact Hk].
    + rewrite map_map. apply map_ext. intros c. symmetry. apply ascii_lower_idem.
Qed.

Lemma is_for_ascii_case_insensitive_witness :
  Forall valid_char (lit "00ff")
  /\ Forall (Forall valid_char) (Envelope.to_public_keys Examples.env_upper)
  /\ Envelope.is_for Examples.env_upper (lit "00ff") = true.
Proof.
  assert (H1 : Forall valid_char (lit "00ff"))
    by (cbn; repeat constructor; unfold valid_char; lia).
  assert (H2 : Forall (Forall valid_char) (Envelope.to_public_keys Examples.env_upper))
    by (cbn; repeat constructor; unfold valid_char; lia).
  split; [exact H1 | split; [exact H2 |]].
  apply (proj2 (proj1 (is_for_ascii_case_insensitive Examples.env_upper (lit "00ff") H1 H2))).
  cbn. constructor. reflexivity.
Defined.

(* ------------------------------------------------------------------ *)
(** ** Thread upsert ([storage/mod.rs]) *)

Lemma find_map_thread (db : Storage.Database) (id : rstring)
    (f : Storage.ThreadRow -> Storage.ThreadRow) :
  (forall r, Storage.tr_id (f r) = Storage.tr_id r) ->
  Storage.find_thread (Storage.map_thread db id f) id
  = option_map f (Storage.find_thread db id).
Proof.
  intros Hf. destruct db as [ths ms]. unfold Storage.find_thread, Storage.map_thread. cbn.
  induction ths as [| a r IH]; cbn; [reflexivity |].
  destruct (rstring_eqb (Storage.tr_id a) id) eqn:E; cbn.
  - rewrite Hf, E. reflexivity.
  - rewrite E. exact IH.
Qed.

Lemma find_insert_message (db : Storage.Database) (m : Storage.MessageRow) (id : rstring) :
  Storage.find_thread (Storage.insert_or_replace_message db m) id = Storage.find_thread db id.
Proof. reflexivity. Qed.

(** The row an existing thread becomes: the upsert, then the
    [last_message_at]/[unread_count] update. *)
Lemma get_or_create_then_update (now ts : Z) (inc : bool) (db : Storage.Database)
    (tid pk : rstring) (handle subj : option rstring) (m : Storage.MessageRow)
    (r : Storage.ThreadRow) :
  Storage.find_thread db tid = Some r ->
  exists r',
    Storage.find_thread
      (Storage.update_thread_for_message
         (Storage.insert_or_replace_message
            (Storage.get_or_create_thread now db tid pk handle subj) m) tid ts inc) tid
    = Some r'
    /\ Storage.participant_handle r' = Storage.coalesce handle (Storage.participant_handle r)
    /\ Storage.subject r' = Storage.coalesce (Storage.subject r) subj.
Proof.
  intros Hr. unfold Storage.update_thread_for_message.
  rewrite find_map_thread by reflexivity.
  rewrite find_insert_message. unfold Storage.get_or_create_thread. rewrite Hr.
  rewrite find_map_thread by reflexivity. rewrite Hr.
  eexists. split; [reflexivity | split; reflexivity].
Qed.

(** C7 (counterexample). Thread ["t"] already has the handle ["alice"];
    receiving a message from a sender whose handle is ["bob"] overwrites
    it, because the upsert writes
    [COALESCE(excluded.participant_handle, threads.participant_handle)]. *)
Lemma thread_upsert_handle_overwritten :
  option_map Storage.participant_handle (Storage.find_thread Examples.db_alice (lit "t"))
    = Some (Some (lit "alice"))
  /\ option_map Storage.participant_handle
       (Storage.find_thread
          (Storage.save_received_message 5 Examples.db_alice (lit "m1") (lit "t") (lit "pk")
             (Some (lit "bob")) (lit "text") (Signing.VObject []) 7 true None)
          (lit "t"))
     = Some (Some (lit "bob"))
  /\ lit "bob" <> lit "alice".
Proof.
  split; [reflexivity | split; [reflexivity | discriminate]].
Qed.

(** C7 (amended). When [save_received_message] or [save_sent_message]
    upserts an existing thread row, the existing subject is kept if it is
    set and the new subject is taken only if it is unset, while the
    participant handle takes the newly supplied handle whenever that is
    non-null and keeps the existing one only when the new one is null. *)
Theorem thread_upsert_coalesce :
  (forall now db message_id tid from_pk from_handle payload_type payload ts sig_valid
          reply_to r,
     Storage.find_thread db tid = Some r ->
     exists r',
       Storage.find_thread
         (Storage.save_received_message now db message_id tid from_pk from_handle
            payload_type payload ts sig_valid reply_to) tid = Some r'
       /\ Storage.participant_handle r'
          = Storage.coalesce from_handle (Storage.participant_handle r)
       /\ Storage.subject r'
          = Storage.coalesce (Storage.subject r)
              (Storage.json_get_str payload (lit "subject")))
  /\ (forall from_slice from_utf8_lossy now db envelope payload recipient_handle reply_to
             tid r db',
     Storage.save_sent_message from_slice from_utf8_lossy now db envelope payload
       recipient_handle reply_to = Some db' ->
     Storage.sent_thread_id envelope = Some tid ->
     Storage.find_thread db tid = Some r ->
     exists r',
       Storage.find_thread db' tid = Some r'
       /\ Storage.participant_handle r'
          = Storage.coalesce recipient_handle (Storage.participant_handle r)
       /\ Storage.subject r'
          = Storage.coalesce (Storage.subject r)
              (Storage.json_get_str
                 (Storage.sent_payload_json from_slice from_utf8_lossy payload)
                 (lit "subject"))).
Proof.
  split.
  - intros. unfold Storage.save_received_message. eapply get_or_create_then_update. eassumption.
  - intros fs fu now db env payload rh reply tid r db' Hs Htid Hr.
    unfold Storage.save_sent_message in Hs. rewrite Htid in Hs.
    destruct (hd_error (Envelope.to_public_keys env)); [| discriminate].
    injection Hs as <-. eapply get_or_create_then_update. eassumption.
Qed.

Lemma thread_upsert_coalesce_witness :
  let payload := Signing.VObject [(lit "subject", Signing.VString (lit "hi"))] in
  let row := Storage.mkThread (lit "t") (lit "pk") (Some (lit "alice")) 0 0 false false
               false None in
  let env := Envelope.mkEnvelope (lit "e1") (lit "aa") None [lit "pk"] (lit "text") 0
               (Some (lit "t")) None (Encryption.String []) None None [] in
  let fs : bytes -> option Signing.Value := fun _ => Some payload in
  let fu : bytes -> rstring := fun _ => [] in
  (exists r',
     Storage.find_thread
       (Storage.save_received_message 5 Examples.db_alice (lit "m1") (lit "t") (lit "pk")
          None (lit "text") payload 7 true None) (lit "t") = Some r'
     /\ Storage.participant_handle r' = Storage.coalesce None (Storage.participant_handle row)
     /\ Storage.subject r'
        = Storage.coalesce (Storage.subject row) (Storage.json_get_str payload (lit "subject")))
  /\ (exists db', Storage.save_sent_message fs fu 5 Examples.db_alice env [] None None
                  = Some db'
     /\ exists r',
       Storage.find_thread db' (lit "t") = Some r'
       /\ Storage.participant_handle r' = Storage.coalesce None (Storage.participant_handle row)
       /\ Storage.subject r'
          = Storage.coalesce (Storage.subject row)
              (Storage.json_get_str (Storage.sent_payload_json fs fu []) (lit "subject"))).
Proof.
  intros payload row env fs fu. split.
  - apply (proj1 thread_upsert_coalesce 5 Examples.db_alice (lit "m1") (lit "t") (lit "pk")
      None (lit "text") payload 7 true None row). reflexivity.
  - eexists. split; [reflexivity |].
    apply (proj2 thread_upsert_coalesce fs fu 5 Examples.db_alice env [] None None
      (lit "t") row).
    + reflexivity.
    + reflexivity.
    + reflexivity.
Defined.

(* ------------------------------------------------------------------ *)
(** ** [Identity::from_hex] *)

Lemma hex_val_ascii (c : Z) : Hex.val c <> None -> 0 <= c < 128.
Proof.
  unfold Hex.val.
  destruct (Z.leb_spec 48 c), (Z.leb_spec c 57); cbn; try lia;
  destruct (Z.leb_spec 97 c), (Z.leb_spec c 102); cbn; try lia;
  destruct (Z.leb_spec 65 c), (Z.leb_spec c 70); cbn; lia || congruence.
Qed.

Lemma decode_pairs_ok (n : nat) (b : bytes) (i : nat) :
  length b = (2 * n)%nat -> Forall (fun x => Hex.val x <> None) b ->
  exists out, Hex.decode_pairs i b = Ok out /\ length out = n.
Proof.
  revert b i. induction n as [| n IH]; intros b i Hl Hf.
  - destruct b; [exists []; split; reflexivity | discriminate].
  - destruct b as [| hi [| lo r]]; try (cbn in Hl; lia).
    inversion Hf as [| ? ? Hhi Hf']; subst. inversion Hf' as [| ? ? Hlo Hr]; subst.
    destruct (IH r (S (S i))) as [out [Ho Hlen]]; [cbn in Hl; lia | exact Hr |].
    cbn. destruct (Hex.val hi) as [h |]; [| congruence].
    destruct (Hex.val lo) as [l |]; [| congruence].
    rewrite Ho. cbn. eexists. split; [reflexivity | cbn; lia].
Qed.

Lemma decode_pairs_ok_inv (n : nat) (b : bytes) (i : nat) (out : bytes) :
  (length b <= n)%nat -> Hex.decode_pairs i b = Ok out ->
  Forall (fun x => Hex.val x <> None) b.
Proof.
  revert b i out. induction n as [| n IH]; intros b i out Hl Hd.
  - destruct b; [constructor | cbn in Hl; lia].
  - destruct b as [| hi [| lo r]]; [constructor | discriminate |].
    cbn in Hd. destruct (Hex.val hi) eqn:Eh; [| discriminate].
    destruct (Hex.val lo) eqn:El; [| discriminate].
    destruct (Hex.decode_pairs (S (S i)) r) as [t |] eqn:Et; [| discriminate].
    constructor; [congruence |]. constructor; [congruence |].
    apply (IH r (S (S i)) t); [cbn in Hl; lia | exact Et].
Qed.

Lemma hex_string_encode (s : rstring) :
  Forall (fun c => Hex.val c <> None) s -> Utf8.encode s = s.
Proof.
  intros H. apply utf8_encode_ascii. eapply Forall_impl; [| exact H].
  intros c. apply hex_val_ascii.
Qed.

(** [hex::decode] fails on a string with a char that is no hex digit. *)
Lemma hex_decode_non_digit (s : rstring) :
  Forall valid_char s -> Exists (fun c => Hex.val c = None) s ->
  exists e, Hex.decode s = Err e.
Proof.
  intros Hv Hx. unfold Hex.decode.
  destruct (Nat.odd (length (Utf8.encode s))); [eexists; reflexivity |].
  destruct (Hex.decode_pairs 0 (Utf8.encode s)) as [out | e] eqn:Ed; [| eexists; reflexivity].
  exfalso. apply decode_pairs_ok_inv with (n := length (Utf8.encode s)) in Ed; [| lia].
  apply Exists_exists in Hx as [c [Hin Hc]].
  rewrite Forall_forall in Hv, Ed.
  destruct (Z.ltb_spec c 128) as [Hlt | Hge].
  - assert (In c (Utf8.encode s)).
    { unfold Utf8.encode. apply in_flat_map. exists c. split; [exact Hin |].
      unfold Utf8.encode_char. destruct (Z.ltb_spec c 128); [left; reflexivity | lia]. }
    exact (Ed c H Hc).
  - destruct (Hv c Hin) as [Hr _].
    pose proof (utf8_encode_char_high c (conj Hge (proj2 Hr))) as Hh.
    destruct (Utf8.encode_char c) as [| b0 bs] eqn:Ec;
      [exact (utf8_encode_char_nonempty c Ec) |].
    inversion Hh; subst.
    assert (Hb : In b0 (Utf8.encode s)).
    { unfold Utf8.encode. apply in_flat_map. exists c. rewrite Ec. split; [exact Hin | left; reflexivity]. }
    pose proof (hex_val_ascii b0 (Ed b0 Hb)). lia.
Qed.

Lemma hex_digits_dec (s : rstring) :
  Forall (fun c => Hex.val c <> None) s \/ Exists (fun c => Hex.val c = None) s.
Proof.
  induction s as [| c s [IH | IH]].
  - left. constructor.
  - destruct (Hex.val c) eqn:E.
    + left. constructor; [congruence | exact IH].
    + right. constructor. exact E.
  - right. constructor 2. exact IH.
Qed.

(** C8 (counterexample). ["abc"] has length 3, not 64, yet [from_hex]
    fails with [InvalidHex] (the [hex::FromHexError::OddLength] of
    [hex::decode], converted by [?]), not with [InvalidKeyLength]. *)
Lemma from_hex_odd_length_invalid_hex :
  @Identity.from_hex Examples.toy_primitives (lit "abc") = Err InvalidHex
  /\ length (lit "abc") <> 64%nat.
Proof. split; [reflexivity | discriminate]. Qed.

(** C8 (amended). [Identity::from_hex(s)] fails with [InvalidKeyLength]
    (expected 32, got [|s|/2]) for every even-length string of hex digits
    whose length is not 64; it fails with [InvalidHex] for every string
    of odd length or containing a char that is not a hex digit; and it
    succeeds for every 64-char string of hex digits. *)
Theorem from_hex_errors (P : Primitives) (s : rstring) :
  Forall valid_char s ->
  (Forall (fun c => Hex.val c <> None) s -> Nat.even (length s) = true ->
   length s <> 64%nat ->
   Identity.from_hex s = Err (InvalidKeyLength 32 (length s / 2)))
  /\ (Nat.odd (length s) = true \/ Exists (fun c => Hex.val c = None) s ->
      Identity.from_hex s = Err InvalidHex)
  /\ (Forall (fun c => Hex.val c <> None) s -> length s = 64%nat ->
      exists id, Identity.from_hex s = Ok id).
Proof.
  intros Hv. split; [| split].
  - intros Hh He Hl.
    assert (Hodd : Nat.odd (@length u8 s) = false) by (rewrite <- Nat.negb_even; exact (f_equal negb He)).
    apply Nat.even_spec in He as [n Hn].
    destruct (decode_pairs_ok n s 0 Hn Hh) as [out [Ho Hlen]].
    unfold Identity.from_hex, hex_decode, Hex.decode. rewrite (hex_string_encode s Hh).
    destruct (Nat.odd _) eqn:Eo; [congruence |]. rewrite Ho. cbn. rewrite Hlen.
    destruct (Nat.eqb_spec n 32); [lia |]. cbn.
    change (fst (Nat.divmod (length s) 1 0 1)) with (length s / 2)%nat.
    rewrite Hn, Nat.mul_comm, Nat.div_mul by lia. reflexivity.
  - intros [Ho | Hx].
    + destruct (hex_digits_dec s) as [Hh | Hx].
      * unfold Identity.from_hex, hex_decode, Hex.decode.
        rewrite (hex_string_encode s Hh).
        destruct (Nat.odd _) eqn:Eo; [reflexivity | congruence].
      * destruct (hex_decode_non_digit s Hv Hx) as [e He].
        unfold Identity.from_hex, hex_decode. rewrite He. reflexivity.
    + destruct (hex_decode_non_digit s Hv Hx) as [e He].
      unfold Identity.from_hex, hex_decode. rewrite He. reflexivity.
  - intros Hh Hl.
    assert (Hl2 : length s = (2 * 32)%nat) by (rewrite Hl; reflexivity).
    destruct (decode_pairs_ok 32 s 0 Hl2 Hh) as [out [Ho Hlen]].
    unfold Identity.from_hex, hex_decode, Hex.decode. rewrite (hex_string_encode s Hh).
    destruct (Nat.odd _) eqn:Eo;
      [change (@length Z s) with (@length rchar s) in Eo; rewrite Hl in Eo; discriminate |].
    rewrite Ho. cbn. rewrite Hlen. cbn.
    eexists. reflexivity.
Qed.

Lemma from_hex_errors_witness :
  let key := lit "000102030405060708090a0b0c0d0e0f101112131415161718191a1b1c1d1e1f" in
  (exists id, @Identity.from_hex Examples.toy_primitives key = Ok id)
  /\ @Identity.from_hex Examples.toy_primitives (lit "abcd") = Err (InvalidKeyLength 32 2).
Proof.
  intros key. split.
  - refine (proj2 (proj2 (from_hex_errors Examples.toy_primitives key _)) _ _).
    + cbn. repeat constructor; unfold valid_char; lia.
    + cbn. repeat constructor; discriminate.
    + reflexivity.
  - refine (proj1 (from_hex_errors Examples.toy_primitives (lit "abcd") _) _ _ _).
    + cbn. repeat constructor; unfold valid_char; lia.
    + cbn. repeat constructor; discriminate.
    + reflexivity.
    + discriminate.
Defined.

(* ------------------------------------------------------------------ *)
(** ** Ed25519 to X25519 secret ([identity.rs]) *)

Lemma length_upd (i : nat) (v : Z) (l : list Z) : length (upd i v l) = length l.
Proof. revert i; induction l as [| y l IH]; intros [| i]; cbn; auto. Qed.

Lemma nth_upd_eq (i : nat) (v : Z) (l : list Z) :
  (i < length l)%nat -> nth i (upd i v l) 0 = v.
Proof.
  revert i; induction l as [| y l IH]; intros [| i] H; cbn in *; try lia; auto.
  apply IH. lia.
Qed.

Lemma nth_upd_neq (i j : nat) (v : Z) (l : list Z) :
  i <> j -> nth j (upd i v l) 0 = nth j l 0.
Proof.
  revert i j; induction l as [| y l IH]; intros [| i] [| j] H; cbn; auto; try lia.
Qed.

Lemma bit_le_nth (x : bytes) (k j : nat) :
  (j < 8)%nat -> bit_le x (8 * k + j) = Z.testbit (nth k x 0) (Z.of_nat j).
Proof.
  intros Hj. unfold bit_le.
  replace ((8 * k + j) / 8)%nat with k.
  2:{ apply Nat.div_unique with j; lia. }
  replace ((8 * k + j) mod 8)%nat with j.
  2:{ apply Nat.mod_unique with k; lia. }
  reflexivity.
Qed.

(** The three updates of [ed25519_to_x25519_secret], byte by byte. *)
Lemma x25519_secret_bytes {P : Primitives} (sk : bytes) (k : nat) :
  (32 <= length (sha512 sk))%nat ->
  let h := firstn 32 (sha512 sk) in
  nth k (Identity.ed25519_to_x25519_secret sk) 0
  = if (k =? 0)%nat then Z.land (nth 0 h 0) 248
    else if (k =? 31)%nat then Z.lor (Z.land (nth 31 h 0) 127) 64
    else nth k h 0.
Proof.
  intros Hl h. unfold Identity.ed25519_to_x25519_secret. fold h.
  assert (Hh : length h = 32%nat) by (unfold h; rewrite length_firstn; lia).
  destruct (Nat.eqb_spec k 0) as [-> |]; [| destruct (Nat.eqb_spec k 31) as [-> |]].
  - rewrite nth_upd_neq by lia. rewrite nth_upd_neq by lia. apply nth_upd_eq. lia.
  - rewrite nth_upd_eq by (rewrite !length_upd; lia).
    rewrite nth_upd_eq by (rewrite !length_upd; lia).
    rewrite nth_upd_neq by lia. reflexivity.
  - rewrite !nth_upd_neq by lia. reflexivity.
Qed.

(** C4. The key-agreement secret derived from a signing secret [s] is
    [SHA512(s)[0..32]] with standard X25519 clamping: 32 bytes whose bits
    0, 1, 2 and 255 are cleared, bit 254 set, and every other bit that of
    the hash prefix.  Identities built from the same [s] therefore carry
    this same secret and the same key-agreement public value
    [X25519(secret, basepoint)]. *)
Theorem ed25519_to_x25519_secret_clamp {P : Primitives} (sk : bytes) :
  length (sha512 sk) = 64%nat ->
  let h := firstn 32 (sha512 sk) in
  let x := Identity.ed25519_to_x25519_secret sk in
  length x = 32%nat
  /\ (forall i, (i < 256)%nat ->
        bit_le x i = if (i <? 3)%nat then false
                     else if (i =? 254)%nat then true
                     else if (i =? 255)%nat then false
                     else bit_le h i)
  /\ (forall id1 id2, Identity.from_bytes sk = Ok id1 -> Identity.from_bytes sk = Ok id2 ->
        Identity.x25519_secret id1 = x
        /\ Identity.x25519_public id1 = x25519 x x25519_basepoint
        /\ Identity.x25519_public id1 = Identity.x25519_public id2).
Proof.
  intros Hl h x. split; [| split].
  - unfold x, Identity.ed25519_to_x25519_secret. rewrite !length_upd, length_firstn. lia.
  - intros i Hi.
    assert (exists k j, i = (8 * k + j)%nat /\ (j < 8)%nat) as [k [j [-> Hj]]].
    { exists (i / 8)%nat, (i mod 8)%nat. split; [apply Nat.div_mod_eq | apply Nat.mod_upper_bound; lia]. }
    rewrite !bit_le_nth by exact Hj. unfold x. rewrite x25519_secret_bytes by lia. fold h.
    destruct (Nat.eqb_spec k 0) as [-> | Hk0]; [| destruct (Nat.eqb_spec k 31) as [-> | Hk31]].
    + rewrite Z.land_spec.
      destruct j as [|[|[|[|[|[|[|[| j]]]]]]]]; try lia;
        destruct (Z.testbit (nth 0 h 0) _); reflexivity.
    + rewrite Z.lor_spec, Z.land_spec.
      destruct j as [|[|[|[|[|[|[|[| j]]]]]]]]; try lia;
        destruct (Z.testbit (nth 31 h 0) _); reflexivity.
    + destruct (Nat.ltb_spec (8 * k + j) 3); [lia |].
      destruct (Nat.eqb_spec (8 * k + j) 254); [lia |].
      destruct (Nat.eqb_spec (8 * k + j) 255); [lia |].
      reflexivity.
  - intros id1 id2 H1 H2. unfold Identity.from_bytes in H1, H2.
    injection H1 as <-. injection H2 as <-. cbn. auto.
Qed.

Lemma ed25519_to_x25519_secret_clamp_witness :
  let x := @Identity.ed25519_to_x25519_secret Examples.toy_primitives (repeat 1 32) in
  length x = 32%nat /\ bit_le x 254 = true.
Proof.
  intros x.
  destruct (@ed25519_to_x25519_secret_clamp Examples.toy_primitives (repeat 1 32)
              eq_refl) as [Hl [Hb _]].
  split; [exact Hl | apply (Hb 254%nat); lia].
Defined.

(* ------------------------------------------------------------------ *)
(** ** [Trajectory::add] keeps the breadcrumbs sorted and owned *)

Section TrajectorySort.
Import Breadcrumbs.

Lemma insert_by_ts_perm (b : Breadcrumb) (l : list Breadcrumb) :
  Permutation (insert_by_ts b l) (b :: l).
Proof.
  induction l as [| c r IH]; cbn; [reflexivity |].
  destruct (timestamp b <? timestamp c); [reflexivity |].
  rewrite IH. apply perm_swap.
Qed.

Lemma insert_by_ts_sorted (b : Breadcrumb) (l : list Breadcrumb) :
  Sorted ts_le l -> Sorted ts_le (insert_by_ts b l).
Proof.
  induction 1 as [| c r Hr IH Hd]; cbn.
  - repeat constructor.
  - destruct (Z.ltb_spec (timestamp b) (timestamp c)).
    + constructor; [constructor; assumption | constructor; unfold ts_le; lia].
    + constructor; [exact IH |].
      destruct r as [| d r]; cbn.
      * constructor. unfold ts_le. lia.
      * inversion Hd; subst.
        destruct (timestamp b <? timestamp d); constructor; unfold ts_le in *; lia.
Qed.

Lemma sort_by_timestamp_acc (l acc : list Breadcrumb) :
  Sorted ts_le acc ->
  Sorted ts_le (fold_left (fun acc b => insert_by_ts b acc) l acc)
  /\ Permutation (fold_left (fun acc b => insert_by_ts b acc) l acc) (acc ++ l).
Proof.
  revert acc. induction l as [| b l IH]; intros acc Hs; cbn.
  - rewrite app_nil_r. split; [exact Hs | reflexivity].
  - destruct (IH (insert_by_ts b acc) (insert_by_ts_sorted b acc Hs)) as [H1 H2].
    split; [exact H1 |]. rewrite H2, insert_by_ts_perm.
    rewrite <- Permutation_middle. reflexivity.
Qed.

Lemma sort_by_timestamp_spec (l : list Breadcrumb) :
  Sorted ts_le (sort_by_timestamp l) /\ Permutation (sort_by_timestamp l) l.
Proof. apply (sort_by_timestamp_acc l []). constructor. Qed.

(** What one successful [add] did. *)
Lemma add_ok {P : Primitives} (t t' : Trajectory) (b : Breadcrumb) :
  add t b = Ok t' ->
  public_key b = t_public_key t /\ verify_breadcrumb b = Ok true
  /\ t_public_key t' = t_public_key t
  /\ breadcrumbs t' = sort_by_timestamp (breadcrumbs t ++ [b]).
Proof.
  unfold add. destruct (rstring_eqb (public_key b) (t_public_key t)) eqn:E; [| discriminate].
  cbn. destruct (verify_breadcrumb b) as [[|] | e]; cbn; intros H; try discriminate.
  injection H as <-. unfold rstring_eqb in E.
  destruct (list_eq_dec Z.eq_dec (public_key b) (t_public_key t)); [| discriminate].
  cbn. auto.
Qed.

Lemma add_inv {P : Primitives} (t t' : Trajectory) (b : Breadcrumb) :
  traj_inv t -> add t b = Ok t' -> traj_inv t'.
Proof.
  intros [_ Hown] Hadd. destruct (add_ok t t' b Hadd) as [Hpk [_ [Ht' Hbs]]].
  destruct (sort_by_timestamp_spec (breadcrumbs t ++ [b])) as [Hs Hp].
  split; rewrite Hbs; [exact Hs |].
  rewrite Ht'. eapply Permutation_Forall; [symmetry; exact Hp |].
  apply Forall_app. split; [exact Hown | constructor; [exact Hpk | constructor]].
Qed.

Lemma add_all_inv {P : Primitives} (l : list Breadcrumb) :
  forall t t', traj_inv t -> add_all t l = Ok t' ->
  traj_inv t' /\ t_public_key t' = t_public_key t.
Proof.
  induction l as [| b l IH]; intros t t' Hi H; cbn in H.
  - injection H as <-. auto.
  - destruct (add t b) as [t1 |] eqn:E; [| discriminate]. cbn in H.
    destruct (IH t1 t' (add_inv t t1 b Hi E) H) as [Hi' Hk].
    split; [exact Hi' |]. rewrite Hk. apply (add_ok t t1 b E).
Qed.

End TrajectorySort.

Lemma rstring_eqb_false (a b : rstring) : a <> b -> rstring_eqb a b = false.
Proof. unfold rstring_eqb. destruct (list_eq_dec Z.eq_dec a b); congruence. Qed.

Lemma rstring_eqb_true (a : rstring) : rstring_eqb a a = true.
Proof. unfold rstring_eqb. destruct (list_eq_dec Z.eq_dec a a); congruence. Qed.

(** C6 (counterexample). [Trajectory::add] rejects a breadcrumb of
    another signer with [InvalidEnvelope("Breadcrumb public key doesn't
    match trajectory")], and a breadcrumb whose signature does not verify
    with [SignatureVerificationFailed]: the error kinds are not
    [MismatchedOwner] and [InvalidSignature]. *)
Lemma trajectory_add_error_kinds :
  (forall P : Primitives,
     Breadcrumbs.add (Breadcrumbs.new (lit "aa"))
       (Breadcrumbs.mkBreadcrumb (lit "cell") 0 (lit "bb") (lit "00") 7)
     = Err (InvalidEnvelope (lit "Breadcrumb public key doesn't match trajectory")))
  /\ (let pk := lit "0000000000000000000000000000000000000000000000000000000000000000" in
      @Breadcrumbs.add Examples.toy_primitives (Breadcrumbs.new pk)
        (Breadcrumbs.mkBreadcrumb (lit "cell") 0 pk (pk ++ lit "1" ++ skipn 1 pk) 7)
      = Err SignatureVerificationFailed).
Proof. split; [intros P |]; vm_compute; reflexivity. Qed.

(** C6 (amended). [Trajectory::add] fails with [InvalidEnvelope] when the
    breadcrumb's public key differs from the trajectory's; otherwise it
    fails with [SignatureVerificationFailed] when the signature does not
    verify, and with the verification error itself when the key or the
    signature is malformed.  After every successful sequence of [add]
    calls, starting from [Trajectory::new(pk)] or from any trajectory that
    is sorted and owned by its key, the breadcrumbs are sorted by
    timestamp and all signed by the trajectory's key, which never
    changes. *)
Theorem trajectory_add_spec {P : Primitives} :
  (forall t b, Breadcrumbs.public_key b <> Breadcrumbs.t_public_key t ->
     Breadcrumbs.add t b
     = Err (InvalidEnvelope (lit "Breadcrumb public key doesn't match trajectory")))
  /\ (forall t b, Breadcrumbs.public_key b = Breadcrumbs.t_public_key t ->
        Breadcrumbs.verify_breadcrumb b = Ok false ->
        Breadcrumbs.add t b = Err SignatureVerificationFailed)
  /\ (forall t b e, Breadcrumbs.public_key b = Breadcrumbs.t_public_key t ->
        Breadcrumbs.verify_breadcrumb b = Err e -> Breadcrumbs.add t b = Err e)
  /\ (forall t l t', traj_inv t -> Breadcrumbs.add_all t l = Ok t' ->
        traj_inv t' /\ Breadcrumbs.t_public_key t' = Breadcrumbs.t_public_key t)
  /\ (forall pk l t', Breadcrumbs.add_all (Breadcrumbs.new pk) l = Ok t' ->
        traj_inv t' /\ Breadcrumbs.t_public_key t' = pk).
Proof.
  split; [| split; [| split; [| split]]].
  - intros t b H. unfold Breadcrumbs.add. rewrite rstring_eqb_false by exact H. reflexivity.
  - intros t b H Hv. unfold Breadcrumbs.add. rewrite H, rstring_eqb_true, Hv. reflexivity.
  - intros t b e H Hv. unfold Breadcrumbs.add. rewrite H, rstring_eqb_true, Hv. reflexivity.
  - intros t l t'. apply add_all_inv.
  - intros pk l t' H. apply (add_all_inv l (Breadcrumbs.new pk) t'); [| exact H].
    split; constructor.
Qed.

Lemma trajectory_add_spec_witness :
  let pk := lit "0000000000000000000000000000000000000000000000000000000000000000" in
  let b := Breadcrumbs.mkBreadcrumb (lit "cell") 5 pk (pk ++ pk) 7 in
  exists t', @Breadcrumbs.add_all Examples.toy_primitives (Breadcrumbs.new pk) [b] = Ok t'
  /\ traj_inv t' /\ Breadcrumbs.t_public_key t' = pk.
Proof.
  intros pk b. eexists. split; [vm_compute; reflexivity |].
  apply (proj2 (proj2 (proj2 (proj2 (@trajectory_add_spec Examples.toy_primitives)))) pk [b]).
  vm_compute. reflexivity.
Defined.

(* ------------------------------------------------------------------ *)
(** ** Claim eligibility of a trajectory *)

(** C5 (counterexample). The trajectory [unsorted_trajectory] (its
    [breadcrumbs] field is public and deserializable, so its order is not
    guaranteed) is not eligible, its first and last timestamps being
    equal; removing its last breadcrumb makes it eligible. *)
Lemma trajectory_eligibility_not_monotone :
  Breadcrumbs.meets_claim_requirements Examples.unsorted_trajectory = false
  /\ Breadcrumbs.meets_claim_requirements (remove_breadcrumb 100 Examples.unsorted_trajectory)
     = true.
Proof. split; vm_compute; reflexivity. Qed.

Lemma wrap_i64_small (z : Z) : - 2 ^ 63 <= z < 2 ^ 63 -> Breadcrumbs.wrap_i64 z = z.
Proof. intros H. unfold Breadcrumbs.wrap_i64. rewrite Z.mod_small; lia. Qed.

Lemma last_in {A} (l : list A) (d : A) : l <> [] -> In (last l d) l.
Proof.
  induction l as [| a l IH]; intros H; [congruence |].
  destruct l as [| b l]; [left; reflexivity |].
  right. apply IH. discriminate.
Qed.

Lemma remove_at_incl {A} (i : nat) (l : list A) : incl (remove_at i l) l.
Proof.
  unfold remove_at. revert l. induction i as [| i IH]; intros [| a l]; cbn.
  - apply incl_refl.
  - apply incl_tl, incl_refl.
  - apply incl_refl.
  - apply incl_cons; [left; reflexivity |]. apply incl_tl, IH.
Qed.

Lemma length_remove_at {A} (i : nat) (l : list A) :
  (i < length l)%nat -> length (remove_at i l) = pred (length l).
Proof.
  unfold remove_at. revert l. induction i as [| i IH]; intros [| a l] H; cbn in *; try lia.
  rewrite IH by lia. destruct l; cbn in *; lia.
Qed.

Lemma unique_locations_remove (i : nat) (t : Breadcrumbs.Trajectory) :
  (Breadcrumbs.unique_locations (remove_breadcrumb i t) <= Breadcrumbs.unique_locations t)%nat.
Proof.
  unfold Breadcrumbs.unique_locations. cbn.
  apply NoDup_incl_length; [apply NoDup_nodup |].
  intros x Hx. apply nodup_In in Hx. apply nodup_In.
  apply in_map_iff in Hx as [b [<- Hb]]. apply in_map. exact (remove_at_incl i _ b Hb).
Qed.

Lemma ts_le_trans : Relations_1.Transitive ts_le.
Proof. unfold Relations_1.Transitive, ts_le. intros. lia. Qed.

Lemma sorted_hd_le (a x : Breadcrumbs.Breadcrumb) (l : list Breadcrumbs.Breadcrumb) :
  StronglySorted ts_le (a :: l) -> In x (a :: l) -> ts_le a x.
Proof.
  intros Hs [<- | Hx]; [unfold ts_le; lia |].
  inversion Hs as [| ? ? _ Hf]; subst. rewrite Forall_forall in Hf. auto.
Qed.

Lemma sorted_le_last (x d : Breadcrumbs.Breadcrumb) (l : list Breadcrumbs.Breadcrumb) :
  StronglySorted ts_le l -> In x l -> ts_le x (last l d).
Proof.
  induction 1 as [| a l Hs IH Hf]; intros Hx; [destruct Hx |].
  destruct l as [| b l].
  - destruct Hx as [<- | []]. unfold ts_le. cbn. lia.
  - change (last (a :: b :: l) d) with (last (b :: l) d).
    destruct Hx as [<- | Hx]; [| exact (IH Hx)].
    rewrite Forall_forall in Hf. apply Hf. apply last_in. discriminate.
Qed.

(** The span condition on a list of breadcrumbs, with unbounded
    subtraction. *)
Lemma meets_claim_requirements_spec (t : Breadcrumbs.Trajectory) :
  Forall (fun b => 0 <= Breadcrumbs.timestamp b < 2 ^ 63) (Breadcrumbs.breadcrumbs t) ->
  (Breadcrumbs.meets_claim_requirements t = true
   <-> (100 <= length (Breadcrumbs.breadcrumbs t))%nat
       /\ (10 <= Breadcrumbs.unique_locations t)%nat
       /\ match Breadcrumbs.breadcrumbs t with
          | first :: _ =>
            Breadcrumbs.timestamp (last (Breadcrumbs.breadcrumbs t) first)
            - Breadcrumbs.timestamp first >= 604800
          | [] => False
          end).
Proof.
  intros Hr. unfold Breadcrumbs.meets_claim_requirements, Breadcrumbs.time_span_seconds.
  destruct (Nat.ltb_spec (length (Breadcrumbs.breadcrumbs t)) 100) as [Hl | Hl].
  { split; [discriminate | lia]. }
  destruct (Nat.ltb_spec (Breadcrumbs.unique_locations t) 10) as [Hu | Hu].
  { split; [discriminate | lia]. }
  destruct (Nat.ltb_spec (length (Breadcrumbs.breadcrumbs t)) 2); [lia |].
  destruct (Breadcrumbs.breadcrumbs t) as [| f r] eqn:E; [cbn in Hl; lia |].
  rewrite Forall_forall in Hr.
  pose proof (Hr f (or_introl eq_refl)) as Hf.
  pose proof (Hr (last (f :: r) f) (last_in (f :: r) f ltac:(discriminate))) as Hlast.
  rewrite wrap_i64_small by lia.
  destruct (Z.geb_spec (Breadcrumbs.timestamp (last (f :: r) f) - Breadcrumbs.timestamp f)
              (7 * 24 * 60 * 60)); split; intros; try lia; try reflexivity.
Qed.

(** C5 (amended). For a trajectory whose timestamps are non-negative
    [i64] values, it meets the claim requirements if and only if it has at
    least 100 breadcrumbs, at least 10 distinct cell ids, and
    [last.timestamp - first.timestamp >= 604800]; if moreover its
    breadcrumbs are sorted by timestamp (as [Trajectory::add] keeps them),
    removing any breadcrumb from an ineligible trajectory never makes it
    eligible. *)
Theorem trajectory_eligibility (t : Breadcrumbs.Trajectory) :
  Forall (fun b => 0 <= Breadcrumbs.timestamp b < 2 ^ 63) (Breadcrumbs.breadcrumbs t) ->
  (Breadcrumbs.meets_claim_requirements t = true
   <-> (100 <= length (Breadcrumbs.breadcrumbs t))%nat
       /\ (10 <= Breadcrumbs.unique_locations t)%nat
       /\ match Breadcrumbs.breadcrumbs t with
          | first :: _ =>
            Breadcrumbs.timestamp (last (Breadcrumbs.breadcrumbs t) first)
            - Breadcrumbs.timestamp first >= 604800
          | [] => False
          end)
  /\ (Sorted ts_le (Breadcrumbs.breadcrumbs t) ->
      forall i, (i < length (Breadcrumbs.breadcrumbs t))%nat ->
      Breadcrumbs.meets_claim_requirements t = false ->
      Breadcrumbs.meets_claim_requirements (remove_breadcrumb i t) = false).
Proof.
  intros Hr. split; [exact (meets_claim_requirements_spec t Hr) |].
  intros Hs i Hi Hno.
  destruct (Breadcrumbs.meets_claim_requirements (remove_breadcrumb i t)) eqn:Hyes;
    [exfalso | reflexivity].
  assert (Hr' : Forall (fun b => 0 <= Breadcrumbs.timestamp b < 2 ^ 63)
                  (Breadcrumbs.breadcrumbs (remove_breadcrumb i t))).
  { rewrite Forall_forall in *. intros b Hb. apply Hr. exact (remove_at_incl i _ b Hb). }
  apply (meets_claim_requirements_spec _ Hr') in Hyes as [Hl' [Hu' Hspan']].
  assert (Hss : StronglySorted ts_le (Breadcrumbs.breadcrumbs t))
    by (apply Sorted_StronglySorted; [exact ts_le_trans | exact Hs]).
  pose proof (unique_locations_remove i t) as Hu.
  cbn in Hl', Hspan'. rewrite length_remove_at in Hl' by exact Hi.
  assert (Htrue : Breadcrumbs.meets_claim_requirements t = true).
  { apply (meets_claim_requirements_spec t Hr). split; [lia | split; [lia |]].
    pose proof (remove_at_incl i (Breadcrumbs.breadcrumbs t)) as Hinc.
    destruct (remove_at i (Breadcrumbs.breadcrumbs t)) as [| f' r'] eqn:Er; [destruct Hspan' |].
    destruct (Breadcrumbs.breadcrumbs t) as [| f r] eqn:E; [cbn in Hi; lia |].
    assert (H1 : ts_le f f') by (apply (sorted_hd_le f f' r Hss), Hinc; left; reflexivity).
    assert (H2 : ts_le (last (f' :: r') f') (last (f :: r) f)).
    { apply sorted_le_last; [exact Hss |]. apply Hinc. apply last_in. discriminate. }
    unfold ts_le in *. lia. }
  congruence.
Qed.

Lemma trajectory_eligibility_witness :
  let t := Breadcrumbs.mkTrajectory (lit "aa")
             (map (Examples.cell_breadcrumb 0) (seq 0 50)
              ++ map (Examples.cell_breadcrumb 604800) (seq 0 50)) in
  let t0 := Breadcrumbs.mkTrajectory (lit "aa") (map (Examples.cell_breadcrumb 0) (seq 0 100)) in
  Breadcrumbs.meets_claim_requirements t = true
  /\ Breadcrumbs.meets_claim_requirements (remove_breadcrumb 3 t0) = false.
Proof.
  intros t t0.
  assert (Hr : Forall (fun b => 0 <= Breadcrumbs.timestamp b < 2 ^ 63) (Breadcrumbs.breadcrumbs t)).
  { apply Forall_forall. intros b Hb. cbn in Hb.
    repeat (destruct Hb as [<- | Hb]; [cbn; lia |]). destruct Hb. }
  assert (Hr0 : Forall (fun b => 0 <= Breadcrumbs.timestamp b < 2 ^ 63) (Breadcrumbs.breadcrumbs t0)).
  { apply Forall_forall. intros b Hb. cbn in Hb.
    repeat (destruct Hb as [<- | Hb]; [cbn; lia |]). destruct Hb. }
  split.
  - apply (proj1 (trajectory_eligibility t Hr)).
    split; [cbn; lia | split; [vm_compute; lia | cbn; lia]].
  - apply (proj2 (trajectory_eligibility t0 Hr0)).
    + cbn. repeat constructor; unfold ts_le; cbn; lia.
    + cbn. lia.
    + vm_compute. reflexivity.
Defined.

(* ------------------------------------------------------------------ *)
(** ** Subject normalization ([message_handler.rs]) *)

Section NormalizeProofs.
Import MessageHandler.
Variable T : UnicodeTables.

Lemma trim_start_suffix (s : rstring) : exists p, s = p ++ trim_start T s.
Proof.
  induction s as [| c s [p IH]]; cbn; [exists []; reflexivity |].
  destruct (is_whitespace T c); [exists (c :: p); cbn; f_equal; exact IH | exists []; reflexivity].
Qed.

Lemma trim_start_no_lead (s : rstring) : no_lead_ws T (trim_start T s).
Proof.
  induction s as [| c s IH]; cbn; [exact I |].
  destruct (is_whitespace T c) eqn:E; [exact IH | exact E].
Qed.

Lemma trim_start_id (s : rstring) : no_lead_ws T s -> trim_start T s = s.
Proof. destruct s as [| c s]; cbn; [reflexivity |]. intros ->. reflexivity. Qed.

Lemma suffix_inv (p q : rstring) :
  Forall (lower_ok T) (p ++ q) -> no_trail_ws T (p ++ q) ->
  Forall (lower_ok T) q /\ no_trail_ws T q.
Proof.
  intros Hf Ht. apply Forall_app in Hf as [_ Hf]. split; [exact Hf |].
  unfold no_trail_ws in *. rewrite rev_app_distr in Ht.
  destruct (rev q); [exact I | exact Ht].
Qed.

Lemma starts_with_nonempty (s : rstring) (c : rchar) (pr : rstring) :
  starts_with s (c :: pr) = true -> exists p, p <> [] /\ s = p ++ skipn (length (c :: pr)) s.
Proof.
  intros H. destruct s as [| d s]; [discriminate |].
  exists (firstn (length (c :: pr)) (d :: s)). split.
  - cbn. discriminate.
  - symmetry. apply firstn_skipn.
Qed.

(** One pass either changes nothing or drops a non-empty prefix and
    then leading whitespace. *)
Lemma strip_prefix_once_cases (s : rstring) :
  strip_prefix_once T s = s
  \/ exists p q, p <> [] /\ s = p ++ strip_prefix_once T s
                /\ strip_prefix_once T s = trim_start T q.
Proof.
  unfold strip_prefix_once.
  assert (K : forall c pr, starts_with s (c :: pr) = true ->
            exists p q, p <> [] /\ s = p ++ trim_start T (skipn (length (c :: pr)) s)
                        /\ trim_start T (skipn (length (c :: pr)) s)
                           = trim_start T q).
  { intros c pr H. destruct (starts_with_nonempty s c pr H) as [p [Hp Hs]].
    destruct (trim_start_suffix (skipn (length (c :: pr)) s)) as [p2 Hp2].
    exists (p ++ p2), (skipn (length (c :: pr)) s). split; [| split; [| reflexivity]].
    - destruct p; [congruence | discriminate].
    - rewrite <- app_assoc, <- Hp2. exact Hs. }
  destruct (starts_with s (lit "re:")) eqn:E1; [right; exact (K _ _ E1) |].
  destruct (starts_with s (lit "fwd:")) eqn:E2; [right; exact (K _ _ E2) |].
  destruct (starts_with s (lit "fw:")) eqn:E3; [right; exact (K _ _ E3) | left; reflexivity].
Qed.

Lemma strip_prefix_once_inv (s : rstring) :
  subject_inv T s -> subject_inv T (strip_prefix_once T s).
Proof.
  intros [Hf [Hl Ht]].
  destruct (strip_prefix_once_cases s) as [-> | [p [q [_ [Hs Hq]]]]];
    [split; auto |].
  rewrite Hs in Hf, Ht. destruct (suffix_inv p _ Hf Ht) as [Hf' Ht'].
  split; [exact Hf' | split; [rewrite Hq; apply trim_start_no_lead | exact Ht']].
Qed.

Lemma str_len_app (a b : rstring) : str_len (a ++ b) = (str_len a + str_len b)%nat.
Proof. unfold str_len. rewrite utf8_encode_app, length_app. reflexivity. Qed.

Lemma str_len_pos (p : rstring) : p <> [] -> (0 < str_len p)%nat.
Proof.
  destruct p as [| c p]; [congruence |]. intros _. unfold str_len, Utf8.encode. cbn.
  rewrite length_app. pose proof (utf8_encode_char_nonempty c).
  destruct (Utf8.encode_char c); [congruence | cbn; lia].
Qed.

Lemma strip_loop_enough_fuel (n : nat) (s : rstring) :
  (length s < n)%nat -> strip_prefix_once T (strip_loop T n s) = strip_loop T n s.
Proof.
  revert s. induction n as [| n IH]; intros s Hn; [lia |]. cbn.
  destruct (strip_prefix_once_cases s) as [E | [p [q [Hp [Hs _]]]]].
  - rewrite E, Nat.eqb_refl. exact E.
  - assert (Hlt : (str_len (strip_prefix_once T s) < str_len s)%nat).
    { rewrite Hs at 2. rewrite str_len_app. pose proof (str_len_pos p Hp). lia. }
    destruct (Nat.eqb_spec (str_len (strip_prefix_once T s)) (str_len s)); [lia |].
    apply IH. rewrite Hs in Hn. rewrite length_app in Hn.
    destruct p; [congruence | cbn in Hn; lia].
Qed.

Lemma strip_loop_inv (n : nat) (s : rstring) :
  subject_inv T s -> subject_inv T (strip_loop T n s).
Proof.
  revert s. induction n as [| n IH]; intros s H; cbn; [exact H |].
  pose proof (strip_prefix_once_inv s H) as H'.
  destruct (Nat.eqb _ _); [exact H' | exact (IH _ H')].
Qed.

End NormalizeProofs.

Section LowercaseProofs.
Import MessageHandler.
Variable T : UnicodeTables.
Hypothesis HT : wf_tables T.

(** What [str::to_lowercase] emits for one char. *)
Lemma lowercase_chunk_ok (before r : rstring) (c : rchar) :
  let chunk := if c =? capital_sigma then
                 [if sigma_is_final T before r then final_sigma else small_sigma]
               else char_to_lowercase T c in
  Forall (lower_ok T) chunk
  /\ (is_whitespace T c = false ->
      chunk <> [] /\ Forall (fun d => is_whitespace T d = false) chunk).
Proof.
  intros chunk. unfold chunk.
  destruct (Z.eqb_spec c capital_sigma) as [Hc | Hc].
  - split.
    + constructor; [| constructor].
      destruct (sigma_is_final T before r); split; try discriminate.
      * exact (sigma_final_fixed T HT).
      * exact (sigma_small_fixed T HT).
    + intros _. split; [discriminate |]. constructor; [| constructor].
      destruct (sigma_is_final T before r);
        [exact (sigma_final_nonspace T HT) | exact (sigma_small_nonspace T HT)].
  - split.
    + apply Forall_forall. intros d Hd. exact (lower_fixed T HT c d Hc Hd).
    + intros Hw. destruct (lower_nonspace T HT c Hw) as [Hne Hall].
      split; [exact Hne | apply Forall_forall; exact Hall].
Qed.

Lemma to_lowercase_from_lower_ok (b s : rstring) : Forall (lower_ok T) (to_lowercase_from T b s).
Proof.
  revert b. induction s as [| c s IH]; intros b; cbn; [constructor |].
  apply Forall_app. split; [exact (proj1 (lowercase_chunk_ok b s c)) | apply IH].
Qed.

Lemma to_lowercase_from_no_lead (b s : rstring) :
  no_lead_ws T s -> no_lead_ws T (to_lowercase_from T b s).
Proof.
  destruct s as [| c s]; cbn; [intros; exact I |]. intros Hc.
  destruct (proj2 (lowercase_chunk_ok b s c) Hc) as [Hne Hall].
  destruct (if c =? capital_sigma then _ else _) as [| d ch]; [congruence |].
  inversion Hall; subst. cbn. assumption.
Qed.

Lemma to_lowercase_from_no_trail (b s : rstring) :
  s <> [] -> no_trail_ws T s ->
  to_lowercase_from T b s <> [] /\ no_trail_ws T (to_lowercase_from T b s).
Proof.
  revert b. induction s as [| c r IH]; intros b Hne Ht; [congruence |]. cbn.
  destruct r as [| d r].
  - destruct (proj2 (lowercase_chunk_ok b [] c) Ht) as [Hch Hall].
    cbn. rewrite app_nil_r. split; [exact Hch |]. unfold no_trail_ws.
    apply Forall_rev in Hall.
    destruct (rev (if c =? capital_sigma then _ else _)) as [| e ch] eqn:Er.
    + apply (f_equal (@length Z)) in Er. rewrite length_rev in Er.
      destruct (if c =? capital_sigma then _ else _); [congruence | discriminate].
    + inversion Hall; subst. cbn. assumption.
  - destruct (IH (c :: b)) as [Hne' Ht']; [discriminate | |].
    + unfold no_trail_ws in *. cbn in Ht |- *.
      destruct (rev r ++ [d]) eqn:E; [destruct (rev r); discriminate | exact Ht].
    + split.
      { destruct (to_lowercase_from T (c :: b) (d :: r)); [congruence |].
        destruct (if c =? capital_sigma then _ else _); discriminate. }
      unfold no_trail_ws in *. rewrite rev_app_distr.
      destruct (rev (to_lowercase_from T (c :: b) (d :: r))) eqn:E.
      * apply (f_equal (@length Z)) in E. rewrite length_rev in E.
        destruct (to_lowercase_from T (c :: b) (d :: r)); [congruence | discriminate].
      * exact Ht'.
Qed.

End LowercaseProofs.

Section NormalizeFixpoint.
Import MessageHandler.
Variable T : UnicodeTables.

Lemma trim_ends (x : rstring) : no_lead_ws T (trim T x) /\ no_trail_ws T (trim T x).
Proof.
  unfold trim, trim_end, no_trail_ws. rewrite rev_involutive.
  split; [| apply trim_start_no_lead].
  destruct (trim_start_suffix T (rev (trim_start T x))) as [p Hp].
  pose proof (trim_start_no_lead T x) as Hl.
  apply (f_equal (@rev Z)) in Hp. rewrite rev_involutive, rev_app_distr in Hp.
  destruct (rev (trim_start T (rev (trim_start T x)))) as [| c z]; [exact I |].
  rewrite Hp in Hl. exact Hl.
Qed.

Lemma to_lowercase_from_id (b s : rstring) :
  Forall (lower_ok T) s -> to_lowercase_from T b s = s.
Proof.
  intros H. revert b. induction H as [| c s [Hc Hs] _ IH]; intros b; cbn; [reflexivity |].
  destruct (Z.eqb_spec c capital_sigma); [congruence |]. rewrite Hc, IH. reflexivity.
Qed.

Lemma normalize_subject_fixed (s : rstring) :
  subject_inv T s -> strip_prefix_once T s = s -> normalize_subject T s = s.
Proof.
  intros [Hf [Hl Ht]] Hs. unfold normalize_subject, trim, trim_end, to_lowercase.
  rewrite (trim_start_id T s Hl), (trim_start_id T (rev s) Ht), rev_involutive.
  rewrite (to_lowercase_from_id [] s Hf). cbn. rewrite Hs, Nat.eqb_refl. reflexivity.
Qed.

Lemma normalize_subject_inv (x : rstring) :
  wf_tables T ->
  subject_inv T (normalize_subject T x)
  /\ strip_prefix_once T (normalize_subject T x) = normalize_subject T x.
Proof.
  intros HT. unfold normalize_subject.
  split; [| apply strip_loop_enough_fuel; lia].
  apply strip_loop_inv. destruct (trim_ends x) as [Hl Ht].
  split; [apply to_lowercase_from_lower_ok; exact HT |].
  split; [apply to_lowercase_from_no_lead; assumption |].
  unfold to_lowercase. destruct (trim T x) as [| c s] eqn:E; [exact I |].
  apply (to_lowercase_from_no_trail T HT [] (c :: s)); [discriminate | exact Ht].
Qed.

End NormalizeFixpoint.

(** On ASCII text, [normalize_subject] only consults the ASCII part of the
    tables. *)
Section AsciiAgreement.
Import MessageHandler.
Variable T : UnicodeTables.
Hypothesis HA : agrees_on_ascii T.

Lemma ascii_skipn (n : nat) (s : rstring) : ascii_str s -> ascii_str (skipn n s).
Proof.
  revert s. induction n as [| n IH]; intros s Hs; [exact Hs |].
  destruct s as [| c s]; [constructor |]. inversion Hs; subst. apply IH. assumption.
Qed.

Lemma ascii_trim_start (U : UnicodeTables) (s : rstring) :
  ascii_str s -> ascii_str (trim_start U s).
Proof.
  induction 1 as [| c s Hc Hs IH]; [constructor |].
  cbn. destruct (is_whitespace U c); [exact IH | constructor; assumption].
Qed.

Lemma trim_start_agree (s : rstring) :
  ascii_str s -> trim_start T s = trim_start Examples.ascii_tables s.
Proof.
  induction 1 as [| c s Hc Hs IH]; [reflexivity |].
  cbn. rewrite (proj1 (HA c Hc)), IH. reflexivity.
Qed.

Lemma trim_agree (s : rstring) : ascii_str s -> trim T s = trim Examples.ascii_tables s.
Proof.
  intros Hs. unfold trim, trim_end.
  rewrite (trim_start_agree s Hs), trim_start_agree; [reflexivity |].
  apply Forall_rev, ascii_trim_start, Hs.
Qed.

Lemma ascii_trim (s : rstring) : ascii_str s -> ascii_str (trim Examples.ascii_tables s).
Proof.
  intros Hs. unfold trim, trim_end.
  rewrite <- (rev_involutive (trim_start _ (rev _))).
  apply Forall_rev. rewrite rev_involutive.
  apply ascii_trim_start, Forall_rev, ascii_trim_start, Hs.
Qed.

Lemma to_lowercase_from_agree (b s : rstring) :
  ascii_str s -> to_lowercase_from T b s = to_lowercase_from Examples.ascii_tables b s.
Proof.
  intros Hs. revert b. induction Hs as [| c s Hc Hs IH]; intros b; [reflexivity |].
  cbn. destruct (Z.eqb_spec c capital_sigma) as [E | _].
  - unfold capital_sigma in E. lia.
  - rewrite (proj2 (HA c Hc)), IH. reflexivity.
Qed.

Lemma ascii_to_lowercase_from (b s : rstring) :
  ascii_str s -> ascii_str (to_lowercase_from Examples.ascii_tables b s).
Proof.
  intros Hs. revert b. induction Hs as [| c s Hc Hs IH]; intros b; [constructor |].
  cbn. destruct (Z.eqb_spec c capital_sigma) as [E | _].
  - unfold capital_sigma in E. lia.
  - constructor; [| apply IH]. unfold ascii_lower.
    destruct (Z.leb_spec 65 c), (Z.leb_spec c 90); cbn; lia.
Qed.

Lemma strip_prefix_once_agree (s : rstring) :
  ascii_str s -> strip_prefix_once T s = strip_prefix_once Examples.ascii_tables s
  /\ ascii_str (strip_prefix_once Examples.ascii_tables s).
Proof.
  intros Hs. unfold strip_prefix_once.
  destruct (starts_with s (lit "re:")); [| destruct (starts_with s (lit "fwd:"));
    [| destruct (starts_with s (lit "fw:"))]];
  try (split; [apply trim_start_agree | apply ascii_trim_start]; apply ascii_skipn, Hs).
  split; [reflexivity | exact Hs].
Qed.

Lemma strip_loop_agree (n : nat) (s : rstring) :
  ascii_str s -> strip_loop T n s = strip_loop Examples.ascii_tables n s.
Proof.
  revert s. induction n as [| n IH]; intros s Hs; [reflexivity |].
  cbn [strip_loop]. destruct (strip_prefix_once_agree s Hs) as [E Ha].
  rewrite E, IH by exact Ha. reflexivity.
Qed.

Lemma normalize_subject_agree (s : rstring) :
  ascii_str s -> normalize_subject T s = normalize_subject Examples.ascii_tables s.
Proof.
  intros Hs. unfold normalize_subject, to_lowercase.
  rewrite trim_agree, to_lowercase_from_agree by (try apply ascii_trim; exact Hs).
  apply strip_loop_agree, ascii_to_lowercase_from, ascii_trim, Hs.
Qed.

End AsciiAgreement.

Lemma normalize_example (T : MessageHandler.UnicodeTables) :
  MessageHandler.agrees_on_ascii T ->
  MessageHandler.normalize_subject T (lit "Re: Fwd:  Re: hello") = lit "hello".
Proof.
  intros H. rewrite normalize_subject_agree by (exact H || (vm_compute; repeat constructor; discriminate)).
  vm_compute. reflexivity.
Qed.

(** C9. Under Unicode tables with the properties [wf_tables],
    [normalize_subject] is idempotent; with tables that agree with the
    standard library on ASCII, [normalize_subject("Re: Fwd:  Re: hello")]
    is ["hello"]. *)
Theorem normalize_subject_idempotent (T : MessageHandler.UnicodeTables) :
  MessageHandler.wf_tables T ->
  (forall x, MessageHandler.normalize_subject T (MessageHandler.normalize_subject T x)
             = MessageHandler.normalize_subject T x)
  /\ (MessageHandler.agrees_on_ascii T ->
      MessageHandler.normalize_subject T (lit "Re: Fwd:  Re: hello") = lit "hello").
Proof.
  intros HT. split.
  - intros x. destruct (normalize_subject_inv T x HT) as [Hi Hs].
    exact (normalize_subject_fixed T _ Hi Hs).
  - apply normalize_example.
Qed.

Lemma ascii_tables_wf : MessageHandler.wf_tables Examples.ascii_tables.
Proof.
  assert (Hl : forall c, MessageHandler.ascii_lower c <> MessageHandler.capital_sigma
                        \/ c = MessageHandler.capital_sigma).
  { intros c. unfold MessageHandler.ascii_lower, MessageHandler.capital_sigma.
    destruct (Z.leb_spec 65 c), (Z.leb_spec c 90); cbn; lia. }
  assert (Hw : forall c, MessageHandler.ascii_is_whitespace c = false ->
                        MessageHandler.ascii_is_whitespace (MessageHandler.ascii_lower c) = false).
  { intros c. unfold MessageHandler.ascii_lower, MessageHandler.ascii_is_whitespace.
    destruct (Z.leb_spec 65 c), (Z.leb_spec c 90); cbn; auto.
    intros _. destruct (Z.eqb_spec (c + 32) 32), (Z.leb_spec 9 (c + 32)), (Z.leb_spec (c + 32) 13);
      cbn; lia || reflexivity. }
  split; cbn.
  - intros c d Hc [<- | []]. split; [f_equal; apply ascii_lower_idem |].
    destruct (Hl c); [assumption | contradiction].
  - intros c Hc. split; [discriminate |]. intros d [<- | []]. apply Hw. exact Hc.
  - reflexivity.
  - reflexivity.
  - reflexivity.
  - reflexivity.
  - reflexivity.
Qed.

Lemma normalize_subject_idempotent_witness :
  MessageHandler.normalize_subject Examples.ascii_tables
    (MessageHandler.normalize_subject Examples.ascii_tables (lit " RE: Fw: Hi "))
  = MessageHandler.normalize_subject Examples.ascii_tables (lit " RE: Fw: Hi ")
  /\ MessageHandler.normalize_subject Examples.ascii_tables (lit "Re: Fwd:  Re: hello")
     = lit "hello".
Proof.
  destruct (normalize_subject_idempotent Examples.ascii_tables ascii_tables_wf) as [H1 H2].
  split; [apply H1 |]. apply H2.
  intros c Hc. split; reflexivity.
Defined.

(* ------------------------------------------------------------------ *)
(** ** Hex round trip *)

Lemma hex_val_digit (d : Z) : 0 <= d < 16 -> Hex.val (Hex.digit d) = Some d.
Proof.
  intros Hd. unfold Hex.digit, Hex.val.
  destruct (Z.ltb_spec d 10).
  - destruct (Z.leb_spec 48 (48 + d)), (Z.leb_spec (48 + d) 57); cbn [andb]; try lia.
    f_equal; lia.
  - destruct (Z.leb_spec 48 (87 + d)), (Z.leb_spec (87 + d) 57); cbn [andb]; try lia;
    destruct (Z.leb_spec 97 (87 + d)), (Z.leb_spec (87 + d) 102); cbn [andb]; try lia.
    f_equal; lia.
Qed.

Lemma hex_encode_digits (b : bytes) :
  Forall is_byte b -> Forall (fun c => Hex.val c <> None) (Hex.encode b).
Proof.
  induction 1 as [| x b Hx _ IH]; [constructor |].
  unfold is_byte in Hx. cbn. constructor; [| constructor; [| exact IH]].
  - rewrite hex_val_digit; [discriminate | zcase].
  - rewrite hex_val_digit; [discriminate | zcase].
Qed.

Lemma hex_encode_length (b : bytes) : length (Hex.encode b) = (2 * length b)%nat.
Proof.
  induction b as [| x b IH]; [reflexivity |].
  unfold Hex.encode in *. cbn [flat_map app length]. rewrite IH. lia.
Qed.

Lemma decode_pairs_encode (i : nat) (b : bytes) :
  Forall is_byte b -> Hex.decode_pairs i (Hex.encode b) = Ok b.
Proof.
  intros H. revert i. induction H as [| x b Hx _ IH]; intros i; [reflexivity |].
  unfold is_byte in Hx. cbn [Hex.encode flat_map app].
  cbn [Hex.decode_pairs]. rewrite !hex_val_digit by zcase.
  fold (Hex.encode b). rewrite IH. cbn. do 2 f_equal. zcase.
Qed.

(** [hex::decode(hex::encode(b)) = Ok(b)]. *)
Lemma hex_decode_encode (b : bytes) : Forall is_byte b -> hex_decode (Hex.encode b) = Ok b.
Proof.
  intros H. unfold hex_decode, Hex.decode.
  rewrite hex_string_encode by (apply hex_encode_digits; exact H).
  rewrite hex_encode_length, Nat.odd_mul, Nat.odd_2. cbn [andb].
  rewrite decode_pairs_encode by exact H. reflexivity.
Qed.

Lemma hex_encode_valid (b : bytes) : Forall is_byte b -> Forall valid_char (Hex.encode b).
Proof.
  intros H. eapply Forall_impl; [| apply hex_encode_digits, H].
  intros c Hc. apply hex_val_ascii in Hc. unfold valid_char. lia.
Qed.

(* ------------------------------------------------------------------ *)
(** ** Decryption *)

Lemma decrypt_from_sender_spec {P : Primitives} (sk : bytes) (e : Encryption.EncryptedPayload) :
  length (Encryption.ephemeral_public_key e) = 32%nat -> length (Encryption.nonce e) = 12%nat ->
  Encryption.decrypt_from_sender sk e =
  match aead_open (hkdf_sha256_32 (x25519 sk (Encryption.ephemeral_public_key e))
                     (lit "gns-envelope-v1:" ++ Encryption.ephemeral_public_key e
                      ++ x25519 sk x25519_basepoint))
          (Encryption.nonce e) (Encryption.ciphertext e) with
  | Some p => Ok p
  | None => Err Encryption.auth_failed
  end.
Proof.
  intros H1 H2. unfold Encryption.decrypt_from_sender. rewrite H1, H2. reflexivity.
Qed.

(** C3. With a 32-byte ephemeral key and a 12-byte nonce, decryption
    either returns the plaintext or fails with the one error value
    [DecryptionFailed "Authentication failed"]; it fails so whenever the
    AEAD tag does not verify under the derived key, and when the
    decrypting key is not the one the payload was encrypted for (assuming
    the key derivation separates different [info] inputs and the AEAD
    rejects a ciphertext under another key). *)
Theorem decrypt_failure_uniform {P : Primitives} :
  (forall sk e,
     length (Encryption.ephemeral_public_key e) = 32%nat ->
     length (Encryption.nonce e) = 12%nat ->
     (exists p, Encryption.decrypt_from_sender sk e = Ok p)
     \/ Encryption.decrypt_from_sender sk e = Err Encryption.auth_failed)
  /\ (forall sk e,
     length (Encryption.ephemeral_public_key e) = 32%nat ->
     length (Encryption.nonce e) = 12%nat ->
     aead_open (hkdf_sha256_32 (x25519 sk (Encryption.ephemeral_public_key e))
                  (lit "gns-envelope-v1:" ++ Encryption.ephemeral_public_key e
                   ++ x25519 sk x25519_basepoint))
       (Encryption.nonce e) (Encryption.ciphertext e) = None ->
     Encryption.decrypt_from_sender sk e = Err Encryption.auth_failed)
  /\ (forall ephemeral_secret nonce_bytes plaintext recipient_pub sk e,
     (forall s s' i i', hkdf_sha256_32 s i = hkdf_sha256_32 s' i' -> i = i') ->
     (forall k k' n m, k <> k' -> aead_open k' n (aead_seal k n m) = None) ->
     length (x25519 ephemeral_secret x25519_basepoint) = 32%nat ->
     length nonce_bytes = 12%nat ->
     x25519 sk x25519_basepoint <> recipient_pub ->
     Encryption.encrypt_for_recipient ephemeral_secret nonce_bytes plaintext recipient_pub
       = Ok e ->
     Encryption.decrypt_from_sender sk e = Err Encryption.auth_failed).
Proof.
  split; [| split].
  - intros sk e H1 H2. rewrite (decrypt_from_sender_spec sk e H1 H2).
    destruct (aead_open _ _ _) as [p |]; [left; exists p |]; auto.
  - intros sk e H1 H2 H3. rewrite (decrypt_from_sender_spec sk e H1 H2), H3. reflexivity.
  - intros esk n m rpub sk e Hkdf Hbind H1 H2 Hne He.
    unfold Encryption.encrypt_for_recipient, Encryption.derive_symmetric_key in He.
    cbn [bind] in He. injection He as <-.
    rewrite decrypt_from_sender_spec by assumption.
    cbn [Encryption.ephemeral_public_key Encryption.nonce Encryption.ciphertext].
    rewrite Hbind; [reflexivity |].
    intros Hk. apply Hkdf in Hk. apply (app_inv_head (lit "gns-envelope-v1:")) in Hk.
    apply app_inv_head in Hk.
    apply Hne. symmetry. exact Hk.
Qed.

Lemma toy_open_seal (k n m : bytes) : Examples.toy_open k n (Examples.toy_seal k n m) = Some m.
Proof.
  unfold Examples.toy_open, Examples.toy_seal. cbn [firstn skipn length].
  rewrite firstn_app, Nat.sub_diag, firstn_all, firstn_O, app_nil_r, rstring_eqb_true.
  rewrite skipn_app, Nat.sub_diag, skipn_all, skipn_O. reflexivity.
Qed.

Lemma toy_open_wrong_key (k k' n m : bytes) :
  k <> k' -> Examples.toy_open k' n (Examples.toy_seal k n m) = None.
Proof.
  intros Hne. unfold Examples.toy_open, Examples.toy_seal.
  unfold rstring_eqb. destruct (list_eq_dec _ _ _) as [Heq |]; [exfalso | reflexivity].
  cbn [firstn] in Heq. injection Heq as Hl Hk. apply Nat2Z.inj in Hl.
  rewrite <- Hl, firstn_app, Nat.sub_diag, firstn_all, firstn_O, app_nil_r in Hk.
  exact (Hne Hk).
Qed.

Lemma decrypt_failure_uniform_witness :
  let e := match @Encryption.encrypt_for_recipient Examples.toy_primitives (repeat 5 32)
                   (repeat 6 12) (lit "hi") (repeat 3 32) with
           | Ok e => e
           | Err _ => Encryption.mkPayload [] [] []
           end in
  @Encryption.decrypt_from_sender Examples.toy_primitives (repeat 4 32) e
  = Err Encryption.auth_failed.
Proof.
  intros e.
  apply (proj2 (proj2 (@decrypt_failure_uniform Examples.toy_primitives))
           (repeat 5 32) (repeat 6 12) (lit "hi") (repeat 3 32) (repeat 4 32) e).
  - intros s s' i i' H. exact H.
  - intros k k' n m. apply toy_open_wrong_key.
  - reflexivity.
  - reflexivity.
  - cbn. discriminate.
  - vm_compute. reflexivity.
Defined.

(* ------------------------------------------------------------------ *)
(** ** Opening an envelope *)

Section EnvelopeProofs.
Context {P : Primitives}.
Hypothesis CO : crypto_ok P.

Lemma open_envelope_object (R : Identity.GnsIdentity) (e : Envelope.GnsEnvelope)
    (ep : Encryption.EncryptedPayload) :
  Envelope.encrypted_payload e = Encryption.Object ep ->
  Envelope.open_envelope R e =
  (sv <- Signing.verify_signature_hex (Envelope.from_public_key e) (signed_bytes e)
           (Envelope.signature e) ;;
   pl <- Encryption.decrypt_from_sender (Identity.x25519_secret R) ep ;;
   Ok (Envelope.mkOpened (Envelope.from_public_key e) (Envelope.from_handle e)
         (Envelope.payload_type e) pl sv (Envelope.id e) (Envelope.timestamp e)
         (Envelope.thread_id e) (Envelope.reply_to_id e))).
Proof. destruct e; cbn; intros ->; reflexivity. Qed.

Lemma verify_signature_hex_own (sk m m0 : bytes) :
  Signing.verify_signature_hex (Hex.encode (ed25519_public sk)) m
    (Hex.encode (ed25519_sign sk m0))
  = Ok (ed25519_verify (ed25519_public sk) m (ed25519_sign sk m0)).
Proof.
  unfold Signing.verify_signature_hex.
  rewrite !hex_decode_encode by apply CO. cbn [bind].
  rewrite (co_public_len _ CO), (co_sign_len _ CO). cbn [Nat.eqb negb].
  unfold Signing.verify_signature. rewrite (co_point_ok _ CO). reflexivity.
Qed.

Lemma decrypt_for_recipient (esk n m xs : bytes) :
  length n = 12%nat ->
  match Encryption.encrypt_for_recipient esk n m (x25519 xs x25519_basepoint) with
  | Ok ep => Encryption.decrypt_from_sender xs ep = Ok m
  | Err _ => False
  end.
Proof.
  intros Hn. unfold Encryption.encrypt_for_recipient, Encryption.derive_symmetric_key.
  cbn [bind]. rewrite decrypt_from_sender_spec by first [apply (co_x25519_len _ CO) | exact Hn].
  cbn [Encryption.ephemeral_public_key Encryption.nonce Encryption.ciphertext].
  rewrite (co_x25519_comm _ CO), (co_aead _ CO). reflexivity.
Qed.

(** What [create_envelope] returns when addressed to an identity's keys. *)
Lemma create_envelope_spec (envelope_id : rstring) (now_ms : Z) (esk nonce_bytes : bytes)
    (S_sk R_sk : bytes) (t : rstring) (p : bytes) :
  length nonce_bytes = 12%nat ->
  let S := Identity.from_signing_key S_sk in
  let R := Identity.from_signing_key R_sk in
  exists e ep,
    Envelope.create_envelope envelope_id now_ms esk nonce_bytes S (Identity.public_key_hex R)
      (Identity.encryption_key_hex R) t p = Ok e
    /\ Envelope.id e = envelope_id /\ Envelope.timestamp e = now_ms
    /\ Envelope.payload_type e = t
    /\ Envelope.to_public_keys e = [Identity.public_key_hex R]
    /\ Envelope.from_public_key e = Hex.encode (ed25519_public S_sk)
    /\ Envelope.signature e = Hex.encode (ed25519_sign S_sk (signed_bytes e))
    /\ Envelope.encrypted_payload e = Encryption.Object ep
    /\ Encryption.decrypt_from_sender (Identity.x25519_secret R) ep = Ok p.
Proof.
  intros Hn S R. unfold Envelope.create_envelope.
  unfold Identity.encryption_key_hex, Identity.encryption_public_key_bytes.
  cbn [R Identity.from_signing_key Identity.x25519_public Identity.x25519_secret].
  rewrite hex_decode_encode by apply CO. cbn [bind].
  rewrite (co_x25519_len _ CO). cbn [Nat.eqb negb].
  pose proof (decrypt_for_recipient esk nonce_bytes p
                (Identity.ed25519_to_x25519_secret R_sk) Hn) as Hd.
  destruct (Encryption.encrypt_for_recipient _ _ _ _) as [ep |]; [| contradiction].
  cbn [bind]. do 2 eexists. split; [reflexivity |].
  repeat split; try reflexivity. exact Hd.
Qed.

(** Opening, with the recipient's identity, a created envelope whose
    signer key, signature and encrypted payload are kept: the payload is
    decrypted, and the signature is checked against the bytes of the
    header of the envelope opened. *)
Lemma open_created (envelope_id : rstring) (now_ms : Z) (esk nonce_bytes : bytes)
    (S_sk R_sk : bytes) (t : rstring) (p : bytes) (e e' : Envelope.GnsEnvelope) :
  length nonce_bytes = 12%nat ->
  Envelope.create_envelope envelope_id now_ms esk nonce_bytes (Identity.from_signing_key S_sk)
    (Identity.public_key_hex (Identity.from_signing_key R_sk))
    (Identity.encryption_key_hex (Identity.from_signing_key R_sk)) t p = Ok e ->
  Envelope.from_public_key e' = Envelope.from_public_key e ->
  Envelope.signature e' = Envelope.signature e ->
  Envelope.encrypted_payload e' = Envelope.encrypted_payload e ->
  exists o, Envelope.open_envelope (Identity.from_signing_key R_sk) e' = Ok o
    /\ Envelope.o_payload o = p
    /\ Envelope.o_signature_valid o
       = ed25519_verify (ed25519_public S_sk) (signed_bytes e')
           (ed25519_sign S_sk (signed_bytes e)).
Proof.
  intros Hn Hc Hf Hs Hp.
  destruct (create_envelope_spec envelope_id now_ms esk nonce_bytes S_sk R_sk t p Hn)
    as [e0 [ep [Hc0 [_ [_ [_ [_ [Hf0 [Hs0 [Hp0 Hd]]]]]]]]]].
  rewrite Hc in Hc0. injection Hc0 as <-.
  rewrite (open_envelope_object _ e' ep) by congruence.
  rewrite Hf, Hs, Hf0, Hs0, verify_signature_hex_own. cbn [bind].
  rewrite Hd. cbn [bind]. eexists. split; [reflexivity |]. split; reflexivity.
Qed.

End EnvelopeProofs.

(** C1. Under the properties [crypto_ok] of the primitives, an envelope
    created by [S] for the Ed25519 and X25519 keys of [R] is created, and
    opening it with [R] succeeds, returns the payload and reports a valid
    signature. *)
Theorem envelope_roundtrip {P : Primitives} (CO : crypto_ok P)
    (S_sk R_sk : bytes) (envelope_id : rstring) (now_ms : Z) (esk nonce_bytes : bytes)
    (t : rstring) (p : bytes) :
  length nonce_bytes = 12%nat ->
  let S := Identity.from_signing_key S_sk in
  let R := Identity.from_signing_key R_sk in
  exists e o,
    Envelope.create_envelope envelope_id now_ms esk nonce_bytes S (Identity.public_key_hex R)
      (Identity.encryption_key_hex R) t p = Ok e
    /\ Envelope.open_envelope R e = Ok o
    /\ Envelope.o_payload o = p
    /\ Envelope.o_signature_valid o = true.
Proof.
  intros Hn S R.
  destruct (create_envelope_spec CO envelope_id now_ms esk nonce_bytes S_sk R_sk t p Hn)
    as [e [_ [Hc _]]].
  destruct (open_created CO envelope_id now_ms esk nonce_bytes S_sk R_sk t p e e Hn Hc
              eq_refl eq_refl eq_refl) as [o [Ho [Hpl Hv]]].
  exists e, o. split; [exact Hc |]. split; [exact Ho |]. split; [exact Hpl |].
  rewrite Hv. apply CO.
Qed.

(* ------------------------------------------------------------------ *)
(** ** The stand-in primitives satisfy [crypto_ok] *)

Lemma toy_public_length (sk : bytes) : length (Examples.toy_public sk) = 32%nat.
Proof.
  unfold Examples.toy_public. rewrite length_map, length_firstn, length_app, repeat_length.
  lia.
Qed.

Lemma toy_public_bytes (sk : bytes) : Forall is_byte (Examples.toy_public sk).
Proof.
  unfold Examples.toy_public. apply Forall_map, Forall_forall.
  intros x _. unfold is_byte. apply Z.mod_pos_bound. lia.
Qed.

Lemma repeat_bytes (b : Z) (n : nat) : is_byte b -> Forall is_byte (repeat b n).
Proof. intros H. apply Forall_forall. intros x Hx. apply repeat_spec in Hx. subst. exact H. Qed.

Lemma lit_valid (s : string) : Forall valid_char (lit s).
Proof.
  unfold lit. apply Forall_map, Forall_forall. intros a _.
  pose proof (Ascii.nat_ascii_bounded a). unfold valid_char. lia.
Qed.

Lemma toy_crypto_ok : crypto_ok Examples.toy_primitives.
Proof.
  split; cbn -[Examples.toy_public Examples.toy_tag Examples.toy_open Examples.toy_seal lit repeat rstring_eqb].
  - reflexivity.
  - reflexivity.
  - intros. apply repeat_bytes. unfold is_byte. lia.
  - apply toy_open_seal.
  - apply toy_public_length.
  - apply toy_public_bytes.
  - intros sk. rewrite toy_public_length. reflexivity.
  - intros sk _. rewrite length_app, toy_public_length. reflexivity.
  - intros sk _. apply Forall_app. split; apply toy_public_bytes.
  - intros. apply rstring_eqb_true.
  - intros. apply lit_valid.
Qed.

Lemma toy_signing_crypto_ok : crypto_ok Examples.toy_signing_primitives.
Proof.
  split; cbn -[Examples.toy_public Examples.toy_tag Examples.toy_open Examples.toy_seal lit repeat rstring_eqb].
  - reflexivity.
  - reflexivity.
  - intros. apply repeat_bytes. unfold is_byte. lia.
  - apply toy_open_seal.
  - apply toy_public_length.
  - apply toy_public_bytes.
  - intros sk. rewrite toy_public_length. reflexivity.
  - intros sk m. rewrite length_app, toy_public_length.
    unfold Examples.toy_tag. destruct (rstring_eqb _ _); reflexivity.
  - intros sk m. apply Forall_app. split; [apply toy_public_bytes |].
    unfold Examples.toy_tag. destruct (rstring_eqb _ _); apply repeat_bytes; unfold is_byte; lia.
  - intros. apply rstring_eqb_true.
  - intros. apply lit_valid.
Qed.

Lemma envelope_roundtrip_witness :
  let S := @Identity.from_signing_key Examples.toy_primitives Examples.sk_alice in
  let R := @Identity.from_signing_key Examples.toy_primitives Examples.sk_bob in
  exists e o,
    @Envelope.create_envelope Examples.toy_primitives (lit "m1") 1000 (repeat 5 32)
      (repeat 6 12) S (@Identity.public_key_hex Examples.toy_primitives R)
      (Identity.encryption_key_hex R) (lit "text") (lit "hi") = Ok e
    /\ @Envelope.open_envelope Examples.toy_primitives R e = Ok o
    /\ Envelope.o_payload o = lit "hi"
    /\ Envelope.o_signature_valid o = true.
Proof.
  exact (envelope_roundtrip toy_crypto_ok Examples.sk_alice Examples.sk_bob (lit "m1") 1000
           (repeat 5 32) (repeat 6 12) (lit "text") (lit "hi") eq_refl).
Defined.

(* ------------------------------------------------------------------ *)
(** ** The signed header bytes determine the header *)

Lemma header_sort {A} (a b c d e f : A) :
  Signing.sort_pairs [(lit "id", a); (lit "fromPublicKey", b); (lit "toPublicKeys", c);
                      (lit "payloadType", d); (lit "timestamp", e);
                      (lit "encryptedPayloadHash", f)]
  = [(lit "encryptedPayloadHash", f); (lit "fromPublicKey", b); (lit "id", a);
     (lit "payloadType", d); (lit "timestamp", e); (lit "toPublicKeys", c)].
Proof. reflexivity. Qed.

Lemma header_canonical (h : Envelope.EnvelopeHeader) :
  Signing.canonical_json (Envelope.header_to_value h) =
  lit "{" ++ [dq] ++ lit "encryptedPayloadHash" ++ [dq] ++ lit ":"
  ++ quoted (Envelope.h_encrypted_payload_hash h) ++ lit ","
  ++ [dq] ++ lit "fromPublicKey" ++ [dq] ++ lit ":"
  ++ quoted (Envelope.h_from_public_key h) ++ lit ","
  ++ [dq] ++ lit "id" ++ [dq] ++ lit ":" ++ quoted (Envelope.h_id h) ++ lit ","
  ++ [dq] ++ lit "payloadType" ++ [dq] ++ lit ":"
  ++ quoted (Envelope.h_payload_type h) ++ lit ","
  ++ [dq] ++ lit "timestamp" ++ [dq] ++ lit ":"
  ++ Signing.number_to_string (Envelope.h_timestamp h) ++ lit ","
  ++ [dq] ++ lit "toPublicKeys" ++ [dq] ++ lit ":" ++ lit "["
  ++ Signing.join (lit ",") (map quoted (Envelope.h_to_public_keys h)) ++ lit "]"
  ++ lit "}".
Proof.
  destruct h. unfold Envelope.header_to_value. cbn [Signing.canonical_json].
  cbn [map fst snd]. rewrite header_sort. cbn [map fst snd Signing.join Signing.canonical_json].
  unfold quoted. rewrite map_map. repeat rewrite <- app_assoc. reflexivity.
Qed.

Lemma unescape_char (c : rchar) (x : rstring) :
  0 <= c -> unescape (Signing.escape_char c ++ x) = opt_cons c (unescape x).
Proof.
  intros Hc. unfold Signing.escape_char.
  destruct (Z.eqb_spec c 34); [subst; reflexivity |].
  destruct (Z.eqb_spec c 92); [subst; reflexivity |].
  destruct (Z.eqb_spec c 10); [subst; reflexivity |].
  destruct (Z.eqb_spec c 13); [subst; reflexivity |].
  destruct (Z.eqb_spec c 9); [subst; reflexivity |].
  destruct (Signing.is_control c) eqn:Ec.
  - assert (Hb : c < 160).
    { unfold Signing.is_control in Ec.
      destruct (Z.ltb_spec c 32); [lia |].
      destruct (Z.leb_spec 127 c), (Z.leb_spec c 159); cbn in Ec; lia || discriminate. }
    unfold Signing.hex4. cbn [app unescape Z.eqb Pos.eqb].
    rewrite !hex_val_digit by (apply Z.mod_pos_bound; lia).
    f_equal. zcase.
  - cbn [app unescape].
    destruct (Z.eqb_spec c 34); [contradiction |].
    destruct (Z.eqb_spec c 92); [contradiction | reflexivity].
Qed.

Lemma unescape_escape (s r : rstring) :
  Forall valid_char s -> unescape (Signing.escape_json_string s ++ dq :: r) = Some (s, r).
Proof.
  induction 1 as [| c s Hc _ IH]; [reflexivity |].
  unfold Signing.escape_json_string in *. cbn [flat_map].
  rewrite <- app_assoc, unescape_char by (destruct Hc; lia). rewrite IH. reflexivity.
Qed.

Lemma quoted_inj (a b x y : rstring) :
  Forall valid_char a -> Forall valid_char b -> quoted a ++ x = quoted b ++ y -> a = b /\ x = y.
Proof.
  intros Ha Hb E. unfold quoted in E. cbn [app] in E. injection E as E.
  rewrite <- !app_assoc in E. cbn [app] in E.
  pose proof (unescape_escape a x Ha) as Ua. pose proof (unescape_escape b y Hb) as Ub.
  rewrite E, Ub in Ua. injection Ua as -> ->. auto.
Qed.

Lemma uint_chars_digits (d : Decimal.uint) : Forall (fun c => 48 <= c <= 57) (Signing.uint_chars d).
Proof. induction d; cbn; constructor; auto; lia. Qed.

Lemma uint_chars_inj (d d' : Decimal.uint) :
  Signing.uint_chars d = Signing.uint_chars d' -> d = d'.
Proof.
  revert d'. induction d; intros d'; destruct d'; cbn; intros H; inversion H; f_equal; auto.
Qed.

Lemma number_to_string_inj (a b : Z) :
  Signing.number_to_string a = Signing.number_to_string b -> a = b.
Proof.
  intros H. rewrite <- (DecimalZ.of_to a), <- (DecimalZ.of_to b). f_equal.
  unfold Signing.number_to_string in H.
  destruct (Z.to_int a) as [d | d], (Z.to_int b) as [d' | d'].
  - f_equal. apply uint_chars_inj, H.
  - exfalso. destruct d; discriminate.
  - exfalso. destruct d'; discriminate.
  - injection H as H. f_equal. apply uint_chars_inj, H.
Qed.

Lemma number_to_string_chars (n : Z) :
  Forall (fun c => c = 45 \/ 48 <= c <= 57) (Signing.number_to_string n).
Proof.
  unfold Signing.number_to_string.
  destruct (Z.to_int n) as [d | d]; [| constructor; [left; reflexivity |]];
  eapply Forall_impl; try apply uint_chars_digits; cbn; intros; right; assumption.
Qed.

Lemma app_sep_inj (x : Z) (l1 l2 r1 r2 : list Z) :
  ~ In x l1 -> ~ In x l2 -> l1 ++ x :: r1 = l2 ++ x :: r2 -> l1 = l2 /\ r1 = r2.
Proof.
  revert l2. induction l1 as [| a l1 IH]; intros [| b l2] H1 H2 E; cbn in E.
  - injection E as E. auto.
  - injection E as -> _. exfalso. apply H2. left. reflexivity.
  - injection E as -> _. exfalso. apply H1. left. reflexivity.
  - injection E as -> E. destruct (IH l2) as [-> ->]; auto.
    + intros H. apply H1. right. exact H.
    + intros H. apply H2. right. exact H.
Qed.

Lemma number_no_comma (n : Z) : ~ In 44 (Signing.number_to_string n).
Proof.
  intros H. pose proof (number_to_string_chars n) as F. rewrite Forall_forall in F.
  apply F in H. lia.
Qed.

Lemma join_quoted_inj (a b : list rstring) :
  Forall (Forall valid_char) a -> Forall (Forall valid_char) b ->
  Signing.join (lit ",") (map quoted a) = Signing.join (lit ",") (map quoted b) -> a = b.
Proof.
  revert b. induction a as [| s a IH]; intros b Ha Hb E.
  - destruct b as [| t b]; [reflexivity |]. exfalso.
    destruct b; cbn in E; discriminate.
  - destruct b as [| t b]; [exfalso; destruct a; cbn in E; discriminate |].
    inversion Ha as [| ? ? Hs Ha']; inversion Hb as [| ? ? Ht Hb']; subst.
    destruct a as [| s' a], b as [| t' b]; cbn [map Signing.join] in E.
    + rewrite <- (app_nil_r (quoted s)), <- (app_nil_r (quoted t)) in E.
      apply quoted_inj in E as [-> _]; auto.
    + rewrite <- (app_nil_r (quoted s)) in E.
      apply quoted_inj in E as [_ E]; [discriminate | assumption | assumption].
    + rewrite <- (app_nil_r (quoted t)) in E.
      apply quoted_inj in E as [_ E]; [discriminate | assumption | assumption].
    + apply quoted_inj in E as [-> E]; [| assumption | assumption].
      apply app_inv_head in E. f_equal. apply IH; assumption.
Qed.

(** The header's canonical JSON is made of valid chars. *)
Lemma digit_valid (x : Z) : 0 <= x < 16 -> valid_char (Hex.digit x).
Proof. intros H. unfold Hex.digit, valid_char. destruct (Z.ltb_spec x 10); lia. Qed.

(** A list of small literal chars is valid, given [V] turning a bound
    into validity. *)
Ltac ascii_list V :=
  repeat (apply Forall_cons; [apply V; lia |]); apply Forall_nil.

Lemma escape_valid (s : rstring) :
  Forall valid_char s -> Forall valid_char (Signing.escape_json_string s).
Proof.
  intros H. unfold Signing.escape_json_string. apply Forall_flat_map.
  eapply Forall_impl; [| exact H]. intros c Hc. unfold Signing.escape_char.
  assert (V : forall z, 0 <= z < 128 -> valid_char z) by (unfold valid_char; lia).
  destruct (c =? 34); [ascii_list V |].
  destruct (c =? 92); [ascii_list V |].
  destruct (c =? 10); [ascii_list V |].
  destruct (c =? 13); [ascii_list V |].
  destruct (c =? 9); [ascii_list V |].
  destruct (Signing.is_control c); [| apply Forall_cons; [exact Hc | apply Forall_nil]].
  unfold Signing.hex4.
  do 2 (apply Forall_cons; [apply V; lia |]).
  repeat (apply Forall_cons; [apply digit_valid, Z.mod_pos_bound; lia |]). apply Forall_nil.
Qed.

Lemma number_valid (n : Z) : Forall valid_char (Signing.number_to_string n).
Proof.
  eapply Forall_impl; [| apply number_to_string_chars]. intros c [Hc | Hc]; unfold valid_char; lia.
Qed.

Lemma dq_valid : Forall valid_char [dq].
Proof. apply Forall_cons; [unfold valid_char, dq; lia | apply Forall_nil]. Qed.

Lemma quoted_valid (s : rstring) : Forall valid_char s -> Forall valid_char (quoted s).
Proof.
  intros H. unfold quoted. apply Forall_app. split; [apply dq_valid |].
  apply Forall_app. split; [apply escape_valid, H | apply dq_valid].
Qed.

Lemma join_valid (sep : rstring) (l : list rstring) :
  Forall valid_char sep -> Forall (Forall valid_char) l -> Forall valid_char (Signing.join sep l).
Proof.
  intros Hs. induction 1 as [| x l Hx Hl IH]; [constructor |].
  destruct l as [| y l]; [exact Hx |]. cbn [Signing.join].
  apply Forall_app. split; [exact Hx |]. apply Forall_app. split; [exact Hs | exact IH].
Qed.

Lemma canonical_header_valid (h : Envelope.EnvelopeHeader) :
  header_valid h -> Forall valid_char (Signing.canonical_json (Envelope.header_to_value h)).
Proof.
  intros (H1 & H2 & H3 & H4 & H5). rewrite header_canonical.
  repeat (apply Forall_app; split);
    auto using lit_valid, escape_valid, number_valid, dq_valid.
  apply join_valid; [apply lit_valid |]. apply Forall_map.
  eapply Forall_impl; [| exact H3]. intros s Hs. apply quoted_valid, Hs.
Qed.

(** The signed bytes determine the header. *)
Lemma canonical_header_inj (h h' : Envelope.EnvelopeHeader) :
  header_valid h -> header_valid h' ->
  Signing.canonicalize_for_signing (Envelope.header_to_value h)
  = Signing.canonicalize_for_signing (Envelope.header_to_value h') -> h = h'.
Proof.
  intros Hh Hh' E. apply utf8_encode_inj in E; try apply canonical_header_valid; auto.
  rewrite !header_canonical in E.
  destruct Hh as (H1 & H2 & H3 & H4 & H5), Hh' as (H1' & H2' & H3' & H4' & H5').
  destruct h, h'; cbn [Envelope.h_id Envelope.h_from_public_key Envelope.h_to_public_keys
    Envelope.h_payload_type Envelope.h_timestamp Envelope.h_encrypted_payload_hash] in *.
  repeat apply app_inv_head in E. apply quoted_inj in E as [<- E]; auto.
  repeat apply app_inv_head in E. apply quoted_inj in E as [<- E]; auto.
  repeat apply app_inv_head in E. apply quoted_inj in E as [<- E]; auto.
  repeat apply app_inv_head in E. apply quoted_inj in E as [<- E]; auto.
  repeat apply app_inv_head in E.
  apply app_sep_inj in E as [E1 E]; try apply number_no_comma.
  apply number_to_string_inj in E1 as <-.
  repeat apply app_inv_head in E. apply app_inv_tail in E.
  apply join_quoted_inj in E as <-; auto.
Qed.

Lemma header_mutation_fields {P : Primitives} (e e' : Envelope.GnsEnvelope) :
  header_mutation e e' ->
  Envelope.from_public_key e' = Envelope.from_public_key e
  /\ Envelope.signature e' = Envelope.signature e
  /\ Envelope.encrypted_payload e' = Envelope.encrypted_payload e
  /\ envelope_header e' <> envelope_header e
  /\ (header_valid (envelope_header e) -> header_valid (envelope_header e')).
Proof.
  unfold header_valid.
  destruct 1 as [v Hv Hne | v Hne | v Hv Hne | v Hv Hne]; destruct e; cbn in *;
    (split; [reflexivity |]); (split; [reflexivity |]); (split; [reflexivity |]);
    (split; [intros H; injection H; congruence | tauto]).
Qed.

Lemma set_hints_fields {P : Primitives} (e : Envelope.GnsEnvelope) (fh tid rid : option rstring) :
  Envelope.from_public_key (set_hints e fh tid rid) = Envelope.from_public_key e
  /\ Envelope.signature (set_hints e fh tid rid) = Envelope.signature e
  /\ Envelope.encrypted_payload (set_hints e fh tid rid) = Envelope.encrypted_payload e
  /\ signed_bytes (set_hints e fh tid rid) = signed_bytes e.
Proof. destruct e. repeat split. Qed.

(** C2. Under [crypto_ok], take an envelope created by [S] for [R], and
    assume its signature verifies, under [S]'s key, for no message other
    than the header bytes it was made for. Changing [id], [timestamp],
    [payload_type] or [to_public_keys] to another value makes [open] with
    [R] still decrypt the payload but report an invalid signature
    (the signed bytes determine every header field); changing the display
    hints [from_handle], [thread_id], [reply_to_id] leaves the signature
    valid. *)
Theorem envelope_signature_binding {P : Primitives} (CO : crypto_ok P)
    (S_sk R_sk : bytes) (envelope_id : rstring) (now_ms : Z) (esk nonce_bytes : bytes)
    (t : rstring) (p : bytes) (e : Envelope.GnsEnvelope) :
  length nonce_bytes = 12%nat ->
  Forall valid_char envelope_id -> Forall valid_char t ->
  Envelope.create_envelope envelope_id now_ms esk nonce_bytes (Identity.from_signing_key S_sk)
    (Identity.public_key_hex (Identity.from_signing_key R_sk))
    (Identity.encryption_key_hex (Identity.from_signing_key R_sk)) t p = Ok e ->
  (forall m, ed25519_verify (ed25519_public S_sk) m (ed25519_sign S_sk (signed_bytes e)) = true ->
             m = signed_bytes e) ->
  (forall e', header_mutation e e' ->
     exists o, Envelope.open_envelope (Identity.from_signing_key R_sk) e' = Ok o
       /\ Envelope.o_payload o = p /\ Envelope.o_signature_valid o = false)
  /\ (forall fh tid rid,
     exists o, Envelope.open_envelope (Identity.from_signing_key R_sk) (set_hints e fh tid rid) = Ok o
       /\ Envelope.o_payload o = p /\ Envelope.o_signature_valid o = true).
Proof.
  intros Hn Hid Ht Hc Hsig.
  destruct (create_envelope_spec CO envelope_id now_ms esk nonce_bytes S_sk R_sk t p Hn)
    as [e0 [ep [Hc0 [Hi [_ [Hpt [Hto [Hf [_ [Hp _]]]]]]]]]].
  rewrite Hc in Hc0. injection Hc0 as <-.
  split.
  - intros e' Hm. destruct (header_mutation_fields e e' Hm) as (Hf' & Hs' & Hp' & Hne & Hv).
    destruct (open_created CO envelope_id now_ms esk nonce_bytes S_sk R_sk t p e e' Hn Hc
                Hf' Hs' Hp') as [o [Ho [Hpl Hval]]].
    exists o. split; [exact Ho |]. split; [exact Hpl |].
    rewrite Hval. destruct (ed25519_verify _ _ _) eqn:Ev; [exfalso | reflexivity].
    assert (Hve : header_valid (envelope_header e)).
    { unfold header_valid, envelope_header. cbn [Envelope.h_id Envelope.h_from_public_key
        Envelope.h_to_public_keys Envelope.h_payload_type Envelope.h_encrypted_payload_hash].
      rewrite Hi, Hpt, Hto, Hf.
      split; [exact Hid |]. split; [apply hex_encode_valid, CO |].
      split; [repeat constructor; apply hex_encode_valid, CO |].
      split; [exact Ht | apply CO]. }
    apply Hsig in Ev. apply Hne. apply canonical_header_inj; [exact (Hv Hve) | exact Hve | exact Ev].
  - intros fh tid rid. destruct (set_hints_fields e fh tid rid) as (Hf' & Hs' & Hp' & Hb).
    destruct (open_created CO envelope_id now_ms esk nonce_bytes S_sk R_sk t p e _ Hn Hc
                Hf' Hs' Hp') as [o [Ho [Hpl Hval]]].
    exists o. split; [exact Ho |]. split; [exact Hpl |].
    rewrite Hval, Hb. apply CO.
Qed.

Lemma sent_envelope_created :
  @Envelope.create_envelope Examples.toy_signing_primitives (lit "m1") 1000 (repeat 5 32)
    (repeat 6 12) Examples.alice (@Identity.public_key_hex Examples.toy_signing_primitives Examples.bob)
    (Identity.encryption_key_hex Examples.bob) (lit "text") (lit "hi") = Ok Examples.sent_envelope.
Proof. vm_compute. reflexivity. Qed.

Lemma sent_envelope_signed_bytes :
  @signed_bytes Examples.toy_signing_primitives Examples.sent_envelope = Examples.signed_message.
Proof. vm_compute. reflexivity. Qed.

(** With [toy_signing_primitives], a signature of [signed_message]
    verifies for no other message. *)
Lemma toy_signing_unforgeable (sk m : bytes) :
  @ed25519_verify Examples.toy_signing_primitives (Examples.toy_public sk) m
    (@ed25519_sign Examples.toy_signing_primitives sk Examples.signed_message) = true ->
  m = Examples.signed_message.
Proof.
  cbn [ed25519_verify ed25519_sign Examples.toy_signing_primitives].
  unfold Examples.toy_tag at 1. rewrite rstring_eqb_true.
  unfold rstring_eqb. destruct (list_eq_dec _ _ _) as [E | _]; [| discriminate]. intros _.
  apply app_inv_head in E. unfold Examples.toy_tag in E.
  unfold rstring_eqb in E. destruct (list_eq_dec _ _ _) as [Em | _]; [exact Em | discriminate].
Qed.

Lemma envelope_signature_binding_witness :
  (forall e', header_mutation Examples.sent_envelope e' ->
     exists o, @Envelope.open_envelope Examples.toy_signing_primitives Examples.bob e' = Ok o
       /\ Envelope.o_payload o = lit "hi" /\ Envelope.o_signature_valid o = false)
  /\ (forall fh tid rid,
     exists o, @Envelope.open_envelope Examples.toy_signing_primitives Examples.bob
                 (set_hints Examples.sent_envelope fh tid rid) = Ok o
       /\ Envelope.o_payload o = lit "hi" /\ Envelope.o_signature_valid o = true).
Proof.
  apply (envelope_signature_binding toy_signing_crypto_ok Examples.sk_alice Examples.sk_bob
           (lit "m1") 1000 (repeat 5 32) (repeat 6 12) (lit "text") (lit "hi")
           Examples.sent_envelope).
  - reflexivity.
  - apply lit_valid.
  - apply lit_valid.
  - exact sent_envelope_created.
  - rewrite sent_envelope_signed_bytes. apply toy_signing_unforgeable.
Defined.

(* ------------------------------------------------------------------ *)
(** ** Envelopes with metadata *)

Lemma create_with_metadata_spec {P : Primitives} (CO : crypto_ok P)
    (envelope_id : rstring) (now_ms : Z) (esk nonce_bytes : bytes)
    (S_sk R_sk : bytes) (handle : option rstring) (t : rstring) (p : bytes)
    (tid rid : option rstring) :
  length nonce_bytes = 12%nat ->
  let S := Identity.from_signing_key S_sk in
  let R := Identity.from_signing_key R_sk in
  exists e ep,
    EnvelopeOps.create_envelope_with_metadata envelope_id now_ms esk nonce_bytes S handle
      (Identity.public_key_hex R) (Identity.encryption_key_hex R) t p tid rid = Ok e
    /\ Envelope.id e = envelope_id /\ Envelope.timestamp e = now_ms
    /\ Envelope.payload_type e = t
    /\ Envelope.to_public_keys e = [Identity.public_key_hex R]
    /\ Envelope.from_public_key e = Hex.encode (ed25519_public S_sk)
    /\ Envelope.from_handle e = handle /\ Envelope.thread_id e = tid
    /\ Envelope.reply_to_id e = rid
    /\ Envelope.signature e = Hex.encode (ed25519_sign S_sk (signed_bytes e))
    /\ Envelope.encrypted_payload e = Encryption.Object ep
    /\ Encryption.decrypt_from_sender (Identity.x25519_secret R) ep = Ok p.
Proof.
  intros Hn S R.
  destruct (create_envelope_spec CO envelope_id now_ms esk nonce_bytes S_sk R_sk t p Hn)
    as [e0 [ep [Hc [Hi [Hts [Ht [Hto [Hf [_ [Hp Hd]]]]]]]]]].
  unfold EnvelopeOps.create_envelope_with_metadata. subst S R. rewrite Hc. cbn [bind].
  do 2 eexists. split; [reflexivity |].
  destruct e0; cbn in *. subst. repeat split; try reflexivity. exact Hd.
Qed.

Lemma verify_own_header {P : Primitives} (CO : crypto_ok P) (sk : bytes)
    (e : Envelope.GnsEnvelope) :
  Envelope.from_public_key e = Hex.encode (ed25519_public sk) ->
  Envelope.signature e = Hex.encode (ed25519_sign sk (signed_bytes e)) ->
  Signing.verify_signature_hex (Envelope.from_public_key e) (signed_bytes e)
    (Envelope.signature e) = Ok true.
Proof.
  intros -> ->. rewrite (verify_signature_hex_own CO). f_equal. apply CO.
Qed.

(** Opening an envelope created by [create_envelope_with_metadata] for the
    recipient's keys gives back the payload with a valid signature, and the
    sender handle, thread id and reply id the sender passed. *)
Theorem metadata_envelope_roundtrip {P : Primitives} (CO : crypto_ok P)
    (S_sk R_sk : bytes) (envelope_id : rstring) (now_ms : Z) (esk nonce_bytes : bytes)
    (handle : option rstring) (t : rstring) (p : bytes) (tid rid : option rstring) :
  length nonce_bytes = 12%nat ->
  let S := Identity.from_signing_key S_sk in
  let R := Identity.from_signing_key R_sk in
  exists e o,
    EnvelopeOps.create_envelope_with_metadata envelope_id now_ms esk nonce_bytes S handle
      (Identity.public_key_hex R) (Identity.encryption_key_hex R) t p tid rid = Ok e
    /\ Envelope.open_envelope R e = Ok o
    /\ Envelope.o_payload o = p /\ Envelope.o_signature_valid o = true
    /\ Envelope.o_from_handle o = handle /\ Envelope.o_thread_id o = tid
    /\ Envelope.o_reply_to_id o = rid /\ Envelope.o_envelope_id o = envelope_id
    /\ Envelope.o_payload_type o = t /\ Envelope.o_timestamp o = now_ms.
Proof.
  intros Hn S R.
  destruct (create_with_metadata_spec CO envelope_id now_ms esk nonce_bytes S_sk R_sk handle
              t p tid rid Hn)
    as [e [ep [Hc [Hi [Hts [Ht [_ [Hf [Hh [Htid [Hrid [Hs [Hp Hd]]]]]]]]]]]]].
  subst S R. exists e. eexists. split; [exact Hc |].
  rewrite (open_envelope_object _ e ep Hp), (verify_own_header CO S_sk e Hf Hs).
  cbn [bind]. rewrite Hd. cbn [bind]. split; [reflexivity |].
  cbn. repeat split; congruence.
Qed.

Lemma metadata_envelope_roundtrip_witness :
  length (repeat 6%Z 12) = 12%nat /\
  exists e o,
    @EnvelopeOps.create_envelope_with_metadata Examples.toy_primitives (lit "m2") 2000
      (repeat 5 32) (repeat 6 12) (@Identity.from_signing_key Examples.toy_primitives Examples.sk_alice)
      (Some (lit "alice"))
      (@Identity.public_key_hex Examples.toy_primitives
         (@Identity.from_signing_key Examples.toy_primitives Examples.sk_bob))
      (Identity.encryption_key_hex
         (@Identity.from_signing_key Examples.toy_primitives Examples.sk_bob)) (lit "text")
      (lit "hi") (Some (lit "t1")) None = Ok e
    /\ @Envelope.open_envelope Examples.toy_primitives
         (@Identity.from_signing_key Examples.toy_primitives Examples.sk_bob) e = Ok o
    /\ Envelope.o_payload o = lit "hi" /\ Envelope.o_signature_valid o = true
    /\ Envelope.o_from_handle o = Some (lit "alice") /\ Envelope.o_thread_id o = Some (lit "t1")
    /\ Envelope.o_reply_to_id o = None /\ Envelope.o_envelope_id o = lit "m2"
    /\ Envelope.o_payload_type o = lit "text" /\ Envelope.o_timestamp o = 2000.
Proof.
  split; [reflexivity |].
  exact (metadata_envelope_roundtrip toy_crypto_ok Examples.sk_alice Examples.sk_bob (lit "m2")
           2000 (repeat 5 32) (repeat 6 12) (Some (lit "alice")) (lit "text") (lit "hi")
           (Some (lit "t1")) None eq_refl).
Defined.

(* ------------------------------------------------------------------ *)
(** ** Identity operations, the wasm API and the identity manager *)

Lemma from_hex_private_key {P : Primitives} (sk : bytes) :
  length sk = 32%nat -> Forall is_byte sk ->
  Identity.from_hex (IdentityOps.private_key_hex (Identity.from_signing_key sk))
  = Ok (Identity.from_signing_key sk).
Proof.
  intros Hl Hb. unfold Identity.from_hex, IdentityOps.private_key_hex.
  cbn [Identity.signing_key Identity.from_signing_key].
  rewrite hex_decode_encode by exact Hb. cbn [bind]. rewrite Hl. reflexivity.
Qed.

(** [private_key_hex] and [from_hex] round-trip: the hex string of a
    generated identity's secret key restores that identity. *)
Theorem private_key_hex_roundtrip {P : Primitives} (seed : bytes) :
  length seed = 32%nat -> Forall is_byte seed ->
  Identity.from_hex (IdentityOps.private_key_hex (IdentityOps.generate seed))
  = Ok (IdentityOps.generate seed).
Proof. apply from_hex_private_key. Qed.

Lemma private_key_hex_roundtrip_witness :
  length Examples.sk_alice = 32%nat /\ Forall is_byte Examples.sk_alice /\
  @Identity.from_hex Examples.toy_primitives
    (IdentityOps.private_key_hex (@IdentityOps.generate Examples.toy_primitives Examples.sk_alice))
  = Ok (@IdentityOps.generate Examples.toy_primitives Examples.sk_alice).
Proof.
  assert (H : Forall is_byte Examples.sk_alice) by (repeat constructor; unfold is_byte; lia).
  split; [reflexivity | split; [exact H |]].
  apply private_key_hex_roundtrip; [reflexivity | exact H].
Defined.

(** [encrypt_for] to an identity's X25519 key and that identity's
    [decrypt] round-trip, whatever identity encrypts. *)
Theorem encrypt_for_decrypt {P : Primitives} (CO : crypto_ok P)
    (A : Identity.GnsIdentity) (sk esk nonce_bytes m : bytes) :
  length nonce_bytes = 12%nat ->
  let B := Identity.from_signing_key sk in
  exists ep,
    IdentityOps.encrypt_for A esk nonce_bytes m (Identity.encryption_public_key_bytes B) = Ok ep
    /\ IdentityOps.decrypt B ep = Ok m.
Proof.
  intros Hn B. unfold IdentityOps.encrypt_for, IdentityOps.decrypt.
  pose proof (decrypt_for_recipient CO esk nonce_bytes m (Identity.x25519_secret B) Hn) as H.
  unfold Identity.encryption_public_key_bytes.
  change (Identity.x25519_public B) with (x25519 (Identity.x25519_secret B) x25519_basepoint).
  destruct (Encryption.encrypt_for_recipient _ _ _ _) as [ep |]; [| contradiction].
  exists ep. split; [reflexivity | exact H].
Qed.

Lemma encrypt_for_decrypt_witness :
  length (repeat 6%Z 12) = 12%nat /\
  exists ep,
    @IdentityOps.encrypt_for Examples.toy_primitives (@Identity.from_signing_key Examples.toy_primitives Examples.sk_alice)
      (repeat 5 32) (repeat 6 12) (lit "hi")
      (Identity.encryption_public_key_bytes
         (@Identity.from_signing_key Examples.toy_primitives Examples.sk_bob)) = Ok ep
    /\ @IdentityOps.decrypt Examples.toy_primitives (@Identity.from_signing_key Examples.toy_primitives Examples.sk_bob) ep
       = Ok (lit "hi").
Proof.
  split; [reflexivity |].
  exact (encrypt_for_decrypt toy_crypto_ok _ Examples.sk_bob (repeat 5 32) (repeat 6 12)
           (lit "hi") eq_refl).
Defined.

(** [verify_with_public_key] accepts an identity's own signature given
    as bytes; with a public key that decodes to [n <> 32] bytes it fails
    with [InvalidKeyLength { expected: 32, got: n }] whatever the
    signature; with a valid 32-byte key and a signature of [n <> 64] bytes
    it fails with [InvalidKeyLength { expected: 64, got: n }]. *)
Theorem verify_with_public_key_checks {P : Primitives} (CO : crypto_ok P) :
  (forall sk m,
     let S := Identity.from_signing_key sk in
     IdentityOps.verify_with_public_key (Identity.public_key_hex S) m (Identity.sign_bytes S m)
     = Ok true)
  /\ (forall pk b m sig,
        hex_decode pk = Ok b -> length b <> 32%nat ->
        IdentityOps.verify_with_public_key pk m sig = Err (InvalidKeyLength 32 (length b)))
  /\ (forall sk m sig,
        length sig <> 64%nat ->
        IdentityOps.verify_with_public_key
          (Identity.public_key_hex (Identity.from_signing_key sk)) m sig
        = Err (InvalidKeyLength 64 (length sig))).
Proof.
  split; [| split].
  - intros sk m S. unfold IdentityOps.verify_with_public_key, Identity.public_key_hex,
      Identity.public_key_bytes, Identity.sign_bytes. cbn [S Identity.from_signing_key
      Identity.signing_key].
    rewrite hex_decode_encode by apply CO. cbn [bind].
    rewrite (co_public_len _ CO), (co_point_ok _ CO), (co_sign_len _ CO), (co_verify _ CO).
    reflexivity.
  - intros pk b m sig Hd Hl. unfold IdentityOps.verify_with_public_key. rewrite Hd.
    cbn [bind]. apply Nat.eqb_neq in Hl. rewrite Hl. reflexivity.
  - intros sk m sig Hl. unfold IdentityOps.verify_with_public_key, Identity.public_key_hex,
      Identity.public_key_bytes. cbn [Identity.from_signing_key Identity.signing_key].
    rewrite hex_decode_encode by apply CO. cbn [bind].
    rewrite (co_public_len _ CO), (co_point_ok _ CO). apply Nat.eqb_neq in Hl. rewrite Hl.
    reflexivity.
Qed.

(** The wasm API, as its test [test_sign_verify_roundtrip] uses it: the
    private key of [generate_identity] signs with [sign_message], the
    public key verifies the signature with [verify_signature], and
    [restore_identity] of the private key gives back the public and
    encryption keys. *)
Theorem wasm_sign_verify_roundtrip {P : Primitives} (CO : crypto_ok P) (seed m : bytes) :
  length seed = 32%nat -> Forall is_byte seed ->
  let keys := Wasm.generate_identity seed in
  Wasm.restore_identity (Wasm.k_private_key keys)
  = Ok (Wasm.mkIdentityInfo (Wasm.k_public_key keys) (Wasm.k_encryption_key keys))
  /\ exists sig, Wasm.sign_message (Wasm.k_private_key keys) m = Ok sig
     /\ Wasm.verify_signature (Wasm.k_public_key keys) m sig = Ok true.
Proof.
  intros Hl Hb keys. unfold keys, Wasm.generate_identity, Wasm.restore_identity,
    Wasm.sign_message, Wasm.verify_signature. cbn [Wasm.k_private_key Wasm.k_public_key
    Wasm.k_encryption_key].
  unfold IdentityOps.generate. rewrite (from_hex_private_key seed Hl Hb). cbn [map_err bind].
  split; [reflexivity |]. eexists. split; [reflexivity |].
  unfold Identity.public_key_hex, Identity.public_key_bytes, Identity.sign_bytes.
  cbn [Identity.from_signing_key Identity.signing_key].
  rewrite (verify_signature_hex_own CO). cbn [map_err bind]. rewrite (co_verify _ CO).
  reflexivity.
Qed.

Lemma wasm_sign_verify_roundtrip_witness :
  length Examples.sk_alice = 32%nat /\ Forall is_byte Examples.sk_alice /\
  let keys := @Wasm.generate_identity Examples.toy_signing_primitives Examples.sk_alice in
  @Wasm.restore_identity Examples.toy_signing_primitives (Wasm.k_private_key keys)
  = Ok (Wasm.mkIdentityInfo (Wasm.k_public_key keys) (Wasm.k_encryption_key keys))
  /\ exists sig,
       @Wasm.sign_message Examples.toy_signing_primitives (Wasm.k_private_key keys) (lit "hi")
       = Ok sig
     /\ @Wasm.verify_signature Examples.toy_signing_primitives (Wasm.k_public_key keys)
          (lit "hi") sig = Ok true.
Proof.
  assert (H : Forall is_byte Examples.sk_alice) by (repeat constructor; unfold is_byte; lia).
  split; [reflexivity | split; [exact H |]].
  exact (wasm_sign_verify_roundtrip toy_signing_crypto_ok Examples.sk_alice (lit "hi")
           eq_refl H).
Defined.

(** [generate_new] stores the new key in the keychain, so that the
    manager [IdentityManager::new] builds at the next start has the same
    identity; it clears the cached handle in memory but not the keychain's
    handle entry, which that next start loads again. *)
Theorem generate_new_restart {P : Primitives} (seed : bytes)
    (m : Manager.IdentityManager) (kc : Manager.Keychain) :
  length seed = 32%nat -> Forall is_byte seed ->
  let '(m', kc') := Manager.generate_new seed m kc in
  Manager.get_identity m' = Some (IdentityOps.generate seed)
  /\ Manager.cached_handle m' = None
  /\ Manager.get_identity (Manager.new kc') = Some (IdentityOps.generate seed)
  /\ Manager.cached_handle (Manager.new kc') = Manager.kc_handle kc.
Proof.
  intros Hl Hb. cbn. unfold IdentityOps.generate.
  rewrite (from_hex_private_key seed Hl Hb). repeat split.
Qed.

Lemma generate_new_restart_witness :
  length Examples.sk_alice = 32%nat /\ Forall is_byte Examples.sk_alice /\
  let '(m', kc') := @Manager.generate_new Examples.toy_primitives Examples.sk_alice
                      (Manager.mkManager None (Some (lit "old")))
                      (Manager.mkKeychain None (Some (lit "old"))) in
  Manager.get_identity m' = Some (@IdentityOps.generate Examples.toy_primitives Examples.sk_alice)
  /\ Manager.cached_handle m' = None
  /\ Manager.get_identity (@Manager.new Examples.toy_primitives kc')
     = Some (@IdentityOps.generate Examples.toy_primitives Examples.sk_alice)
  /\ Manager.cached_handle (@Manager.new Examples.toy_primitives kc') = Some (lit "old").
Proof.
  assert (H : Forall is_byte Examples.sk_alice) by (repeat constructor; unfold is_byte; lia).
  split; [reflexivity | split; [exact H |]].
  exact (generate_new_restart Examples.sk_alice (Manager.mkManager None (Some (lit "old")))
           (Manager.mkKeychain None (Some (lit "old"))) eq_refl H).
Defined.


Lemma verify_with_public_key_checks_witness :
  @IdentityOps.verify_with_public_key Examples.toy_primitives (lit "abcd") (lit "m") []
  = Err (InvalidKeyLength 32 2).
Proof.
  apply (proj1 (proj2 (verify_with_public_key_checks toy_crypto_ok)) (lit "abcd") [171; 205]).
  - vm_compute. reflexivity.
  - discriminate.
Defined.

(* ------------------------------------------------------------------ *)
(** ** Integer parsing and [h3_grid_distance] *)

(** The value of a string of decimal digits read from the left. *)
Definition digits_val (acc : Z) (ds : rstring) : Z :=
  fold_left (fun a c => a * 10 + (c - 48)) ds acc.

Lemma pos_of_uint_acc_digits (d : Decimal.uint) (p : positive) :
  Z.pos (Pos.of_uint_acc d p) = digits_val (Z.pos p) (Signing.uint_chars d).
Proof.
  revert p. induction d; intros p; cbn [Pos.of_uint_acc Signing.uint_chars]; unfold digits_val in *;
    cbn [fold_left]; try reflexivity; rewrite IHd; f_equal; lia.
Qed.

Lemma z_of_uint_digits (d : Decimal.uint) :
  Z.of_uint d = digits_val 0 (Signing.uint_chars d).
Proof.
  induction d; unfold Z.of_uint in *; cbn [Pos.of_uint Signing.uint_chars Z.of_N];
    unfold digits_val in *; cbn [fold_left]; try assumption; try reflexivity;
    rewrite pos_of_uint_acc_digits; reflexivity.
Qed.

Lemma digits_val_ge (acc : Z) (ds : rstring) :
  0 <= acc -> Forall (fun c => 48 <= c <= 57) ds -> acc <= digits_val acc ds.
Proof.
  intros Ha Hd. revert acc Ha. induction Hd as [| c ds Hc _ IH]; intros acc Ha;
    unfold digits_val in *; cbn [fold_left]; [lia |].
  specialize (IH (acc * 10 + (c - 48))). lia.
Qed.

Lemma to_digit_10 (c : Z) : 48 <= c <= 57 -> RustNum.to_digit 10 c = Some (c - 48).
Proof.
  intros Hc. unfold RustNum.to_digit. rewrite Z.mod_small by lia.
  change (10 <? 10) with false. cbn [andb].
  destruct (Z.ltb_spec (c - 48) 10); [reflexivity | lia].
Qed.

Lemma from_digits_pos (min max acc : Z) (ds : rstring) :
  0 <= acc -> min <= 0 -> Forall (fun c => 48 <= c <= 57) ds -> digits_val acc ds <= max ->
  RustNum.from_digits 10 true min max acc ds = Some (digits_val acc ds).
Proof.
  intros Ha Hm Hd. revert acc Ha. induction Hd as [| c ds Hc Hds IH]; intros acc Ha Hx;
    [reflexivity |].
  cbn [RustNum.from_digits]. rewrite to_digit_10 by exact Hc.
  unfold digits_val in Hx; cbn [fold_left] in Hx; fold (digits_val (acc * 10 + (c - 48)) ds) in Hx.
  pose proof (digits_val_ge (acc * 10 + (c - 48)) ds ltac:(lia) Hds).
  destruct (Z.leb_spec min (acc * 10 + (c - 48))); [| lia].
  destruct (Z.leb_spec (acc * 10 + (c - 48)) max); [| lia]. cbn [andb].
  rewrite IH by lia. reflexivity.
Qed.

Lemma from_digits_neg (min max acc : Z) (ds : rstring) :
  acc <= 0 -> 0 <= max -> Forall (fun c => 48 <= c <= 57) ds -> min <= - digits_val (- acc) ds ->
  RustNum.from_digits 10 false min max acc ds = Some (- digits_val (- acc) ds).
Proof.
  intros Ha Hm Hd. revert acc Ha. induction Hd as [| c ds Hc Hds IH]; intros acc Ha Hx.
  - cbn. f_equal. lia.
  - cbn [RustNum.from_digits]. rewrite to_digit_10 by exact Hc.
    unfold digits_val in Hx; cbn [fold_left] in Hx.
    fold (digits_val (- acc * 10 + (c - 48)) ds) in Hx.
    pose proof (digits_val_ge (- acc * 10 + (c - 48)) ds ltac:(lia) Hds).
    destruct (Z.leb_spec min (acc * 10 - (c - 48))); [| lia].
    destruct (Z.leb_spec (acc * 10 - (c - 48)) max); [| lia]. cbn [andb].
    rewrite IH by (try replace (- (acc * 10 - (c - 48))) with (- acc * 10 + (c - 48)) by lia; lia).
    unfold digits_val. cbn [fold_left]. do 3 f_equal. lia.
Qed.

Lemma to_int_chars_nonnil (t : Z) (d : Decimal.uint) :
  Z.to_int t = Decimal.Pos d \/ Z.to_int t = Decimal.Neg d -> Signing.uint_chars d <> [].
Proof.
  intros H Hc. destruct d; try discriminate Hc.
  destruct t as [| p | p]; cbn in H; destruct H as [H | H]; try discriminate H;
    injection H as H; exact (DecimalPos.Unsigned.to_uint_nonnil p H).
Qed.

Lemma number_to_string_ascii (n : Z) : Forall (fun c => 0 <= c < 128) (Signing.number_to_string n).
Proof.
  eapply Forall_impl; [| apply number_to_string_chars]. intros c [-> | Hc]; lia.
Qed.

Lemma digits_val_of_uint_bound (d : Decimal.uint) :
  digits_val 0 (Signing.uint_chars d) = Z.of_uint d.
Proof. symmetry. apply z_of_uint_digits. Qed.

(** [s.parse::<i64>()] reads back [i64::to_string] for every [i64]. *)
Lemma parse_i64_number_to_string (t : Z) :
  - 2 ^ 63 <= t <= 2 ^ 63 - 1 -> RustNum.parse_i64 (Signing.number_to_string t) = Some t.
Proof.
  intros Ht. unfold RustNum.parse_i64, RustNum.from_str_radix.
  rewrite utf8_encode_ascii by apply number_to_string_ascii.
  pose proof (DecimalZ.of_to t) as Hot. unfold Signing.number_to_string.
  destruct (Z.to_int t) as [d | d] eqn:Ei; cbn [Z.of_int] in Hot.
  - pose proof (uint_chars_digits d) as Hd.
    assert (Hv : digits_val 0 (Signing.uint_chars d) = t) by (rewrite digits_val_of_uint_bound; exact Hot).
    assert (Hf : RustNum.from_digits 10 true (- 2 ^ 63) (2 ^ 63 - 1) 0 (Signing.uint_chars d)
                 = Some t) by (rewrite from_digits_pos; [f_equal; exact Hv | lia | lia | exact Hd | lia]).
    destruct (Signing.uint_chars d) as [| c [| c' r]] eqn:Ec.
    + exfalso. exact (to_int_chars_nonnil t d (or_introl Ei) Ec).
    + inversion Hd as [| ? ? Hc]; subst.
      destruct (Z.eqb_spec c 43); [lia |]. destruct (Z.eqb_spec c 45); [lia |]. exact Hf.
    + inversion Hd as [| ? ? Hc]; subst.
      destruct (Z.eqb_spec c 43); [lia |]. destruct (Z.eqb_spec c 45); [lia |]. exact Hf.
  - pose proof (uint_chars_digits d) as Hd.
    assert (Hv : digits_val 0 (Signing.uint_chars d) = - t)
      by (rewrite digits_val_of_uint_bound; lia).
    destruct (Signing.uint_chars d) as [| c r] eqn:Ec.
    + exfalso. exact (to_int_chars_nonnil t d (or_intror Ei) Ec).
    + cbn [Z.eqb Pos.eqb orb andb].
      rewrite from_digits_neg; cbn [Z.opp]; [f_equal; lia | lia | lia | exact Hd | lia].
Qed.

Lemma h3_parse_match_sym (a b : rstring) :
  (x <- match RustNum.u64_from_str_radix16 a with
        | Some v => Ok v | None => Err BreadcrumbOps.invalid_h3_index end ;;
   y <- match RustNum.u64_from_str_radix16 b with
        | Some v => Ok v | None => Err BreadcrumbOps.invalid_h3_index end ;;
   Ok ((if x >? y then x - y else y - x) mod 1000))
  = (y <- match RustNum.u64_from_str_radix16 b with
          | Some v => Ok v | None => Err BreadcrumbOps.invalid_h3_index end ;;
     x <- match RustNum.u64_from_str_radix16 a with
          | Some v => Ok v | None => Err BreadcrumbOps.invalid_h3_index end ;;
     Ok ((if y >? x then y - x else x - y) mod 1000)).
Proof.
  destruct (RustNum.u64_from_str_radix16 a) as [x |], (RustNum.u64_from_str_radix16 b) as [y |];
    cbn [bind]; try reflexivity.
  f_equal. f_equal. destruct (Z.gtb_spec x y), (Z.gtb_spec y x); lia.
Qed.

Lemma rstring_eqb_sym (a b : rstring) : rstring_eqb a b = rstring_eqb b a.
Proof.
  unfold rstring_eqb. destruct (list_eq_dec Z.eq_dec a b), (list_eq_dec Z.eq_dec b a); congruence.
Qed.

Lemma rstring_eqb_spec (a b : rstring) : rstring_eqb a b = true <-> a = b.
Proof. unfold rstring_eqb. destruct (list_eq_dec Z.eq_dec a b); split; congruence. Qed.

(** [h3_grid_distance] is symmetric, and its result is in [0, 1000). *)
Theorem h3_grid_distance_sym_range (a b : rstring) :
  BreadcrumbOps.h3_grid_distance a b = BreadcrumbOps.h3_grid_distance b a
  /\ forall d, BreadcrumbOps.h3_grid_distance a b = Ok d -> 0 <= d < 1000.
Proof.
  unfold BreadcrumbOps.h3_grid_distance. split.
  - rewrite rstring_eqb_sym. destruct (rstring_eqb b a); [reflexivity |].
    apply h3_parse_match_sym.
  - intros d. destruct (rstring_eqb a b); [intros H; injection H as <-; lia |].
    destruct (RustNum.u64_from_str_radix16 a) as [x |], (RustNum.u64_from_str_radix16 b) as [y |];
      cbn [bind]; try discriminate.
    intros H. injection H as <-. apply Z.mod_pos_bound. lia.
Qed.



(* ------------------------------------------------------------------ *)
(** ** Created breadcrumbs *)

Lemma toy_signing_for_crypto_ok (m0 : bytes) : crypto_ok (MoreExamples.toy_signing_for m0).
Proof.
  split; cbn -[Examples.toy_public MoreExamples.toy_tag_for Examples.toy_open Examples.toy_seal
               lit repeat rstring_eqb].
  - reflexivity.
  - reflexivity.
  - intros. apply repeat_bytes. unfold is_byte. lia.
  - apply toy_open_seal.
  - apply toy_public_length.
  - apply toy_public_bytes.
  - intros sk. rewrite toy_public_length. reflexivity.
  - intros sk m. rewrite length_app, toy_public_length.
    unfold MoreExamples.toy_tag_for. destruct (rstring_eqb _ _); reflexivity.
  - intros sk m. apply Forall_app. split; [apply toy_public_bytes |].
    unfold MoreExamples.toy_tag_for. destruct (rstring_eqb _ _); apply repeat_bytes;
      unfold is_byte; lia.
  - intros. apply rstring_eqb_true.
  - intros. apply lit_valid.
Qed.

Lemma toy_signing_for_unforgeable (m0 sk m : bytes) :
  m <> m0 ->
  @ed25519_verify (MoreExamples.toy_signing_for m0) (@ed25519_public (MoreExamples.toy_signing_for m0) sk) m
    (@ed25519_sign (MoreExamples.toy_signing_for m0) sk m0) = false.
Proof.
  intros Hne. cbn [ed25519_verify ed25519_sign ed25519_public MoreExamples.toy_signing_for].
  unfold MoreExamples.toy_tag_for. rewrite rstring_eqb_true, (rstring_eqb_false m m0 Hne).
  apply rstring_eqb_false. intros E. apply app_inv_head in E.
  assert (H := f_equal (@hd Z 0) E). discriminate H.
Qed.

Lemma breadcrumb_signing_data_created {P : Primitives} (now_s : Z) (id : Identity.GnsIdentity)
    (h3 : rstring) (res : Z) :
  exists b, BreadcrumbOps.create_breadcrumb_from_h3 now_s id h3 res = Ok b
  /\ Breadcrumbs.h3_index b = h3 /\ Breadcrumbs.timestamp b = now_s
  /\ Breadcrumbs.public_key b = Identity.public_key_hex id /\ Breadcrumbs.resolution b = res
  /\ Breadcrumbs.signature b
     = Hex.encode (Identity.sign_bytes id (Utf8.encode (Breadcrumbs.signing_data b))).
Proof. eexists. split; [reflexivity |]. repeat split. Qed.

Lemma verify_created_breadcrumb {P : Primitives} (CO : crypto_ok P) (sk : bytes)
    (b : Breadcrumbs.Breadcrumb) (m : bytes) :
  Breadcrumbs.public_key b = Identity.public_key_hex (Identity.from_signing_key sk) ->
  Breadcrumbs.signature b = Hex.encode (Identity.sign_bytes (Identity.from_signing_key sk) m) ->
  Breadcrumbs.verify_breadcrumb b
  = Ok (ed25519_verify (ed25519_public sk) (Utf8.encode (Breadcrumbs.signing_data b))
          (ed25519_sign sk m)).
Proof.
  intros Hpk Hs. unfold Breadcrumbs.verify_breadcrumb. rewrite Hpk, Hs.
  apply (verify_signature_hex_own CO).
Qed.

Lemma add_all_accepts {P : Primitives} (l : list Breadcrumbs.Breadcrumb) :
  forall t, Forall (fun b => Breadcrumbs.public_key b = Breadcrumbs.t_public_key t
                        /\ Breadcrumbs.verify_breadcrumb b = Ok true) l ->
  exists t', Breadcrumbs.add_all t l = Ok t'
  /\ Breadcrumbs.t_public_key t' = Breadcrumbs.t_public_key t
  /\ Permutation (Breadcrumbs.breadcrumbs t') (Breadcrumbs.breadcrumbs t ++ l).
Proof.
  induction l as [| b l IH]; intros t Hl.
  - exists t. rewrite app_nil_r. split; [reflexivity | split; reflexivity].
  - inversion Hl as [| ? ? [Hpk Hv] Hl']; subst.
    cbn [Breadcrumbs.add_all]. unfold Breadcrumbs.add at 1.
    assert (E : rstring_eqb (Breadcrumbs.public_key b) (Breadcrumbs.t_public_key t) = true)
      by (apply rstring_eqb_spec; exact Hpk).
    rewrite E, Hv. cbn [negb bind].
    set (t1 := Breadcrumbs.mkTrajectory (Breadcrumbs.t_public_key t)
                 (Breadcrumbs.sort_by_timestamp (Breadcrumbs.breadcrumbs t ++ [b]))).
    destruct (IH t1 Hl') as [t' [Ha [Hk Hp]]]. exists t'. split; [exact Ha |]. split; [exact Hk |].
    rewrite Hp. cbn [t1 Breadcrumbs.breadcrumbs].
    rewrite (proj2 (sort_by_timestamp_spec (Breadcrumbs.breadcrumbs t ++ [b]))).
    rewrite <- app_assoc. reflexivity.
Qed.

(** A breadcrumb made by [create_breadcrumb_from_h3] carries the cell,
    time and creator's public key given, and verifies; any list of
    breadcrumbs the owner created is accepted, one by one, by [add] on the
    owner's [Trajectory::new], which ends up holding exactly those
    breadcrumbs, ordered by timestamp. *)
Theorem created_breadcrumbs_accepted {P : Primitives} (CO : crypto_ok P) (sk : bytes) :
  let id := Identity.from_signing_key sk in
  (forall now_s h3 res,
     exists b, BreadcrumbOps.create_breadcrumb_from_h3 now_s id h3 res = Ok b
     /\ Breadcrumbs.h3_index b = h3 /\ Breadcrumbs.timestamp b = now_s
     /\ Breadcrumbs.public_key b = Identity.public_key_hex id
     /\ Breadcrumbs.resolution b = res
     /\ Breadcrumbs.verify_breadcrumb b = Ok true)
  /\ (forall l,
        Forall (fun b => exists now_s h3 res,
                  BreadcrumbOps.create_breadcrumb_from_h3 now_s id h3 res = Ok b) l ->
        exists t, Breadcrumbs.add_all (Breadcrumbs.new (Identity.public_key_hex id)) l = Ok t
        /\ Breadcrumbs.t_public_key t = Identity.public_key_hex id
        /\ Sorted ts_le (Breadcrumbs.breadcrumbs t)
        /\ Permutation (Breadcrumbs.breadcrumbs t) l).
Proof.
  intros id.
  assert (Hc : forall now_s h3 res b,
             BreadcrumbOps.create_breadcrumb_from_h3 now_s id h3 res = Ok b ->
             Breadcrumbs.public_key b = Identity.public_key_hex id
             /\ Breadcrumbs.verify_breadcrumb b = Ok true).
  { intros now_s h3 res b Hb.
    destruct (breadcrumb_signing_data_created now_s id h3 res) as [b' [Hb' [_ [_ [Hpk [_ Hs]]]]]].
    rewrite Hb in Hb'. injection Hb' as <-. split; [exact Hpk |].
    rewrite (verify_created_breadcrumb CO sk b _ Hpk Hs). f_equal. apply CO. }
  split.
  - intros now_s h3 res.
    destruct (breadcrumb_signing_data_created now_s id h3 res) as [b [Hb [H1 [H2 [H3 [H4 _]]]]]].
    exists b. repeat split; try assumption. exact (proj2 (Hc _ _ _ _ Hb)).
  - intros l Hl.
    destruct (add_all_accepts l (Breadcrumbs.new (Identity.public_key_hex id))) as [t [Ha [Hk Hp]]].
    { eapply Forall_impl; [| exact Hl]. intros b [now_s [h3 [res Hb]]]. exact (Hc _ _ _ _ Hb). }
    exists t. split; [exact Ha |]. split; [exact Hk |]. split; [| exact Hp].
    apply (add_all_inv l (Breadcrumbs.new (Identity.public_key_hex id)) t); [| exact Ha].
    split; constructor.
Qed.

Lemma created_breadcrumbs_accepted_witness :
  exists t,
    @Breadcrumbs.add_all Examples.toy_primitives
      (Breadcrumbs.new (@Identity.public_key_hex Examples.toy_primitives
                          (@Identity.from_signing_key Examples.toy_primitives Examples.sk_alice)))
      (map (fun c => match @BreadcrumbOps.create_breadcrumb_from_h3 Examples.toy_primitives
                             (fst c) (@Identity.from_signing_key Examples.toy_primitives
                                        Examples.sk_alice) (snd c) 7 with
                     | Ok b => b | Err _ => Examples.cell_breadcrumb 0 0 end)
           [(2000, lit "8a2a1072b59ffff"); (1000, lit "8a2a1072b5bffff")]) = Ok t
    /\ Sorted ts_le (Breadcrumbs.breadcrumbs t)
    /\ Permutation (Breadcrumbs.breadcrumbs t)
         (map (fun c => match @BreadcrumbOps.create_breadcrumb_from_h3 Examples.toy_primitives
                                (fst c) (@Identity.from_signing_key Examples.toy_primitives
                                           Examples.sk_alice) (snd c) 7 with
                        | Ok b => b | Err _ => Examples.cell_breadcrumb 0 0 end)
              [(2000, lit "8a2a1072b59ffff"); (1000, lit "8a2a1072b5bffff")]).
Proof.
  destruct (proj2 (created_breadcrumbs_accepted toy_crypto_ok Examples.sk_alice)
              (map (fun c => match @BreadcrumbOps.create_breadcrumb_from_h3 Examples.toy_primitives
                                     (fst c) (@Identity.from_signing_key Examples.toy_primitives
                                                Examples.sk_alice) (snd c) 7 with
                             | Ok b => b | Err _ => Examples.cell_breadcrumb 0 0 end)
                   [(2000, lit "8a2a1072b59ffff"); (1000, lit "8a2a1072b5bffff")]))
    as [t [Ha [_ [Hs Hp]]]].
  - repeat constructor; do 3 eexists; reflexivity.
  - exists t. split; [exact Ha | split; [exact Hs | exact Hp]].
Defined.

Lemma number_no_colon (n : Z) : ~ In 58 (Signing.number_to_string n).
Proof.
  intros H. pose proof (number_to_string_chars n) as F. rewrite Forall_forall in F.
  apply F in H. lia.
Qed.

Lemma breadcrumb_signing_data_inj (b b' : Breadcrumbs.Breadcrumb) :
  Breadcrumbs.public_key b' = Breadcrumbs.public_key b ->
  Breadcrumbs.signing_data b' = Breadcrumbs.signing_data b ->
  Breadcrumbs.h3_index b' = Breadcrumbs.h3_index b
  /\ Breadcrumbs.timestamp b' = Breadcrumbs.timestamp b.
Proof.
  intros Hpk E. unfold Breadcrumbs.signing_data in E. rewrite Hpk in E.
  apply app_inv_head in E. change (lit ":") with [58] in E.
  rewrite !app_assoc in E. apply app_inv_tail, app_inv_tail in E.
  apply (f_equal (@rev Z)) in E. rewrite !rev_app_distr in E. cbn [rev app] in E.
  apply app_sep_inj in E;
    [| rewrite <- in_rev; apply number_no_colon | rewrite <- in_rev; apply number_no_colon].
  destruct E as [E1 E2]. apply (f_equal (@rev Z)) in E1, E2. rewrite !rev_involutive in E1, E2.
  split; [exact E2 | apply number_to_string_inj; exact E1].
Qed.

Lemma breadcrumb_signing_data_valid {P : Primitives} (CO : crypto_ok P) (sk : bytes)
    (b : Breadcrumbs.Breadcrumb) :
  Forall valid_char (Breadcrumbs.h3_index b) ->
  Breadcrumbs.public_key b = Identity.public_key_hex (Identity.from_signing_key sk) ->
  Forall valid_char (Breadcrumbs.signing_data b).
Proof.
  intros Hh Hpk. unfold Breadcrumbs.signing_data. rewrite Hpk.
  assert (Hn : Forall valid_char (Signing.number_to_string (Breadcrumbs.timestamp b))).
  { eapply Forall_impl; [| apply number_to_string_chars].
    intros c [-> | Hc]; unfold valid_char; lia. }
  assert (Hk : Forall valid_char (Identity.public_key_hex (Identity.from_signing_key sk)))
    by (apply hex_encode_valid; apply CO).
  rewrite !Forall_app. repeat split; first [exact Hh | exact Hn | exact Hk | apply lit_valid].
Qed.

(** A breadcrumb created by [create_breadcrumb_from_h3] whose cell or
    timestamp is then changed no longer verifies ([verify_breadcrumb]
    returns [Ok(false)]) and [Trajectory::add] rejects it with
    [SignatureVerificationFailed], provided the Ed25519 signature of the
    original signing data verifies no other message. *)
Theorem breadcrumb_tampering_rejected {P : Primitives} (CO : crypto_ok P) (sk : bytes)
    (now_s : Z) (h3 : rstring) (res : Z) (b : Breadcrumbs.Breadcrumb) (h3' : rstring) (ts' : Z) :
  BreadcrumbOps.create_breadcrumb_from_h3 now_s (Identity.from_signing_key sk) h3 res = Ok b ->
  Forall valid_char h3 -> Forall valid_char h3' ->
  (h3', ts') <> (h3, now_s) ->
  (forall m, m <> Utf8.encode (Breadcrumbs.signing_data b) ->
     ed25519_verify (ed25519_public sk) m (ed25519_sign sk (Utf8.encode (Breadcrumbs.signing_data b)))
     = false) ->
  let b' := Breadcrumbs.mkBreadcrumb h3' ts' (Breadcrumbs.public_key b)
              (Breadcrumbs.signature b) (Breadcrumbs.resolution b) in
  Breadcrumbs.verify_breadcrumb b' = Ok false
  /\ Breadcrumbs.add (Breadcrumbs.new (Breadcrumbs.public_key b)) b'
     = Err SignatureVerificationFailed.
Proof.
  intros Hc Hh Hh' Hne Huf b'.
  destruct (breadcrumb_signing_data_created now_s (Identity.from_signing_key sk) h3 res)
    as [b0 [Hb0 [Hi [Ht [Hpk [_ Hs]]]]]].
  rewrite Hc in Hb0. injection Hb0 as <-.
  assert (Hv : Breadcrumbs.verify_breadcrumb b' = Ok false).
  { rewrite (verify_created_breadcrumb CO sk b' _ Hpk Hs). f_equal. apply Huf.
    intros E. apply utf8_encode_inj in E.
    - apply breadcrumb_signing_data_inj in E; [| reflexivity].
      destruct E as [E1 E2]. cbn [b' Breadcrumbs.h3_index Breadcrumbs.timestamp] in E1, E2.
      apply Hne. rewrite E1, E2, Hi, Ht. reflexivity.
    - apply (breadcrumb_signing_data_valid CO sk b'); [exact Hh' | exact Hpk].
    - apply (breadcrumb_signing_data_valid CO sk b); [rewrite Hi; exact Hh | exact Hpk]. }
  split; [exact Hv |].
  unfold Breadcrumbs.add. cbn [b' Breadcrumbs.public_key Breadcrumbs.new Breadcrumbs.t_public_key].
  rewrite rstring_eqb_true. cbn [negb]. fold b'. rewrite Hv. reflexivity.
Qed.

Lemma breadcrumb_tampering_rejected_witness :
  let P := MoreExamples.toy_signing_for MoreExamples.alice_breadcrumb_data in
  let b := MoreExamples.alice_breadcrumb in
  let b' := Breadcrumbs.mkBreadcrumb (lit "8a2a1072b5bffff") 1000 (Breadcrumbs.public_key b)
              (Breadcrumbs.signature b) (Breadcrumbs.resolution b) in
  @Breadcrumbs.verify_breadcrumb P b' = Ok false
  /\ @Breadcrumbs.add P (Breadcrumbs.new (Breadcrumbs.public_key b)) b'
     = Err SignatureVerificationFailed.
Proof.
  intros P b b'.
  apply (@breadcrumb_tampering_rejected P
           (toy_signing_for_crypto_ok MoreExamples.alice_breadcrumb_data) Examples.sk_alice 1000
           (lit "8a2a1072b59ffff") 7 b (lit "8a2a1072b5bffff") 1000).
  - reflexivity.
  - apply lit_valid.
  - apply lit_valid.
  - intros E. injection E as E. discriminate E.
  - intros m Hm. exact (toy_signing_for_unforgeable MoreExamples.alice_breadcrumb_data
                          Examples.sk_alice m Hm).
Defined.

(* ------------------------------------------------------------------ *)
(** ** The message store *)

Lemma map_thread_ids (db : Storage.Database) (id : rstring)
    (f : Storage.ThreadRow -> Storage.ThreadRow) :
  (forall r, Storage.tr_id (f r) = Storage.tr_id r) ->
  map Storage.tr_id (Storage.threads (Storage.map_thread db id f))
  = map Storage.tr_id (Storage.threads db).
Proof.
  intros Hf. unfold Storage.map_thread. cbn [Storage.threads]. rewrite map_map.
  apply map_ext. intros r. destruct (rstring_eqb _ _); [apply Hf | reflexivity].
Qed.

Lemma find_thread_none (db : Storage.Database) (id : rstring) :
  Storage.find_thread db id = None <-> ~ In id (map Storage.tr_id (Storage.threads db)).
Proof.
  unfold Storage.find_thread. induction (Storage.threads db) as [| r l IH]; cbn.
  - tauto.
  - destruct (rstring_eqb (Storage.tr_id r) id) eqn:E.
    + apply rstring_eqb_spec in E. split; [discriminate | tauto].
    + rewrite IH. split; [| tauto]. intros H [H1 | H1]; [| tauto].
      rewrite H1, rstring_eqb_true in E. discriminate.
Qed.

Lemma get_or_create_ids (now : Z) (db : Storage.Database) (tid pk : rstring)
    (handle subj : option rstring) :
  let db' := Storage.get_or_create_thread now db tid pk handle subj in
  Storage.messages db' = Storage.messages db
  /\ (forall x, In x (map Storage.tr_id (Storage.threads db'))
                <-> In x (map Storage.tr_id (Storage.threads db)) \/ x = tid)
  /\ (NoDup (map Storage.tr_id (Storage.threads db)) ->
      NoDup (map Storage.tr_id (Storage.threads db'))).
Proof.
  cbv zeta. unfold Storage.get_or_create_thread.
  destruct (Storage.find_thread db tid) eqn:E.
  - rewrite map_thread_ids by reflexivity. split; [reflexivity |]. split; [| tauto].
    intros x. split; [tauto |]. intros [H | ->]; [exact H |].
    destruct (in_dec (list_eq_dec Z.eq_dec) tid (map Storage.tr_id (Storage.threads db)))
      as [Hi | Hi]; [exact Hi |].
    apply find_thread_none in Hi. congruence.
  - apply find_thread_none in E. cbn [Storage.threads Storage.messages].
    rewrite map_app. cbn [map Storage.tr_id]. split; [reflexivity |]. split.
    + intros x. rewrite in_app_iff. cbn. intuition congruence.
    + intros Hn. apply NoDup_app; [exact Hn | repeat constructor; tauto |].
      intros x Hx [<- | []]. exact (E Hx).
Qed.

Lemma message_thread_insert (db : Storage.Database) (m : Storage.MessageRow) :
  message_thread (Storage.insert_or_replace_message db m) (Storage.m_id m)
  = Some (Storage.m_thread_id m).
Proof.
  unfold message_thread, Storage.insert_or_replace_message. cbn [Storage.messages].
  induction (Storage.messages db) as [| a l IH]; cbn.
  - rewrite rstring_eqb_true. reflexivity.
  - destruct (rstring_eqb (Storage.m_id a) (Storage.m_id m)) eqn:E; cbn; [exact IH |].
    rewrite E. exact IH.
Qed.

Lemma insert_message_wf (db : Storage.Database) (m : Storage.MessageRow) :
  db_wf db -> In (Storage.m_thread_id m) (map Storage.tr_id (Storage.threads db)) ->
  db_wf (Storage.insert_or_replace_message db m).
Proof.
  intros [Ht [Hm Hr]] Hin. unfold Storage.insert_or_replace_message. split; [exact Ht |].
  cbn [Storage.messages Storage.threads]. split.
  - rewrite map_app. apply NoDup_app.
    + clear Hr. induction (Storage.messages db) as [| a l IH]; cbn; [constructor |].
      inversion Hm as [| ? ? Ha Hl]; subst.
      destruct (rstring_eqb (Storage.m_id a) (Storage.m_id m)); cbn; [| constructor]; auto.
      intros Hin'. apply Ha. apply in_map_iff in Hin'. destruct Hin' as [x [Hx Hx']].
      apply filter_In in Hx'. apply in_map_iff. exists x. tauto.
    + repeat constructor. tauto.
    + intros x Hx [Hx' | []]. subst x. apply in_map_iff in Hx. destruct Hx as [y [Hy Hy']].
      apply filter_In in Hy'. destruct Hy' as [_ Hy']. rewrite Hy, rstring_eqb_true in Hy'.
      discriminate.
  - apply Forall_app. split; [| constructor; [exact Hin | constructor]].
    apply Forall_forall. intros x Hx. apply filter_In in Hx. rewrite Forall_forall in Hr.
    apply Hr, Hx.
Qed.

Lemma map_thread_wf (db : Storage.Database) (id : rstring)
    (f : Storage.ThreadRow -> Storage.ThreadRow) :
  (forall r, Storage.tr_id (f r) = Storage.tr_id r) ->
  db_wf db -> db_wf (Storage.map_thread db id f).
Proof.
  intros Hf [Ht [Hm Hr]]. unfold db_wf. rewrite map_thread_ids by exact Hf.
  split; [exact Ht |]. split; [exact Hm | exact Hr].
Qed.

Lemma update_thread_wf (db : Storage.Database) (tid : rstring) (ts : Z) (inc : bool) :
  db_wf db -> db_wf (Storage.update_thread_for_message db tid ts inc).
Proof. apply map_thread_wf. reflexivity. Qed.

Lemma upsert_insert_update_wf (now ts : Z) (inc : bool) (db : Storage.Database)
    (tid pk : rstring) (handle subj : option rstring) (m : Storage.MessageRow) :
  db_wf db -> Storage.m_thread_id m = tid ->
  db_wf (Storage.update_thread_for_message
           (Storage.insert_or_replace_message
              (Storage.get_or_create_thread now db tid pk handle subj) m) tid ts inc)
  /\ message_thread
       (Storage.update_thread_for_message
          (Storage.insert_or_replace_message
             (Storage.get_or_create_thread now db tid pk handle subj) m) tid ts inc)
       (Storage.m_id m) = Some tid.
Proof.
  intros [Ht [Hm Hr]] Hmt.
  destruct (get_or_create_ids now db tid pk handle subj) as [Hms [Hin Hnd]].
  split.
  - apply update_thread_wf, insert_message_wf.
    + split; [exact (Hnd Ht) |]. rewrite Hms. split; [exact Hm |].
      eapply Forall_impl; [| exact Hr]. intros x Hx. apply Hin. left. exact Hx.
    + rewrite Hmt. apply Hin. right. reflexivity.
  - rewrite <- Hmt. apply message_thread_insert.
Qed.

Lemma nodup_map_filter {A B} (f : A -> B) (g : A -> bool) (l : list A) :
  NoDup (map f l) -> NoDup (map f (filter g l)).
Proof.
  induction l as [| a l IH]; cbn; [constructor |]. intros H. inversion H as [| ? ? Ha Hl]; subst.
  destruct (g a); cbn; [| auto]. constructor; [| auto].
  intros Hin. apply Ha. apply in_map_iff in Hin. destruct Hin as [x [Hx Hx']].
  apply filter_In in Hx'. apply in_map_iff. exists x. tauto.
Qed.

(** Every operation of the message store keeps the keys of [threads]
    and [messages] unique and never leaves a message whose thread row is
    missing: receiving, sending and browser-sending a message, deleting a
    thread (its messages first) or a message, and marking a message or a
    thread read. *)
Theorem message_store_wf (from_slice : bytes -> option Signing.Value)
    (from_utf8_lossy : bytes -> rstring) (db : Storage.Database) :
  db_wf db ->
  (forall now mid tid pk handle pt payload ts sv rid,
     db_wf (Storage.save_received_message now db mid tid pk handle pt payload ts sv rid))
  /\ (forall now e payload rh rid db',
        Storage.save_sent_message from_slice from_utf8_lossy now db e payload rh rid = Some db' ->
        db_wf db')
  /\ (forall now mid to_pk text ts my_pk db',
        StorageOps.save_browser_sent_message now db mid to_pk text ts my_pk = Some db' ->
        db_wf db')
  /\ (forall tid, db_wf (StorageOps.delete_thread db tid))
  /\ (forall mid, db_wf (StorageOps.delete_message db mid))
  /\ (forall mid, db_wf (StorageOps.mark_message_read db mid))
  /\ (forall tid, db_wf (StorageOps.mark_thread_read db tid)).
Proof.
  intros Hwf. split; [| split; [| split; [| split; [| split; [| split]]]]].
  - intros. unfold Storage.save_received_message.
    eapply proj1, upsert_insert_update_wf; [exact Hwf | reflexivity].
  - intros now e payload rh rid db'. unfold Storage.save_sent_message.
    destruct (Storage.sent_thread_id e) as [tid |]; [| discriminate].
    destruct (hd_error (Envelope.to_public_keys e)) as [pk |]; [| discriminate].
    intros H. injection H as <-. eapply proj1, upsert_insert_update_wf; [exact Hwf | reflexivity].
  - intros now mid to_pk text ts my_pk db'. unfold StorageOps.save_browser_sent_message.
    destruct (Storage.direct_thread_id my_pk to_pk) as [tid |]; [| discriminate].
    intros H. injection H as <-. eapply proj1, upsert_insert_update_wf; [exact Hwf | reflexivity].
  - intros tid. destruct Hwf as [Ht [Hm Hr]]. unfold StorageOps.delete_thread, db_wf.
    cbn [Storage.threads Storage.messages]. split; [| split].
    + apply nodup_map_filter, Ht.
    + apply nodup_map_filter, Hm.
    + apply Forall_forall. intros m Hin. apply filter_In in Hin. destruct Hin as [Hin Hne].
      rewrite Forall_forall in Hr. specialize (Hr m Hin).
      apply in_map_iff in Hr. destruct Hr as [r [Hr Hr']]. apply in_map_iff. exists r.
      split; [exact Hr |]. apply filter_In. split; [exact Hr' |].
      rewrite Hr. exact Hne.
  - intros mid. destruct Hwf as [Ht [Hm Hr]]. unfold StorageOps.delete_message, db_wf.
    cbn [Storage.threads Storage.messages]. split; [exact Ht | split].
    + apply nodup_map_filter, Hm.
    + apply Forall_forall. intros m Hin. apply filter_In in Hin.
      rewrite Forall_forall in Hr. apply Hr, Hin.
  - intros mid. destruct Hwf as [Ht [Hm Hr]]. unfold StorageOps.mark_message_read, db_wf.
    cbn [Storage.threads Storage.messages]. rewrite map_map.
    split; [exact Ht | split].
    + erewrite map_ext; [exact Hm |]. intros m. destruct (rstring_eqb _ _); reflexivity.
    + apply Forall_map. eapply Forall_impl; [| exact Hr]. intros m Hx.
      destruct (rstring_eqb _ _); exact Hx.
  - intros tid. apply map_thread_wf; [reflexivity | exact Hwf].
Qed.

Lemma message_store_wf_witness :
  db_wf Examples.db_alice /\
  db_wf (StorageOps.delete_thread
           (Storage.save_received_message 5 Examples.db_alice (lit "m1") (lit "t") (lit "pk")
              None (lit "text") Signing.Null 5 true None) (lit "t")).
Proof.
  assert (H : db_wf Examples.db_alice) by (repeat constructor; cbn; tauto).
  split; [exact H |].
  destruct (message_store_wf (fun _ => None) (fun _ => []) _
              (proj1 (message_store_wf (fun _ => None) (fun _ => []) _ H) 5 (lit "m1") (lit "t")
                 (lit "pk") None (lit "text") Signing.Null 5 true None))
    as [_ [_ [_ [Hd _]]]].
  apply Hd.
Defined.

Lemma find_thread_map (db : Storage.Database) (id : rstring)
    (f : Storage.ThreadRow -> Storage.ThreadRow) :
  (forall r, Storage.tr_id (f r) = Storage.tr_id r) ->
  Storage.find_thread (Storage.map_thread db id f) id = option_map f (Storage.find_thread db id).
Proof.
  intros Hf. unfold Storage.find_thread, Storage.map_thread. cbn [Storage.threads].
  induction (Storage.threads db) as [| r l IH]; cbn; [reflexivity |].
  destruct (rstring_eqb (Storage.tr_id r) id) eqn:E.
  - rewrite Hf, E. reflexivity.
  - rewrite E. exact IH.
Qed.

Lemma find_thread_get_or_create (now : Z) (db : Storage.Database) (tid pk : rstring)
    (handle subj : option rstring) :
  exists r, Storage.find_thread (Storage.get_or_create_thread now db tid pk handle subj) tid
            = Some r
  /\ Storage.unread_count r
     = match Storage.find_thread db tid with Some r0 => Storage.unread_count r0 | None => 0 end.
Proof.
  unfold Storage.get_or_create_thread. destruct (Storage.find_thread db tid) as [r0 |] eqn:E.
  - rewrite find_thread_map by reflexivity. rewrite E. cbn. eexists; split; reflexivity.
  - unfold Storage.find_thread in *. cbn [Storage.threads].
    revert E. induction (Storage.threads db) as [| a l IH]; cbn; intros E.
    + rewrite rstring_eqb_true. eexists; split; reflexivity.
    + destruct (rstring_eqb (Storage.tr_id a) tid); [discriminate | exact (IH E)].
Qed.

Lemma save_received_thread (now : Z) (db : Storage.Database) (mid tid pk : rstring)
    (handle : option rstring) (pt : rstring) (payload : Signing.Value) (ts : Z) (sv : bool)
    (rid : option rstring) :
  exists r,
    Storage.find_thread (Storage.save_received_message now db mid tid pk handle pt payload ts sv rid) tid
    = Some r
  /\ Storage.unread_count r
     = match Storage.find_thread db tid with Some r0 => Storage.unread_count r0 | None => 0 end + 1
  /\ Storage.last_message_at r = ts.
Proof.
  unfold Storage.save_received_message, Storage.update_thread_for_message.
  rewrite find_thread_map by reflexivity.
  destruct (find_thread_get_or_create now db tid pk handle
              (Storage.json_get_str payload (lit "subject"))) as [r [Hr Hu]].
  unfold Storage.find_thread, Storage.insert_or_replace_message in *. cbn [Storage.threads].
  rewrite Hr. cbn. eexists; split; [reflexivity |]. split; [| reflexivity]. cbn. lia.
Qed.

Lemma save_received_rows (now : Z) (db : Storage.Database) (mid tid pk : rstring)
    (handle : option rstring) (pt : rstring) (payload : Signing.Value) (ts : Z) (sv : bool)
    (rid : option rstring) :
  map Storage.m_timestamp
    (filter (fun r => rstring_eqb (Storage.m_id r) mid)
       (Storage.messages (Storage.save_received_message now db mid tid pk handle pt payload ts sv rid)))
  = [ts].
Proof.
  unfold Storage.save_received_message, Storage.update_thread_for_message,
    Storage.map_thread, Storage.insert_or_replace_message, Storage.get_or_create_thread.
  cbn [Storage.messages Storage.m_id].
  assert (Hm : forall d : Storage.Database, filter (fun r => rstring_eqb (Storage.m_id r) mid)
      (filter (fun r => negb (rstring_eqb (Storage.m_id r) mid)) (Storage.messages d)) = []).
  { intros d. induction (Storage.messages d) as [| a l IH]; cbn; [reflexivity |].
    destruct (rstring_eqb (Storage.m_id a) mid) eqn:E; cbn; [exact IH |]. rewrite E. exact IH. }
  destruct (Storage.find_thread db tid); cbn [Storage.messages Storage.map_thread];
    rewrite filter_app, Hm; cbn; rewrite rstring_eqb_true; reflexivity.
Qed.

(** Receiving the same message id twice into a thread keeps one message
    row with that id (the second delivery, [INSERT OR REPLACE]), but the
    thread's unread count grows by two, one per delivery, and its last
    message time is the second timestamp. *)
Theorem received_duplicate_counts_twice (now1 now2 : Z) (db : Storage.Database)
    (mid tid pk : rstring) (handle : option rstring) (pt : rstring)
    (payload : Signing.Value) (ts1 ts2 : Z) (sv : bool) (rid : option rstring) :
  let db1 := Storage.save_received_message now1 db mid tid pk handle pt payload ts1 sv rid in
  let db2 := Storage.save_received_message now2 db1 mid tid pk handle pt payload ts2 sv rid in
  map Storage.m_timestamp
    (filter (fun r => rstring_eqb (Storage.m_id r) mid) (Storage.messages db2)) = [ts2]
  /\ exists r, Storage.find_thread db2 tid = Some r
     /\ Storage.unread_count r
        = match Storage.find_thread db tid with Some r0 => Storage.unread_count r0 | None => 0 end + 2
     /\ Storage.last_message_at r = ts2.
Proof.
  cbv zeta. split; [apply save_received_rows |].
  destruct (save_received_thread now1 db mid tid pk handle pt payload ts1 sv rid)
    as [r1 [H1 [U1 _]]].
  destruct (save_received_thread now2
              (Storage.save_received_message now1 db mid tid pk handle pt payload ts1 sv rid)
              mid tid pk handle pt payload ts2 sv rid) as [r2 [H2 [U2 L2]]].
  exists r2. split; [exact H2 |]. split; [| exact L2]. rewrite U2, H1, U1. lia.
Qed.

(* ------------------------------------------------------------------ *)
(** ** Direct-message threads *)

Lemma str_cmp_antisym (a b : rstring) : Signing.str_cmp b a = CompOpp (Signing.str_cmp a b).
Proof.
  revert b. induction a as [| x a IH]; intros [| y b]; cbn; try reflexivity.
  rewrite (Z.compare_antisym y x). destruct (Z.compare y x); cbn; [apply IH | reflexivity | reflexivity].
Qed.

Lemma str_cmp_eq (a b : rstring) : Signing.str_cmp a b = Eq -> a = b.
Proof.
  revert b. induction a as [| x a IH]; intros [| y b]; cbn; try discriminate; [reflexivity |].
  destruct (Z.compare_spec x y); try discriminate. intros He. subst. f_equal. apply IH, He.
Qed.

Lemma sort2_sym (a b : rstring) : Storage.sort2 a b = Storage.sort2 b a.
Proof.
  unfold Storage.sort2. rewrite (str_cmp_antisym a b).
  destruct (Signing.str_cmp a b) eqn:E; cbn; try reflexivity.
  apply str_cmp_eq in E. subst. reflexivity.
Qed.

Lemma direct_thread_id_sym (a b : rstring) :
  Storage.direct_thread_id a b = Storage.direct_thread_id b a.
Proof. unfold Storage.direct_thread_id. rewrite sort2_sym. reflexivity. Qed.

Lemma str_prefix_bytes_ascii (n : nat) (s : rstring) :
  Forall (fun c => 0 <= c < 128) s -> (n <= length s)%nat ->
  Storage.str_prefix_bytes (Z.of_nat n) s = Some (firstn n s).
Proof.
  revert s. induction n as [| n IH]; intros s Hs Hn; [destruct s; reflexivity |].
  destruct s as [| c s]; cbn in Hn; [lia |]. inversion Hs as [| ? ? Hc Hs']; subst.
  rewrite Nat2Z.inj_succ. cbn [Storage.str_prefix_bytes].
  destruct (Z.eqb_spec (Z.succ (Z.of_nat n)) 0); [lia |].
  unfold Utf8.encode_char. destruct (Z.ltb_spec c 128); [| lia]. change (Z.of_nat (length [c])) with 1.
  destruct (Z.leb_spec 1 (Z.succ (Z.of_nat n))); [| lia].
  replace (Z.succ (Z.of_nat n) - 1) with (Z.of_nat n) by lia.
  rewrite IH by (auto; lia). reflexivity.
Qed.

Lemma hex_encode_ascii (b : bytes) :
  Forall is_byte b -> Forall (fun c => 0 <= c < 128) (Hex.encode b).
Proof.
  intros H. eapply Forall_impl; [| apply hex_encode_digits, H].
  intros c Hc. apply hex_val_ascii, Hc.
Qed.

(** The direct thread id of two 32-byte keys in hex is defined: the
    joined keys are ASCII and longer than 32 bytes. *)
Lemma direct_thread_id_hex (a b : bytes) :
  Forall is_byte a -> Forall is_byte b -> length a = 32%nat ->
  exists tid, Storage.direct_thread_id (Hex.encode a) (Hex.encode b) = Some tid.
Proof.
  intros Ha Hb La. unfold Storage.direct_thread_id.
  assert (Hj : Forall (fun c => 0 <= c < 128)
                 (Signing.join (lit "_") (Storage.sort2 (Hex.encode a) (Hex.encode b)))
               /\ (32 <= length (Signing.join (lit "_") (Storage.sort2 (Hex.encode a) (Hex.encode b))))%nat).
  { pose proof (hex_encode_ascii a Ha). pose proof (hex_encode_ascii b Hb).
    pose proof (hex_encode_length a).
    assert (Hu : lit "_" = [95]) by reflexivity.
    unfold Storage.sort2. destruct (Signing.str_cmp (Hex.encode b) (Hex.encode a));
      cbn [Signing.join]; rewrite Hu;
      (split; [apply Forall_app; split; [| apply Forall_app; split; [repeat constructor; lia |]];
               assumption
              | rewrite !length_app; cbn [length]; lia]). }
  destruct Hj as [Hj Hl].
  change 32 with (Z.of_nat 32). rewrite (str_prefix_bytes_ascii 32 _ Hj Hl). eexists. reflexivity.
Qed.

Lemma message_thread_upsert (db : Storage.Database) (m : Storage.MessageRow) (tid : rstring)
    (ts : Z) (inc : bool) :
  message_thread
    (Storage.update_thread_for_message (Storage.insert_or_replace_message db m) tid ts inc)
    (Storage.m_id m) = Some (Storage.m_thread_id m).
Proof. apply message_thread_insert. Qed.

(** A message sent by [S] to [R] without a thread id ([send_message]:
    [create_envelope_with_metadata], then [save_sent_message]) and the same
    envelope handled by [R]'s [handle_envelope] are stored, on each side,
    under the same thread: the direct thread id of the two public keys. *)
Theorem direct_thread_agreement {P : Primitives} (CO : crypto_ok P)
    (T : MessageHandler.UnicodeTables) (from_slice : bytes -> option Signing.Value)
    (from_utf8_lossy : bytes -> rstring) (sha256_hex : bytes -> rstring) (info_enabled : bool)
    (S_sk R_sk : bytes) (envelope_id : rstring) (now_ms : Z) (esk nonce_bytes : bytes)
    (handle : option rstring) (t : rstring) (p : bytes) (rid : option rstring)
    (uuid : rstring) (now1 now2 : Z) (db_s db_r : Storage.Database)
    (recipient_handle : option rstring) :
  length nonce_bytes = 12%nat -> Handler.is_email t = false ->
  let S := Identity.from_signing_key S_sk in
  let R := Identity.from_signing_key R_sk in
  exists e db_s' db_r' tid,
    EnvelopeOps.create_envelope_with_metadata envelope_id now_ms esk nonce_bytes S handle
      (Identity.public_key_hex R) (Identity.encryption_key_hex R) t p None rid = Ok e
    /\ Storage.save_sent_message from_slice from_utf8_lossy now1 db_s e p recipient_handle rid
       = Some db_s'
    /\ Handler.handle_envelope T from_slice from_utf8_lossy sha256_hex info_enabled uuid now2
         (Some R) db_r e = Some db_r'
    /\ Storage.direct_thread_id (Identity.public_key_hex S) (Identity.public_key_hex R) = Some tid
    /\ message_thread db_s' envelope_id = Some tid
    /\ message_thread db_r' envelope_id = Some tid.
Proof.
  intros Hn Ht S R.
  destruct (create_with_metadata_spec CO envelope_id now_ms esk nonce_bytes S_sk R_sk handle
              t p None rid Hn)
    as [e [ep [Hc [Hi [Hts [Hty [Hto [Hf [Hh [Htid [Hrid [Hs [Hp Hd]]]]]]]]]]]]].
  destruct (direct_thread_id_hex (ed25519_public S_sk) (ed25519_public R_sk)
              (co_public_bytes _ CO S_sk) (co_public_bytes _ CO R_sk) (co_public_len _ CO S_sk))
    as [tid Htid'].
  assert (Hpk : forall sk, Forall (fun c => 0 <= c < 128) (Hex.encode (ed25519_public sk))
                           /\ (16 <= length (Hex.encode (ed25519_public sk)))%nat).
  { intros sk. split; [apply hex_encode_ascii, CO |].
    rewrite hex_encode_length, (co_public_len _ CO). lia. }
  assert (Hpre : exists u, (if info_enabled then
                              Storage.str_prefix_bytes 16 (Envelope.from_public_key e)
                            else Some []) = Some u).
  { rewrite Hf. destruct info_enabled; [| eexists; reflexivity].
    destruct (Hpk S_sk) as [Ha Hl]. change 16 with (Z.of_nat 16).
    rewrite (str_prefix_bytes_ascii 16 _ Ha Hl). eexists; reflexivity. }
  destruct Hpre as [u Hu].
  (* the sender's side *)
  assert (Hsend : exists db', Storage.save_sent_message from_slice from_utf8_lossy now1 db_s e p
                                recipient_handle rid = Some db'
                  /\ message_thread db' envelope_id = Some tid).
  { unfold Storage.save_sent_message, Storage.sent_thread_id.
    rewrite Htid, Hto, Hf. cbn [hd_error].
    change (Identity.public_key_hex (Identity.from_signing_key R_sk))
      with (Hex.encode (ed25519_public R_sk)).
    rewrite Htid'. eexists. split; [reflexivity |].
    rewrite <- Hi. erewrite message_thread_upsert. reflexivity. }
  (* the recipient's side *)
  assert (Hrecv : exists db', Handler.handle_envelope T from_slice from_utf8_lossy sha256_hex
                                info_enabled uuid now2 (Some R) db_r e = Some db'
                  /\ message_thread db' envelope_id = Some tid).
  { unfold Handler.handle_envelope.
    rewrite Hu.
    rewrite (open_envelope_object _ e ep Hp), (verify_own_header CO S_sk e Hf Hs).
    cbn [bind]. subst R. rewrite Hd. cbn [bind].
    cbn [Envelope.o_from_public_key Envelope.o_payload Envelope.o_payload_type
         Envelope.o_thread_id].
    rewrite Hu.
    unfold Handler.received_thread_id.
    cbn [Envelope.o_payload_type Envelope.o_thread_id Envelope.o_from_public_key].
    rewrite Hty, Ht, Htid, Hf.
    change (Identity.public_key_hex (Identity.from_signing_key R_sk))
      with (Hex.encode (ed25519_public R_sk)).
    rewrite direct_thread_id_sym, Htid'.
    eexists. split; [reflexivity |]. unfold Storage.save_received_message.
    rewrite <- Hi. erewrite message_thread_upsert. reflexivity. }
  destruct Hsend as [db_s' [Hs1 Hs2]]. destruct Hrecv as [db_r' [Hr1 Hr2]].
  exists e, db_s', db_r', tid. repeat split; assumption.
Qed.

Lemma direct_thread_agreement_witness :
  length (repeat 6%Z 12) = 12%nat /\ Handler.is_email (lit "text") = false /\
  exists e db_s' db_r' tid,
    @EnvelopeOps.create_envelope_with_metadata Examples.toy_primitives (lit "m3") 3000
      (repeat 5 32) (repeat 6 12)
      (@Identity.from_signing_key Examples.toy_primitives Examples.sk_alice) None
      (@Identity.public_key_hex Examples.toy_primitives
         (@Identity.from_signing_key Examples.toy_primitives Examples.sk_bob))
      (Identity.encryption_key_hex
         (@Identity.from_signing_key Examples.toy_primitives Examples.sk_bob))
      (lit "text") (lit "hi") None None = Ok e
    /\ Storage.save_sent_message (fun _ => None) (fun _ => []) 3000 Examples.db_alice e
         (lit "hi") None None = Some db_s'
    /\ @Handler.handle_envelope Examples.toy_primitives Examples.ascii_tables (fun _ => None)
         (fun _ => []) (fun _ => []) true (lit "u") 3001
         (Some (@Identity.from_signing_key Examples.toy_primitives Examples.sk_bob))
         Examples.db_alice e = Some db_r'
    /\ Storage.direct_thread_id
         (@Identity.public_key_hex Examples.toy_primitives
            (@Identity.from_signing_key Examples.toy_primitives Examples.sk_alice))
         (@Identity.public_key_hex Examples.toy_primitives
            (@Identity.from_signing_key Examples.toy_primitives Examples.sk_bob)) = Some tid
    /\ message_thread db_s' (lit "m3") = Some tid
    /\ message_thread db_r' (lit "m3") = Some tid.
Proof.
  split; [reflexivity |]. split; [reflexivity |].
  exact (direct_thread_agreement toy_crypto_ok Examples.ascii_tables (fun _ => None)
           (fun _ => []) (fun _ => []) true Examples.sk_alice Examples.sk_bob (lit "m3") 3000
           (repeat 5 32) (repeat 6 12) None (lit "text") (lit "hi") None (lit "u") 3000 3001
           Examples.db_alice Examples.db_alice None eq_refl eq_refl).
Defined.

(* ------------------------------------------------------------------ *)
(** ** Email threads *)

Lemma create_with_metadata_fields {P : Primitives} (envelope_id : rstring) (now_ms : Z)
    (esk nonce_bytes : bytes) (sender : Identity.GnsIdentity) (handle : option rstring)
    (rpk renc t : rstring) (p : bytes) (tid rid : option rstring) (e : Envelope.GnsEnvelope) :
  EnvelopeOps.create_envelope_with_metadata envelope_id now_ms esk nonce_bytes sender handle
    rpk renc t p tid rid = Ok e ->
  Envelope.id e = envelope_id /\ Envelope.thread_id e = tid
  /\ Envelope.to_public_keys e = [rpk] /\ Envelope.payload_type e = t.
Proof.
  unfold EnvelopeOps.create_envelope_with_metadata, Envelope.create_envelope.
  destruct (hex_decode renc) as [k |]; cbn [bind]; [| discriminate].
  destruct (negb (Nat.eqb (length k) 32)); [discriminate |].
  destruct (Encryption.encrypt_for_recipient _ _ _ _); cbn [bind]; [| discriminate].
  intros H. injection H as <-. cbn. repeat split.
Qed.

Lemma save_sent_message_thread (from_slice : bytes -> option Signing.Value)
    (from_utf8_lossy : bytes -> rstring) (now : Z) (db db' : Storage.Database)
    (e : Envelope.GnsEnvelope) (p : bytes) (rh rid : option rstring) :
  Storage.save_sent_message from_slice from_utf8_lossy now db e p rh rid = Some db' ->
  exists tid, Storage.sent_thread_id e = Some tid /\ message_thread db' (Envelope.id e) = Some tid.
Proof.
  unfold Storage.save_sent_message. destruct (Storage.sent_thread_id e) as [tid |]; [| discriminate].
  destruct (hd_error (Envelope.to_public_keys e)); [| discriminate].
  intros H. injection H as <-. exists tid. split; [reflexivity |].
  erewrite message_thread_upsert. reflexivity.
Qed.

(** With no thread id given and a subject that normalizes to a non-empty
    string, [save_sent_email_message] files the email under the SHA-256
    hex of the normalized subject and returns that thread id; an inbound
    email whose subject normalizes to the same string, handled by
    [handle_envelope] for the same identity, is stored in that thread. *)
Theorem email_reply_same_thread {P : Primitives} (T : MessageHandler.UnicodeTables)
    (from_slice : bytes -> option Signing.Value) (from_utf8_lossy : bytes -> rstring)
    (sha256_hex : bytes -> rstring) (to_vec : Signing.Value -> bytes) (info_enabled : bool)
    (uuid1 envelope_id : rstring) (now1 : Z) (esk nonce_bytes : bytes)
    (identity : Identity.GnsIdentity) (my_handle : option rstring) (db_s : Storage.Database)
    (recipient_email subject snippet body gateway_public_key : rstring)
    (message_id : option rstring) (out : Storage.Database * Handler.SendResult)
    (uuid2 : rstring) (now2 : Z) (db_r : Storage.Database) (e : Envelope.GnsEnvelope)
    (o : Envelope.OpenedEnvelope) (v : Signing.Value) (subject' : rstring) :
  Handler.save_sent_email_message T from_slice from_utf8_lossy sha256_hex to_vec uuid1
    envelope_id now1 esk nonce_bytes (Some identity) my_handle db_s recipient_email subject
    snippet body gateway_public_key None message_id = Some (Ok out) ->
  MessageHandler.normalize_subject T subject <> [] ->
  Envelope.open_envelope identity e = Ok o ->
  Handler.is_email (Envelope.o_payload_type o) = true ->
  from_slice (Envelope.o_payload o) = Some v ->
  Storage.json_get_str v (lit "subject") = Some subject' ->
  MessageHandler.normalize_subject T subject' = MessageHandler.normalize_subject T subject ->
  (info_enabled = true ->
   Storage.str_prefix_bytes 16 (Envelope.from_public_key e) <> None
   /\ Storage.str_prefix_bytes 16 (Envelope.o_from_public_key o) <> None) ->
  let tid := sha256_hex (Utf8.encode (MessageHandler.normalize_subject T subject)) in
  Handler.sr_thread_id (snd out) = Some tid
  /\ message_thread (fst out) (Handler.message_id (snd out)) = Some tid
  /\ exists db_r', Handler.handle_envelope T from_slice from_utf8_lossy sha256_hex info_enabled
                     uuid2 now2 (Some identity) db_r e = Some db_r'
     /\ message_thread db_r' (Envelope.id e) = Some tid.
Proof.
  intros Hsend Hne Ho Hem Hv Hs Hn Hinfo tid.
  assert (Hfinal : match MessageHandler.normalize_subject T subject with
                   | [] => uuid1 | _ :: _ => sha256_hex (Utf8.encode
                                               (MessageHandler.normalize_subject T subject)) end
                   = tid).
  { destruct (MessageHandler.normalize_subject T subject); [contradiction | reflexivity]. }
  split; [| split].
  - unfold Handler.save_sent_email_message in Hsend. rewrite Hfinal in Hsend.
    destruct (EnvelopeOps.create_envelope_with_metadata _ _ _ _ _ _ _ _ _ _ _ _);
      [| discriminate].
    destruct (Storage.save_sent_message _ _ _ _ _ _ _ _); [| discriminate].
    injection Hsend as <-. reflexivity.
  - unfold Handler.save_sent_email_message in Hsend. rewrite Hfinal in Hsend.
    destruct (EnvelopeOps.create_envelope_with_metadata _ _ _ _ _ _ _ _ _ _ _ _) as [env |] eqn:Hc;
      [| discriminate].
    destruct (Storage.save_sent_message _ _ _ _ _ _ _ _) as [db' |] eqn:Hsv; [| discriminate].
    injection Hsend as <-. cbn [fst snd Handler.message_id].
    destruct (create_with_metadata_fields _ _ _ _ _ _ _ _ _ _ _ _ _ Hc) as [_ [Ht _]].
    destruct (save_sent_message_thread _ _ _ _ _ _ _ _ _ Hsv) as [t' [Ht' Hm]].
    unfold Storage.sent_thread_id in Ht'. rewrite Ht in Ht'. injection Ht' as <-. exact Hm.
  - unfold Handler.handle_envelope.
    destruct (if info_enabled then Storage.str_prefix_bytes 16 (Envelope.from_public_key e)
              else Some []) eqn:E1.
    2:{ destruct info_enabled; [| discriminate]. destruct (Hinfo eq_refl). contradiction. }
    rewrite Ho.
    destruct (if info_enabled then Storage.str_prefix_bytes 16 (Envelope.o_from_public_key o)
              else Some []) eqn:E2.
    2:{ destruct info_enabled; [| discriminate]. destruct (Hinfo eq_refl). contradiction. }
    unfold Handler.received_thread_id. rewrite Hem.
    unfold Storage.sent_payload_json. rewrite Hv, Hs, Hn.
    destruct (MessageHandler.normalize_subject T subject) eqn:En; [contradiction |].
    eexists. split; [reflexivity |]. unfold Storage.save_received_message.
    erewrite message_thread_upsert. cbn [Storage.m_thread_id]. subst tid. rewrite ?En. reflexivity.
Qed.

Lemma email_reply_same_thread_witness :
  (@Handler.save_sent_email_message Examples.toy_primitives Examples.ascii_tables
     MoreExamples.reply_slice (fun _ => []) (fun b => b) (fun _ => lit "{}") (lit "u1") (lit "m1")
     4000 (repeat 5 32) (repeat 6 12)
     (Some (@Identity.from_signing_key Examples.toy_primitives Examples.sk_alice)) None
     Examples.db_alice (lit "bob@example.com") (lit "Hello") (lit "hi") (lit "hi there")
     (lit "gw") None None = Some (Ok MoreExamples.sent_email))
  /\ Handler.sr_thread_id (snd MoreExamples.sent_email) = Some (Utf8.encode (lit "hello"))
  /\ message_thread (fst MoreExamples.sent_email) (Handler.message_id (snd MoreExamples.sent_email))
     = Some (Utf8.encode (lit "hello"))
  /\ exists db_r', @Handler.handle_envelope Examples.toy_primitives Examples.ascii_tables
                     MoreExamples.reply_slice (fun _ => []) (fun b => b) true (lit "u2") 5001
                     (Some (@Identity.from_signing_key Examples.toy_primitives Examples.sk_alice))
                     Examples.db_alice MoreExamples.email_reply = Some db_r'
     /\ message_thread db_r' (Envelope.id MoreExamples.email_reply) = Some (Utf8.encode (lit "hello")).
Proof.
  assert (Hsend : @Handler.save_sent_email_message Examples.toy_primitives Examples.ascii_tables
     MoreExamples.reply_slice (fun _ => []) (fun b => b) (fun _ => lit "{}") (lit "u1") (lit "m1")
     4000 (repeat 5 32) (repeat 6 12)
     (Some (@Identity.from_signing_key Examples.toy_primitives Examples.sk_alice)) None
     Examples.db_alice (lit "bob@example.com") (lit "Hello") (lit "hi") (lit "hi there")
     (lit "gw") None None = Some (Ok MoreExamples.sent_email)) by (vm_compute; reflexivity).
  split; [exact Hsend |].
  exact (email_reply_same_thread Examples.ascii_tables MoreExamples.reply_slice (fun _ => [])
           (fun b => b) (fun _ => lit "{}") true (lit "u1") (lit "m1") 4000 (repeat 5 32)
           (repeat 6 12) (@Identity.from_signing_key Examples.toy_primitives Examples.sk_alice)
           None Examples.db_alice (lit "bob@example.com") (lit "Hello") (lit "hi")
           (lit "hi there") (lit "gw") None MoreExamples.sent_email (lit "u2") 5001
           Examples.db_alice MoreExamples.email_reply MoreExamples.email_reply_opened
           (Signing.VObject [(lit "subject", Signing.VString (lit "Re: hello"))]) (lit "Re: hello")
           Hsend ltac:(vm_compute; discriminate) ltac:(vm_compute; reflexivity)
           ltac:(vm_compute; reflexivity) ltac:(vm_compute; reflexivity)
           ltac:(vm_compute; reflexivity) ltac:(vm_compute; reflexivity)
           ltac:(intros _; vm_compute; split; discriminate)).
Defined.

(* ------------------------------------------------------------------ *)
(** ** The sync state and breadcrumb tables *)

Lemma sync_get_put_same (st : StorageOps.Store) (k v : rstring) :
  StorageOps.sync_get (StorageOps.sync_put st k v) k = Some v.
Proof.
  unfold StorageOps.sync_get, StorageOps.sync_put. cbn [StorageOps.st_sync_state].
  induction (StorageOps.st_sync_state st) as [| kv l IH]; cbn.
  - rewrite rstring_eqb_true. reflexivity.
  - destruct (rstring_eqb (fst kv) k) eqn:E; cbn; [exact IH |]. rewrite E. exact IH.
Qed.

Lemma sync_get_put_other (st : StorageOps.Store) (k k' v : rstring) :
  k' <> k -> StorageOps.sync_get (StorageOps.sync_put st k v) k' = StorageOps.sync_get st k'.
Proof.
  intros Hk. unfold StorageOps.sync_get, StorageOps.sync_put. cbn [StorageOps.st_sync_state].
  induction (StorageOps.st_sync_state st) as [| kv l IH]; cbn.
  - rewrite (rstring_eqb_false k k') by congruence. reflexivity.
  - destruct (rstring_eqb (fst kv) k) eqn:E; cbn.
    + apply rstring_eqb_spec in E. rewrite (rstring_eqb_false (fst kv) k') by congruence.
      exact IH.
    + destruct (rstring_eqb (fst kv) k'); [reflexivity | exact IH].
Qed.

(** [set_last_sync_time] then [get_last_sync_time] gives back any [i64]
    time, [set_collection_enabled] then [get_collection_enabled] gives
    back the flag, and each setter leaves the other setting as it was. *)
Theorem sync_settings_roundtrip (st : StorageOps.Store) (t : Z) (b : bool) :
  - 2 ^ 63 <= t <= 2 ^ 63 - 1 ->
  StorageOps.get_last_sync_time (StorageOps.set_last_sync_time st t) = Some t
  /\ StorageOps.get_collection_enabled (StorageOps.set_collection_enabled st b) = b
  /\ StorageOps.get_collection_enabled (StorageOps.set_last_sync_time st t)
     = StorageOps.get_collection_enabled st
  /\ StorageOps.get_last_sync_time (StorageOps.set_collection_enabled st b)
     = StorageOps.get_last_sync_time st.
Proof.
  intros Ht. unfold StorageOps.get_last_sync_time, StorageOps.set_last_sync_time,
    StorageOps.get_collection_enabled, StorageOps.set_collection_enabled.
  repeat split.
  - rewrite sync_get_put_same. cbn [option_map]. rewrite parse_i64_number_to_string by exact Ht.
    reflexivity.
  - rewrite sync_get_put_same. destruct b; reflexivity.
  - rewrite sync_get_put_other by (vm_compute; discriminate). reflexivity.
  - rewrite sync_get_put_other by (vm_compute; discriminate). reflexivity.
Qed.

Lemma sync_settings_roundtrip_witness :
  - 2 ^ 63 <= -5 <= 2 ^ 63 - 1 /\
  StorageOps.get_last_sync_time (StorageOps.set_last_sync_time
    (StorageOps.mkStore Examples.db_alice [] [(lit "last_sync", lit "x")]) (-5)) = Some (-5)
  /\ StorageOps.get_collection_enabled (StorageOps.set_collection_enabled
       (StorageOps.mkStore Examples.db_alice [] [(lit "last_sync", lit "x")]) true) = true
  /\ StorageOps.get_collection_enabled (StorageOps.set_last_sync_time
       (StorageOps.mkStore Examples.db_alice [] [(lit "last_sync", lit "x")]) (-5))
     = StorageOps.get_collection_enabled
         (StorageOps.mkStore Examples.db_alice [] [(lit "last_sync", lit "x")])
  /\ StorageOps.get_last_sync_time (StorageOps.set_collection_enabled
       (StorageOps.mkStore Examples.db_alice [] [(lit "last_sync", lit "x")]) true)
     = StorageOps.get_last_sync_time
         (StorageOps.mkStore Examples.db_alice [] [(lit "last_sync", lit "x")]).
Proof.
  split; [lia |].
  exact (sync_settings_roundtrip (StorageOps.mkStore Examples.db_alice [] [(lit "last_sync", lit "x")])
           (-5) true ltac:(lia)).
Defined.




Lemma fold_min_le (l : list Z) (t : Z) :
  fold_left Z.min l t <= t /\ Forall (fun x => fold_left Z.min l t <= x) l.
Proof.
  revert t. induction l as [| x l IH]; intros t; cbn; [split; [lia | constructor] |].
  destruct (IH (Z.min t x)) as [H1 H2]. split; [lia |]. constructor; [lia | exact H2].
Qed.

Lemma fold_max_ge (l : list Z) (t : Z) :
  t <= fold_left Z.max l t /\ Forall (fun x => x <= fold_left Z.max l t) l.
Proof.
  revert t. induction l as [| x l IH]; intros t; cbn; [split; [lia | constructor] |].
  destruct (IH (Z.max t x)) as [H1 H2]. split; [lia |]. constructor; [lia | exact H2].
Qed.

(** The breadcrumb statistics: with fewer than [2^32] rows (the counts
    are cast [as u32]) the number of distinct cells is at most the number
    of breadcrumbs; the first and last times are [None] exactly on an
    empty table, and otherwise bound every stored timestamp, first below
    last. *)
Theorem breadcrumb_stats (st : StorageOps.Store) :
  (Z.of_nat (length (StorageOps.st_breadcrumbs st)) < 2 ^ 32) ->
  StorageOps.count_unique_locations st <= StorageOps.count_breadcrumbs st
  /\ (StorageOps.get_first_breadcrumb_time st = None <-> StorageOps.st_breadcrumbs st = [])
  /\ (StorageOps.get_last_breadcrumb_time st = None <-> StorageOps.st_breadcrumbs st = [])
  /\ (forall f l, StorageOps.get_first_breadcrumb_time st = Some f ->
        StorageOps.get_last_breadcrumb_time st = Some l ->
        f <= l /\ Forall (fun r => f <= StorageOps.b_timestamp r <= l) (StorageOps.st_breadcrumbs st)).
Proof.
  intros Hl. unfold StorageOps.count_unique_locations, StorageOps.count_breadcrumbs,
    StorageOps.get_first_breadcrumb_time, StorageOps.get_last_breadcrumb_time.
  split; [| split; [| split]].
  - assert (Hle : (length (nodup (list_eq_dec Z.eq_dec)
                     (map StorageOps.b_h3_index (StorageOps.st_breadcrumbs st)))
                   <= length (StorageOps.st_breadcrumbs st))%nat).
    { rewrite <- (length_map StorageOps.b_h3_index). apply NoDup_incl_length.
      - apply NoDup_nodup.
      - intros x. apply nodup_In. }
    rewrite !Z.mod_small by lia. lia.
  - destruct (StorageOps.st_breadcrumbs st); cbn; split; congruence.
  - destruct (StorageOps.st_breadcrumbs st); cbn; split; congruence.
  - intros f l. destruct (StorageOps.st_breadcrumbs st) as [| r rs]; cbn; [discriminate |].
    intros Hf Hl'. injection Hf as <-. injection Hl' as <-.
    destruct (fold_min_le (map StorageOps.b_timestamp rs) (StorageOps.b_timestamp r)) as [A1 A2].
    destruct (fold_max_ge (map StorageOps.b_timestamp rs) (StorageOps.b_timestamp r)) as [B1 B2].
    split; [lia |]. constructor; [lia |].
    rewrite Forall_map in A2, B2.
    apply Forall_forall. intros x Hx. rewrite Forall_forall in A2, B2.
    specialize (A2 x Hx). specialize (B2 x Hx). lia.
Qed.

Lemma breadcrumb_stats_witness :
  Z.of_nat (length [StorageOps.mkBreadcrumbRow (lit "a") 5 [] None;
                    StorageOps.mkBreadcrumbRow (lit "a") 2 [] None]) < 2 ^ 32 /\
  StorageOps.count_unique_locations
    (StorageOps.mkStore Examples.db_alice [StorageOps.mkBreadcrumbRow (lit "a") 5 [] None;
                                           StorageOps.mkBreadcrumbRow (lit "a") 2 [] None] [])
  <= StorageOps.count_breadcrumbs
    (StorageOps.mkStore Examples.db_alice [StorageOps.mkBreadcrumbRow (lit "a") 5 [] None;
                                           StorageOps.mkBreadcrumbRow (lit "a") 2 [] None] []).
Proof.
  split; [cbn; lia |].
  exact (proj1 (breadcrumb_stats (StorageOps.mkStore Examples.db_alice
    [StorageOps.mkBreadcrumbRow (lit "a") 5 [] None;
     StorageOps.mkBreadcrumbRow (lit "a") 2 [] None] []) ltac:(cbn; lia))).
Defined.

(* ------------------------------------------------------------------ *)
(** ** [handle_envelope] on a short sender key *)

Lemma str_prefix_bytes_short (n : Z) (s : rstring) :
  Z.of_nat (length (Utf8.encode s)) < n -> Storage.str_prefix_bytes n s = None.
Proof.
  revert n. induction s as [| c s IH]; intros n Hn; cbn [Storage.str_prefix_bytes].
  - cbn in Hn. destruct (Z.eqb_spec n 0); [lia | reflexivity].
  - destruct (Z.eqb_spec n 0).
    + unfold Utf8.encode in Hn. cbn [flat_map] in Hn. rewrite length_app in Hn. lia.
    + destruct (Z.leb_spec (Z.of_nat (length (Utf8.encode_char c))) n); [| reflexivity].
      rewrite IH; [reflexivity |].
      unfold Utf8.encode in Hn |- *. cbn [flat_map] in Hn. rewrite length_app in Hn. lia.
Qed.

(** With [info] tracing enabled, [handle_envelope] panics (before looking
    up the identity) on an envelope whose sender key is shorter than 16
    bytes: the log line slices [&from_public_key[..16]]. *)
Theorem handle_envelope_short_key_panics {P : Primitives} (T : MessageHandler.UnicodeTables)
    (from_slice : bytes -> option Signing.Value) (from_utf8_lossy : bytes -> rstring)
    (sha256_hex : bytes -> rstring) (uuid : rstring) (now_ms : Z)
    (identity : option Identity.GnsIdentity) (db : Storage.Database) (e : Envelope.GnsEnvelope) :
  (length (Utf8.encode (Envelope.from_public_key e)) < 16)%nat ->
  Handler.handle_envelope T from_slice from_utf8_lossy sha256_hex true uuid now_ms identity db e
  = None.
Proof.
  intros Hl. unfold Handler.handle_envelope. rewrite str_prefix_bytes_short by lia. reflexivity.
Qed.

Lemma handle_envelope_short_key_panics_witness :
  (length (Utf8.encode (Envelope.from_public_key Examples.env_upper)) < 16)%nat /\
  @Handler.handle_envelope Examples.toy_primitives Examples.ascii_tables (fun _ => None)
    (fun _ => []) (fun b => b) true (lit "u") 0 None Examples.db_alice Examples.env_upper = None.
Proof.
  split; [apply Nat.ltb_lt; vm_compute; reflexivity |].
  apply (handle_envelope_short_key_panics Examples.ascii_tables).
  apply Nat.ltb_lt; vm_compute; reflexivity.
Defined.
